(** * StoryMaster: a shallow embedding of the orchestration core

  The development follows the TypeScript sources module by module:

  - [JS]            the fragment of the JavaScript runtime the sources rely on
                    (strings, dynamic values, truthiness);
  - [Store]         [src/stores/story-file-store.ts], the versioned document store;
  - [Provider]      [src/providers/llm-provider.ts], the provider gateway;
  - [Monitor]       [src/monitoring/usage-monitor.ts], the usage monitor;
  - [Orchestration] [src/services/orchestration-service.ts], agent loading and
                    prompt composition;
  - [Auth]          [src/auth/auth-service.ts], the accounts and sign-in sessions
                    the usage monitor reads;
  - [Billing]       the plan table of [StripeService].

  Conventions.  Text is a Rocq [string]; its characters stand for the code
  units of the JavaScript string and the white-space class is the one JavaScript
  has below code unit 256.  JavaScript numbers that only ever hold integers
  (version numbers, line numbers, counters, time stamps in milliseconds) are
  [Z] or [nat]; numbers that hold measurements (tokens, cost, latency) are
  binary64 floats.  Whatever a method reads from the ambient world (the clock,
  the random source behind [generateId], the file system) is an explicit
  argument.  A method that can throw returns an [Outcome].  Values of type
  [any] are followed on the fragment that [JSVal] describes, with the built-in
  prototypes as the runtime provides them, and the parser of the agent files on
  the blocks whose keys are not names of properties of [Object.prototype]. *)

From Stdlib Require Import ZArith List String Ascii Bool Lia Sorted.
From Stdlib Require Import PrimFloat FloatOps SpecFloat FloatAxioms Uint63.
From stdpp Require Import base option list gmap strings pretty.

Set Default Proof Using "Type".
Set Warnings "-register-all".
Local Open Scope Z_scope.

(** ** Results of methods that may throw *)

Inductive Outcome (E A : Type) : Type :=
| Ok (a : A)
| Throw (e : E).
Arguments Ok {E A} a.
Arguments Throw {E A} e.

(** Sequencing: the first throw ends the computation. *)
#[global] Instance Outcome_ret {E : Type} : MRet (Outcome E) := fun A a => Ok a.

#[global] Instance Outcome_bind {E : Type} : MBind (Outcome E) :=
  fun A B f m => match m with Ok a => f a | Throw e => Throw e end.

(** [l.map(f)] for an [f] that may throw. *)
Fixpoint map_outcome {E A B : Type} (f : A -> Outcome E B) (l : list A)
    : Outcome E (list B) :=
  match l with
  | [] => Ok []
  | x :: r => y ← f x; ys ← map_outcome f r; Ok (y :: ys)
  end.

(** ** The JavaScript fragment *)

Module JS.

(** Dynamic values, the part of them the sources are followed on.

    - [JNum z] is the number [z], for a safe integer [z] (below 2^53 in
      absolute value): those are the integers a binary64 number holds exactly
      and prints digit by digit.
    - [JArr items] is an array without holes or properties of its own.
    - [JObj props] is an ordinary object given by its own properties, all of
      them data properties, in insertion order.
    - [JMethodObj text] is an ordinary object that has a method [toString] of
      its own and nothing else: called while the clock reads [t], the method
      returns the string [text t].  It is the one kind of value here that
      brings code with it.

    The built-in prototypes are as the runtime provides them: an ordinary
    object inherits from [Object.prototype], whose properties are those of
    [object_prototype_names], and nothing has been added to it. *)
Inductive JSVal : Type :=
| JUndefined
| JNull
| JBool (b : bool)
| JNum (z : Z)
| JStr (s : string)
| JArr (items : list JSVal)
| JObj (props : list (string * JSVal))
| JMethodObj (text : Z -> string).

(** The names of the properties of [Object.prototype]. *)
Definition object_prototype_names : list string :=
  [ "constructor"; "__defineGetter__"; "__defineSetter__"; "hasOwnProperty";
    "__lookupGetter__"; "__lookupSetter__"; "isPrototypeOf"; "propertyIsEnumerable";
    "toString"; "valueOf"; "__proto__"; "toLocaleString" ]%string.

(** A property name that [Object.prototype] does not have: reading it from
    an ordinary object finds an own property or nothing, and assigning to it
    creates or changes an own property. *)
Definition plain_key (key : string) : bool :=
  negb (existsb (String.eqb key) object_prototype_names).

(** [s.split(c)] for a one-character separator: never empty, the empty
    string splits into one empty piece. *)
Fixpoint split (c : ascii) (s : string) : list string :=
  match s with
  | EmptyString => [EmptyString]
  | String a r =>
      if Ascii.eqb a c then EmptyString :: split c r
      else match split c r with
           | [] => [String a EmptyString]
           | p :: ps => String a p :: ps
           end
  end.

Definition newline : ascii := Ascii.ascii_of_nat 10.

(** The white space of [trim] and of the regular expression class [\s],
    among the code units below 256: tab, line feed, vertical tab, form feed,
    carriage return, space and no-break space. *)
Definition is_space (c : ascii) : bool :=
  let n := Ascii.nat_of_ascii c in
  ((9 <=? n) && (n <=? 13) || (n =? 32) || (n =? 160))%nat.

Fixpoint trimStart (s : string) : string :=
  match s with
  | String c r => if is_space c then trimStart r else s
  | EmptyString => EmptyString
  end.

Fixpoint trimEnd (s : string) : string :=
  match s with
  | String c r =>
      match trimEnd r with
      | EmptyString => if is_space c then EmptyString else String c EmptyString
      | r' => String c r'
      end
  | EmptyString => EmptyString
  end.

Definition trim (s : string) : string := trimEnd (trimStart s).

Definition startsWith (p s : string) : bool := String.prefix p s.

Fixpoint endsWith (p s : string) : bool :=
  (String.length p <=? String.length s)%nat &&
  (String.eqb p s ||
   match s with
   | String _ r => endsWith p r
   | EmptyString => false
   end).

(** [s.includes(c)] for a one-character [c]. *)
Fixpoint includes (c : ascii) (s : string) : bool :=
  match s with
  | String a r => Ascii.eqb a c || includes c r
  | EmptyString => false
  end.

(** [l.join(sep)] on strings. *)
Definition join (sep : string) (l : list string) : string := String.concat sep l.

(** [s.slice(0, -1)] and [s.slice(1, -1)]. *)
Definition dropLast (s : string) : string :=
  String.substring 0 (String.length s - 1) s.

Definition dropFirstAndLast (s : string) : string :=
  String.substring 1 (String.length s - 2) s.

(** What follows the first occurrence of [p] in [s], if [p] occurs. *)
Fixpoint after_first (p s : string) : option string :=
  if String.prefix p s then Some (String.substring (String.length p) (String.length s) s)
  else match s with
       | String _ r => after_first p r
       | EmptyString => None
       end.

(** Truthiness, and the operator [a || b]. *)
Definition truthy (v : JSVal) : bool :=
  match v with
  | JUndefined | JNull => false
  | JBool b => b
  | JNum z => negb (Z.eqb z 0)
  | JStr s => negb (String.eqb s "")
  | JArr _ | JObj _ | JMethodObj _ => true
  end.

Definition or_else (a b : JSVal) : JSVal := if truthy a then a else b.

(** The own property [key] of an object with the properties [props]. *)
Fixpoint obj_get (key : string) (props : list (string * JSVal)) : JSVal :=
  match props with
  | [] => JUndefined
  | (k, v) :: r => if String.eqb k key then v else obj_get key r
  end.

Definition has_own (key : string) (props : list (string * JSVal)) : bool :=
  existsb (fun kv => String.eqb (fst kv) key) props.

(** [o[key] = v] for a [plain_key]: an existing property keeps its place. *)
Fixpoint obj_set (key : string) (v : JSVal) (props : list (string * JSVal))
    : list (string * JSVal) :=
  match props with
  | [] => [(key, v)]
  | (k, w) :: r => if String.eqb k key then (k, v) :: r else (k, w) :: obj_set key v r
  end.

(** [v.key] where [v] is neither [undefined] nor [null], for a [key] that
    the prototype of [v] does not have: the own property, if there is one.
    The methods read the properties [agent], [id], [name], [title], [persona],
    [commands], [dependencies], [role], [style], [core_principles], [data],
    [tasks], [templates], [utils], [userId], [projectId] and [storyFileId],
    which no built-in prototype has; the parser reads properties named by the
    block it parses, and is followed on the blocks whose keys are plain
    ([plain_yaml] below). *)
Definition get_prop (v : JSVal) (key : string) : JSVal :=
  match v with
  | JObj props => obj_get key props
  | _ => JUndefined
  end.

(** [v?.key] *)
Definition get_prop_opt (v : JSVal) (key : string) : JSVal :=
  match v with
  | JUndefined | JNull => JUndefined
  | _ => get_prop v key
  end.

(** [String(v)], as a template literal and [Array.prototype.join] apply it,
    while the clock reads [now].  An object is asked for its [toString]: one
    that has a property of that name which is no method cannot be converted (the
    inherited [valueOf] returns the object itself), which is a [TypeError]; one
    that has none inherits the method that prints "[object Object]".  Inside an
    array [undefined] and [null] print as nothing. *)
Fixpoint to_string (now : Z) (v : JSVal) : Outcome string string :=
  match v with
  | JUndefined => Ok "undefined"%string
  | JNull => Ok "null"%string
  | JBool true => Ok "true"%string
  | JBool false => Ok "false"%string
  | JNum z => Ok (pretty z)
  | JStr s => Ok s
  | JArr items =>
      parts ← (fix elements (l : list JSVal) : Outcome string (list string) :=
                 match l with
                 | [] => Ok []
                 | x :: r =>
                     part ← match x with
                            | JUndefined | JNull => Ok EmptyString
                            | _ => to_string now x
                            end;
                     parts ← elements r;
                     Ok (part :: parts)
                 end) items;
      Ok (join "," parts)
  | JObj props =>
      if has_own "toString" props then Throw "TypeError"%string
      else Ok "[object Object]"%string
  | JMethodObj text => Ok (text now)
  end.

(** What an element of an array contributes to the text of the array. *)
Definition element_text (now : Z) (x : JSVal) : Outcome string string :=
  match x with
  | JUndefined | JNull => Ok EmptyString
  | _ => to_string now x
  end.

(** A value that brings no code: no object with a method, at any depth. *)
Fixpoint is_data (v : JSVal) : bool :=
  match v with
  | JMethodObj _ => false
  | JArr items =>
      (fix all (l : list JSVal) : bool :=
         match l with
         | [] => true
         | x :: r => is_data x && all r
         end) items
  | JObj props =>
      (fix all (l : list (string * JSVal)) : bool :=
         match l with
         | [] => true
         | (_, x) :: r => is_data x && all r
         end) props
  | _ => true
  end.

(** A value whose numbers are safe integers, at any depth. *)
Fixpoint safe_numbers (v : JSVal) : bool :=
  match v with
  | JNum z => Z.abs z <? 2 ^ 53
  | JArr items =>
      (fix all (l : list JSVal) : bool :=
         match l with
         | [] => true
         | x :: r => safe_numbers x && all r
         end) items
  | JObj props =>
      (fix all (l : list (string * JSVal)) : bool :=
         match l with
         | [] => true
         | (_, x) :: r => safe_numbers x && all r
         end) props
  | _ => true
  end.

End JS.
Export JS.

(** ** The story file store

    [StoryFileStore] keeps two maps, from the identifier of a story file to the
    file and to the array of its versions.  The story file object is shared
    with the callers and changed in place by an update; the store below holds
    the current state of that object.  ([StoryFile] is the interface that
    [orchestration-service.ts] exports.) *)

Module Store.

Record StoryFile : Type := mkStoryFile {
  sf_id : string;
  projectId : string;
  filename : string;
  content : string;
  version : Z;
  metadata : gmap string JSVal;
}.

Record StoryFileVersion : Type := mkStoryFileVersion {
  sv_id : string;
  storyFileId : string;
  sv_version : Z;
  sv_content : string;
  sv_metadata : gmap string JSVal;
  createdAt : Z;
  createdBy : string;
  commitMessage : string;
}.

Inductive ChangeType : Type := add | delete | modify.

Record Change : Type := mkChange {
  type : ChangeType;
  lineNumber : nat;
  ch_content : string;
}.

Record StoryFileDiff : Type := mkDiff {
  additions : nat;
  deletions : nat;
  changes : list Change;
}.

(** The two private maps of the class. *)
Record StoryFileStore : Type := mkStore {
  storyFiles : gmap string StoryFile;
  versions : gmap string (list StoryFileVersion);
}.

Definition empty_store : StoryFileStore := mkStore ∅ ∅.

(** The messages of the three [throw new Error(...)] sites. *)
Inductive StoreError : Type :=
| StoryFileNotFound (storyFileId : string)
| VersionNotFound (targetVersion : Z) (storyFileId : string)
| DiffVersionsNotFound.

(** [createVersion]: snapshot the story file and push it on the file's
    version array.  [vid] is the identifier [generateId] draws, [now] the
    clock. *)
Definition createVersion (vid : string) (now : Z) (storyFile : StoryFile)
    (message author : string) (st : StoryFileStore) : StoryFileStore :=
  let v := {| sv_id := vid;
              storyFileId := sf_id storyFile;
              sv_version := version storyFile;
              sv_content := content storyFile;
              sv_metadata := metadata storyFile;
              createdAt := now;
              createdBy := author;
              commitMessage := message |} in
  let vs := default [] (versions st !! sf_id storyFile) in
  mkStore (storyFiles st) (<[sf_id storyFile := vs ++ [v]]> (versions st)).

(** [createStoryFile]; [id] and [vid] are the two identifiers drawn. *)
Definition createStoryFile (id vid : string) (now : Z)
    (project file : string) (initialContent : option string)
    (meta : option (gmap string JSVal)) (author : option string)
    (st : StoryFileStore) : StoryFileStore * StoryFile :=
  let storyFile := {| sf_id := id;
                      projectId := project;
                      filename := file;
                      content := default EmptyString initialContent;
                      version := 1;
                      metadata := default ∅ meta |} in
  let st1 := mkStore (<[id := storyFile]> (storyFiles st)) (versions st) in
  (createVersion vid now storyFile "Initial creation" (default "system"%string author) st1,
   storyFile).

(** [updateStoryFile].  The spread [{...old, ...patch}] is the union in
    which the patch wins. *)
Definition updateStoryFile (vid : string) (now : Z) (storyFileId : string)
    (newContent : string) (message author : option string)
    (patch : option (gmap string JSVal))
    (st : StoryFileStore) : StoryFileStore * Outcome StoreError StoryFile :=
  match storyFiles st !! storyFileId with
  | None => (st, Throw (StoryFileNotFound storyFileId))
  | Some storyFile =>
      if String.eqb (content storyFile) newContent then (st, Ok storyFile)
      else
        let storyFile' := {| sf_id := sf_id storyFile;
                             projectId := projectId storyFile;
                             filename := filename storyFile;
                             content := newContent;
                             version := version storyFile + 1;
                             metadata := default ∅ patch ∪ metadata storyFile |} in
        let st1 := mkStore (<[storyFileId := storyFile']> (storyFiles st)) (versions st) in
        (createVersion vid now storyFile'
           (default "Updated content"%string message)
           (default "system"%string author) st1,
         Ok storyFile')
  end.

Definition getStoryFile (st : StoryFileStore) (storyFileId : string) : option StoryFile :=
  storyFiles st !! storyFileId.

Definition getVersions (st : StoryFileStore) (storyFileId : string) : list StoryFileVersion :=
  default [] (versions st !! storyFileId).

Definition getVersion (st : StoryFileStore) (storyFileId : string) (v : Z)
    : option StoryFileVersion :=
  List.find (fun x => Z.eqb (sv_version x) v) (default [] (versions st !! storyFileId)).

Definition revertToVersion (vid : string) (now : Z) (storyFileId : string)
    (targetVersion : Z) (message author : option string)
    (st : StoryFileStore) : StoryFileStore * Outcome StoreError StoryFile :=
  match getVersion st storyFileId targetVersion with
  | None => (st, Throw (VersionNotFound targetVersion storyFileId))
  | Some targetVersionData =>
      updateStoryFile vid now storyFileId (sv_content targetVersionData)
        (Some (default ("Reverted to version " +:+ pretty targetVersion) message))
        (Some (default "system"%string author))
        (Some {[ "revertedFrom"%string := JNum targetVersion ]})
        st
  end.

Definition deleteStoryFile (storyFileId : string) (st : StoryFileStore)
    : StoryFileStore * bool :=
  match storyFiles st !! storyFileId with
  | Some _ => (mkStore (base.delete storyFileId (storyFiles st))
                       (base.delete storyFileId (versions st)), true)
  | None => (st, false)
  end.

(** [computeSimpleDiff].  [old !! i] is [None] where JavaScript reads
    [undefined] past the end of the array; the loop body is [diff_step], run
    for [i = 0 .. maxLines - 1] on the three accumulators. *)
Definition diff_step (oldLines newLines : list string)
    (acc : list Change * nat * nat) (i : nat) : list Change * nat * nat :=
  let '(chs, adds, dels) := acc in
  match oldLines !! i, newLines !! i with
  | None, Some newLine => (chs ++ [mkChange add (i + 1) newLine], S adds, dels)
  | Some oldLine, None => (chs ++ [mkChange delete (i + 1) oldLine], adds, S dels)
  | Some oldLine, Some newLine =>
      if String.eqb oldLine newLine then acc
      else (chs ++ [mkChange modify (i + 1) newLine], S adds, S dels)
  | None, None => acc
  end.

Definition computeSimpleDiff (oldContent newContent : string) : StoryFileDiff :=
  let oldLines := split newline oldContent in
  let newLines := split newline newContent in
  let maxLines := Nat.max (length oldLines) (length newLines) in
  let '(chs, adds, dels) :=
    fold_left (diff_step oldLines newLines) (seq 0 maxLines) ([], 0%nat, 0%nat) in
  mkDiff adds dels chs.

Definition getDiff (st : StoryFileStore) (storyFileId : string) (fromVersion toVersion : Z)
    : Outcome StoreError StoryFileDiff :=
  match getVersion st storyFileId fromVersion, getVersion st storyFileId toVersion with
  | Some fromVersionData, Some toVersionData =>
      Ok (computeSimpleDiff (sv_content fromVersionData) (sv_content toVersionData))
  | _, _ => Throw DiffVersionsNotFound
  end.

(** The diff as the specification words it: every line index below
    [max(lenOld, lenNew)] is classified on its own, by which sides have a line
    there; the changes are the classified indices in order, an addition is
    counted for every line only the new side has and for every differing pair, a
    deletion for every line only the old side has and for every differing
    pair. *)
Definition line_change (oldLines newLines : list string) (i : nat) : option Change :=
  match oldLines !! i, newLines !! i with
  | None, Some newLine => Some (mkChange add (i + 1) newLine)
  | Some oldLine, None => Some (mkChange delete (i + 1) oldLine)
  | Some oldLine, Some newLine =>
      if decide (oldLine = newLine) then None else Some (mkChange modify (i + 1) newLine)
  | None, None => None
  end.

Definition counts_as_addition (c : Change) : bool :=
  match type c with add | modify => true | delete => false end.

Definition counts_as_deletion (c : Change) : bool :=
  match type c with delete | modify => true | add => false end.

Definition positional_diff (oldLines newLines : list string) : StoryFileDiff :=
  let chs := omap (line_change oldLines newLines)
                  (seq 0 (Nat.max (length oldLines) (length newLines))) in
  mkDiff (length (List.filter counts_as_addition chs))
         (length (List.filter counts_as_deletion chs))
         chs.

(** *** Histories of calls

    A store is only ever reached from the empty one by calls of its public
    mutating methods; a call records the arguments together with what the
    method drew from [generateId] and the clock. *)
Inductive Call : Type :=
| CreateStoryFile (id vid : string) (now : Z) (project file : string)
    (initialContent : option string) (meta : option (gmap string JSVal))
    (author : option string)
| UpdateStoryFile (vid : string) (now : Z) (storyFileId newContent : string)
    (message author : option string) (patch : option (gmap string JSVal))
| RevertToVersion (vid : string) (now : Z) (storyFileId : string) (targetVersion : Z)
    (message author : option string)
| DeleteStoryFile (storyFileId : string).

Definition exec (c : Call) (st : StoryFileStore) : StoryFileStore :=
  match c with
  | CreateStoryFile id vid now p f ic m a => fst (createStoryFile id vid now p f ic m a st)
  | UpdateStoryFile vid now sid nc msg a m => fst (updateStoryFile vid now sid nc msg a m st)
  | RevertToVersion vid now sid tv msg a => fst (revertToVersion vid now sid tv msg a st)
  | DeleteStoryFile sid => fst (deleteStoryFile sid st)
  end.

Definition run_from (st : StoryFileStore) (cs : list Call) : StoryFileStore :=
  fold_left (fun s c => exec c s) cs st.

Definition run (cs : list Call) : StoryFileStore := run_from empty_store cs.

(** [generateId] is taken to draw identifiers that are not in use: every
    [createStoryFile] of the history gets an identifier no live story file has. *)
Fixpoint fresh_ids (st : StoryFileStore) (cs : list Call) : Prop :=
  match cs with
  | [] => True
  | c :: cs' =>
      match c with
      | CreateStoryFile id _ _ _ _ _ _ _ => storyFiles st !! id = None
      | _ => True
      end /\ fresh_ids (exec c st) cs'
  end.

(** The story file whose content a call changes, if any: an update with a
    content other than the current one, or a revert to a version whose content
    is not the current one. *)
Definition changed_by (c : Call) (st : StoryFileStore) : option string :=
  match c with
  | UpdateStoryFile _ _ sid nc _ _ _ =>
      match storyFiles st !! sid with
      | Some sf => if String.eqb (content sf) nc then None else Some sid
      | None => None
      end
  | RevertToVersion _ _ sid tv _ _ =>
      match getVersion st sid tv, storyFiles st !! sid with
      | Some v, Some sf => if String.eqb (content sf) (sv_content v) then None else Some sid
      | _, _ => None
      end
  | _ => None
  end.

(** The number [N] of content-changing updates a story file has received
    since it was created, read off the history: creation starts the count at
    zero, every call that changes the file's content adds one. *)
Definition next_count (sid : string) (c : Call) (st : StoryFileStore) (n : nat) : nat :=
  match c with
  | CreateStoryFile id _ _ _ _ _ _ _ => if String.eqb id sid then 0%nat else n
  | _ => if decide (changed_by c st = Some sid) then S n else n
  end.

Fixpoint changing_updates (sid : string) (st : StoryFileStore) (cs : list Call) (n : nat) : nat :=
  match cs with
  | [] => n
  | c :: cs' => changing_updates sid (exec c st) cs' (next_count sid c st n)
  end.

(** Whether a story file is live at the end of a history: created, and not
    deleted since. *)
Fixpoint live (sid : string) (cs : list Call) (b : bool) : bool :=
  match cs with
  | [] => b
  | CreateStoryFile id _ _ _ _ _ _ _ :: cs' => live sid cs' (if String.eqb id sid then true else b)
  | DeleteStoryFile id :: cs' => live sid cs' (if String.eqb id sid then false else b)
  | _ :: cs' => live sid cs' b
  end.

(** No two neighbours of a list are equal. *)
Fixpoint no_repeat (l : list string) : Prop :=
  match l with
  | x :: (y :: _) as r => x <> y /\ no_repeat r
  | _ => True
  end.

(** The representation invariant of the store, per identifier. *)
Definition consistent_at (st : StoryFileStore) (sid : string) : Prop :=
  match storyFiles st !! sid, versions st !! sid with
  | Some sf, Some vs =>
      sf_id sf = sid /\
      version sf = Z.of_nat (length vs) /\
      sv_version <$> vs = Z.of_nat <$> seq 1 (length vs) /\
      last (sv_content <$> vs) = Some (content sf) /\
      no_repeat (sv_content <$> vs)
  | None, None => True
  | _, _ => False
  end.

Definition consistent (st : StoryFileStore) : Prop := forall sid, consistent_at st sid.

(** *** A worked history

    The example of the specification: a story file created with two lines,
    then updated to three. *)
Definition two_lines : string := "line1" +:+ String newline "line2".
Definition three_lines : string := two_lines +:+ String newline "line3".

Definition example_calls : list Call :=
  [ CreateStoryFile "doc-1" "ver-1" 1000 "demo-project" "demo-story.md"
      (Some two_lines) None None;
    UpdateStoryFile "ver-2" 2000 "doc-1" three_lines None None None ].

End Store.

(** ** The provider gateway *)

Module Provider.

Inductive CostPriority : Type := fast | balanced | quality.

(** [LLMOptions], with the [preferredProvider] the gateway adds to it. *)
Record LLMOptions : Type := mkOptions {
  maxTokens : option float;
  temperature : option float;
  model : option string;
  costPriority : option CostPriority;
  preferredProvider : option string;
}.

Definition no_options : LLMOptions := mkOptions None None None None None.

Record LLMResponse : Type := mkResponse {
  text : string;
  tokensUsed : float;
  cost : float;
  meta_model : string;
  meta_provider : string;
  meta_latency : float;
}.

(** What a backend answers: the text and the token count of [usage] (for
    Anthropic the sum of its two counts). *)
Record ApiResponse : Type := mkApiResponse {
  api_text : string;
  api_tokens : float;
}.

(** A provider.  [generateText] is what one call of the provider's method
    does for a prompt and options: it returns a response or throws an error,
    given as its message. *)
Record LLMProvider : Type := mkProvider {
  name : string;
  generateText : string -> LLMOptions -> Outcome string LLMResponse;
  estimateTokens : string -> Z;
}.

(** [Math.ceil(text.length / 4)] *)
Definition roughTokens (t : string) : Z := (Z.of_nat (String.length t) + 3) / 4.

(** The shape the three provider classes share: pick the model, call the
    backend, time the call ([latency] is the clock difference), price it.  The
    backend calls of the sources are placeholders that throw, so nothing after
    the call is ever observed. *)
Definition provider_generateText (providerName : string)
    (mapCostPriorityToModel : CostPriority -> string)
    (call : string -> string -> Outcome string ApiResponse)
    (calculateCost : string -> float) (latency : float)
    (prompt : string) (options : LLMOptions) : Outcome string LLMResponse :=
  let model := mapCostPriorityToModel (default balanced (costPriority options)) in
  match call prompt model with
  | Throw e => Throw e
  | Ok response =>
      Ok {| text := api_text response;
            tokensUsed := api_tokens response;
            cost := calculateCost model;
            meta_model := model;
            meta_provider := providerName;
            meta_latency := latency |}
  end.

Definition OpenAIProvider : LLMProvider :=
  {| name := "OpenAI";
     generateText :=
       provider_generateText "OpenAI"
         (fun p => match p with quality => "gpt-4" | _ => "gpt-3.5-turbo" end)
         (fun _ _ => Throw "OpenAI API call not implemented")
         (fun _ => 0x1.47ae147ae147bp-7%float) 0%float;
     estimateTokens := roughTokens |}.

Definition AnthropicProvider : LLMProvider :=
  {| name := "Anthropic";
     generateText :=
       provider_generateText "Anthropic"
         (fun p => match p with
                   | fast => "claude-3-haiku-20240307"
                   | quality => "claude-3-opus-20240229"
                   | balanced => "claude-3-sonnet-20240229"
                   end)
         (fun _ _ => Throw "Anthropic API call not implemented")
         (fun _ => 0x1.47ae147ae147bp-6%float) 0%float;
     estimateTokens := roughTokens |}.

Definition GeminiProvider : LLMProvider :=
  {| name := "Gemini";
     generateText :=
       provider_generateText "Gemini"
         (fun p => match p with quality => "gemini-pro-vision" | _ => "gemini-pro" end)
         (fun _ _ => Throw "Gemini API call not implemented")
         (fun _ => 0x1.0624dd2f1a9fcp-10%float) 0%float;
     estimateTokens := roughTokens |}.

Record LLMProviderManager : Type := mkManager {
  providers : gmap string LLMProvider;
  fallbackOrder : list string;
}.

Definition defaultFallbackOrder : list string := ["Gemini"; "OpenAI"; "Anthropic"]%string.

(** A manager over a given registry; the fallback order is the field
    initialiser of the class. *)
Definition manager_with (ps : gmap string LLMProvider) : LLMProviderManager :=
  mkManager ps defaultFallbackOrder.

(** The constructor. *)
Definition new_LLMProviderManager : LLMProviderManager :=
  manager_with (<["Anthropic"%string := AnthropicProvider]>
                  (<["OpenAI"%string := OpenAIProvider]>
                     (<["Gemini"%string := GeminiProvider]> ∅))).

(** The only error [generateText] of the manager throws itself. *)
Inductive GatewayError : Type := AllProvidersFailed.

(** What the manager does that can be observed from outside: it calls a
    provider, and it warns on the console about a provider's failure. *)
Inductive Event : Type :=
| Called (providerName : string)
| Warned (providerName : string) (error : string).

(** [options.preferredProvider ? [preferred, ...rest] : fallbackOrder]; the
    empty name is falsy. *)
Definition providersToTry (mgr : LLMProviderManager) (options : LLMOptions) : list string :=
  match preferredProvider options with
  | Some p =>
      if String.eqb p "" then fallbackOrder mgr
      else p :: List.filter (fun q => negb (String.eqb q p)) (fallbackOrder mgr)
  | None => fallbackOrder mgr
  end.

(** The [for] loop over the names. *)
Fixpoint tryProviders (mgr : LLMProviderManager) (prompt : string) (options : LLMOptions)
    (names : list string) : list Event * Outcome GatewayError LLMResponse :=
  match names with
  | [] => ([], Throw AllProvidersFailed)
  | providerName :: rest =>
      match providers mgr !! providerName with
      | None => tryProviders mgr prompt options rest
      | Some provider =>
          match generateText provider prompt options with
          | Ok response => ([Called providerName], Ok response)
          | Throw error =>
              let '(events, result) := tryProviders mgr prompt options rest in
              (Called providerName :: Warned providerName error :: events, result)
          end
      end
  end.

Definition manager_generateText (mgr : LLMProviderManager) (prompt : string)
    (options : LLMOptions) : list Event * Outcome GatewayError LLMResponse :=
  tryProviders mgr prompt options (providersToTry mgr options).

Definition manager_estimateTokens (mgr : LLMProviderManager) (t : string)
    (providerName : option string) : Z :=
  match providers mgr !! default "OpenAI"%string providerName with
  | Some provider => estimateTokens provider t
  | None => roughTokens t
  end.

(** The names of the providers that were called, in order. *)
Definition called (events : list Event) : list string :=
  omap (fun e => match e with Called n => Some n | Warned _ _ => None end) events.

Definition warnings (events : list Event) : list string :=
  omap (fun e => match e with Warned n _ => Some n | Called _ => None end) events.

Definition registered (mgr : LLMProviderManager) (providerName : string) : bool :=
  match providers mgr !! providerName with Some _ => true | None => false end.

(** The attempt list as the specification words it: the preferred provider
    first when one is given (a non-empty name) and registered, then the other
    registered providers in fallback order. *)
Definition attempt_list (mgr : LLMProviderManager) (options : LLMOptions) : list string :=
  let others (p : string) :=
    List.filter (fun q => negb (String.eqb q p) && registered mgr q) (fallbackOrder mgr) in
  match preferredProvider options with
  | Some p =>
      if String.eqb p "" then List.filter (registered mgr) (fallbackOrder mgr)
      else if registered mgr p then p :: others p
      else others p
  | None => List.filter (registered mgr) (fallbackOrder mgr)
  end.

(** A provider of the registry fails, or succeeds, on the call at hand. *)
Definition fails (mgr : LLMProviderManager) (prompt : string) (options : LLMOptions)
    (providerName : string) : Prop :=
  exists provider error,
    providers mgr !! providerName = Some provider /\
    generateText provider prompt options = Throw error.

Definition succeeds (mgr : LLMProviderManager) (prompt : string) (options : LLMOptions)
    (providerName : string) (response : LLMResponse) : Prop :=
  exists provider,
    providers mgr !! providerName = Some provider /\
    generateText provider prompt options = Ok response.

(** Test doubles: a provider that always fails and one that always answers. *)
Definition failing_provider (n : string) : LLMProvider :=
  mkProvider n (fun _ _ => Throw "unavailable") roughTokens.

Definition canned_response (n : string) : LLMResponse :=
  mkResponse "Once upon a time" 4%float 0%float "fake-model" n 1%float.

Definition answering_provider (n : string) : LLMProvider :=
  mkProvider n (fun _ _ => Ok (canned_response n)) roughTokens.

Definition fake_registry : gmap string LLMProvider :=
  <["OpenAI"%string := answering_provider "OpenAI"]>
    (<["Gemini"%string := failing_provider "Gemini"]>
       (<["Anthropic"%string := failing_provider "Anthropic"]> ∅)).

End Provider.

(** ** Sessions

    The [AgentSession] interface of [orchestration-service.ts], which the usage
    monitor imports. *)

Module Session.

Record LLMMetadata : Type := mkLLMMetadata {
  provider : string;
  model : string;
  tokensUsed : float;
  cost : float;
  latency : float;
}.

Record AgentSession : Type := mkAgentSession {
  id : string;
  agentId : string;
  userId : string;
  projectId : string;
  storyFileId : string;
  inputs : list (string * JSVal);
  outputs : list (string * JSVal);
  llmMetadata : LLMMetadata;
  createdAt : Z;
  updatedAt : Z;
}.

End Session.

(** ** The usage monitor *)

Module Monitor.
Import Session.

Record ResponseTime : Type := mkResponseTime {
  average : float;
  p95 : float;
  p99 : float;
}.

Record UsageMetrics : Type := mkUsageMetrics {
  totalUsers : nat;
  activeUsers : nat;
  totalTokensUsed : float;
  totalCost : float;
  averageSessionLength : float;
  popularAgents : list (string * nat);
  errorRate : float;
  responseTime : ResponseTime;
}.

(** The mutable fields of the class; the three service references the
    constructor stores are read by none of the methods below. *)
Record UsageMonitor : Type := mkUsageMonitor {
  sessionMetrics : list AgentSession;
  errorCount : nat;
  totalRequests : nat;
}.

Definition new_UsageMonitor : UsageMonitor := mkUsageMonitor [] 0 0.

(** [a.slice(-k)] for a positive [k]: the last [k] elements, all of them
    when there are fewer. *)
Definition slice_last {A : Type} (k : nat) (l : list A) : list A :=
  drop (length l - k) l.

Definition recordSession (session : AgentSession) (m : UsageMonitor) : UsageMonitor :=
  let pushed := sessionMetrics m ++ [session] in
  {| sessionMetrics := if (1000 <? length pushed)%nat then slice_last 1000 pushed else pushed;
     errorCount := errorCount m;
     totalRequests := S (totalRequests m) |}.

Definition recordError (m : UsageMonitor) : UsageMonitor :=
  {| sessionMetrics := sessionMetrics m;
     errorCount := S (errorCount m);
     totalRequests := totalRequests m |}.

Definition recordAll (sessions : list AgentSession) : UsageMonitor :=
  fold_left (fun m s => recordSession s m) sessions new_UsageMonitor.

(** A counter as a JavaScript number. *)
Definition number_of_nat (n : nat) : float := PrimFloat.of_uint63 (Uint63.of_Z (Z.of_nat n)).

(** [Math.floor] of a finite non-negative number, as an array index. *)
Definition floor_index (f : float) : nat :=
  match Prim2SF f with
  | S754_finite false m e =>
      Z.to_nat (if (0 <=? e)%Z then Z.pos m * 2 ^ e else Z.pos m / 2 ^ (- e))
  | _ => 0%nat
  end.

(** [x || 0] on a number or [undefined]. *)
Definition or_zero (x : option float) : float :=
  match x with
  | Some v => if PrimFloat.is_nan v || PrimFloat.eqb v 0 then 0%float else v
  | None => 0%float
  end.

(** [Array.prototype.sort] with a comparator is stable; [before x y] says
    that the comparator is negative on [(x, y)].  Insertion from the left keeps
    equal elements in their order. *)
Fixpoint insert_by {A : Type} (before : A -> A -> bool) (x : A) (l : list A) : list A :=
  match l with
  | [] => [x]
  | y :: r => if before x y then x :: y :: r else y :: insert_by before x r
  end.

Definition sort_by {A : Type} (before : A -> A -> bool) (l : list A) : list A :=
  fold_left (fun acc x => insert_by before x acc) l [].

(** [agentUsage.set(id, (agentUsage.get(id) || 0) + 1)] on a [Map], which
    keeps the keys in insertion order. *)
Fixpoint bump (agent : string) (usage : list (string * nat)) : list (string * nat) :=
  match usage with
  | [] => [(agent, 1%nat)]
  | (a, n) :: r => if String.eqb a agent then (a, S n) :: r else (a, n) :: bump agent r
  end.

Definition day_ms : Z := 24 * 60 * 60 * 1000.

Definition is_recent (now : Z) (s : AgentSession) : bool :=
  (now - day_ms <=? createdAt s)%Z.

Definition sum_floats (l : list float) : float :=
  fold_left (fun sum x => (sum + x)%float) l 0%float.

(** The three latency figures, from the latencies of the sessions at hand. *)
Definition latency_figures (latencies : list float) : ResponseTime :=
  let responseTimes := sort_by (fun a b => (a - b <? 0)%float) latencies in
  let averageResponseTime :=
    if (0 <? length responseTimes)%nat
    then (sum_floats responseTimes / number_of_nat (length responseTimes))%float
    else 0%float in
  let p95Index := floor_index (number_of_nat (length responseTimes) * 0x1.e666666666666p-1)%float in
  let p99Index := floor_index (number_of_nat (length responseTimes) * 0x1.fae147ae147aep-1)%float in
  {| average := averageResponseTime;
     p95 := or_zero (responseTimes !! p95Index);
     p99 := or_zero (responseTimes !! p99Index) |}.

Definition getGlobalMetrics (m : UsageMonitor) (now : Z) : UsageMetrics :=
  let recentSessions := List.filter (is_recent now) (sessionMetrics m) in
  let totalTokensUsed := sum_floats (map (fun s => tokensUsed (llmMetadata s)) recentSessions) in
  let totalCost := sum_floats (map (fun s => cost (llmMetadata s)) recentSessions) in
  let activeUsers := length (remove_dups (map userId recentSessions)) in
  let agentUsage := fold_left (fun usage s => bump (agentId s) usage) recentSessions [] in
  let popularAgents :=
    take 5 (sort_by (fun a b => (snd b <? snd a)%nat) agentUsage) in
  let figures := latency_figures (map (fun s => latency (llmMetadata s)) recentSessions) in
  {| totalUsers := 150;
     activeUsers := activeUsers;
     totalTokensUsed := totalTokensUsed;
     totalCost := totalCost;
     averageSessionLength := average figures;
     popularAgents := popularAgents;
     errorRate :=
       if (0 <? totalRequests m)%nat
       then (number_of_nat (errorCount m) / number_of_nat (totalRequests m) * 100)%float
       else 0%float;
     responseTime := figures |}.

(** The fields the specification calls the token, cost and latency
    aggregates. *)
Definition aggregates (u : UsageMetrics) : float * float * float * ResponseTime :=
  (totalTokensUsed u, totalCost u, averageSessionLength u, responseTime u).

(** A monitor with another session history and the same counters. *)
Definition with_sessions (m : UsageMonitor) (sessions : list AgentSession) : UsageMonitor :=
  {| sessionMetrics := sessions;
     errorCount := errorCount m;
     totalRequests := totalRequests m |}.

(** Sample sessions: number [i] was created at time [i] and used [i] tokens. *)
Definition sample_session (i : nat) : AgentSession :=
  {| id := "s" +:+ pretty i;
     agentId := "editor";
     userId := "u1";
     projectId := "default";
     storyFileId := "default";
     inputs := [];
     outputs := [];
     llmMetadata := mkLLMMetadata "Gemini" "gemini-pro" (number_of_nat i) 0x1p-10%float 250%float;
     createdAt := Z.of_nat i;
     updatedAt := Z.of_nat i |}.

Definition sample_sessions (n : nat) : list AgentSession := map sample_session (seq 0 n).

(** A monitor that saw a session at time 5 and one at time 20, and one
    error; read at time [day_ms + 10] the first session is older than 24 hours. *)
Definition sample_monitor : UsageMonitor :=
  recordError (recordAll [sample_session 5; sample_session 20]).

(** *** The other methods of the monitor *)

(** [new Date(t)] for an integer [t]: a time value further than
    8.64e15 milliseconds from the epoch is out of the range of [Date] and
    gives an invalid date. *)
Definition new_Date (t : Z) : option Z :=
  if Z.abs t <=? 8640000000000000 then Some t else None.

(** [a >= b] for a date [a] and a date [b] that may be invalid: a
    comparison with an invalid date is false. *)
Definition at_or_after (a : Z) (b : option Z) : bool :=
  match b with
  | Some t => t <=? a
  | None => false
  end.

(** [cleanupOldMetrics]: keep the sessions created at or after the cutoff;
    with a cutoff out of the range of [Date] none is.  The number of days is
    integer-valued (30 when none is given) and [now] is a reading of the clock,
    itself in the range of [Date]: the binary64 arithmetic of the source then
    gives the exact cutoff whenever that is in the range, and a number out of
    the range otherwise. *)
Definition cleanupOldMetrics (olderThanDays : option Z) (now : Z) (m : UsageMonitor)
    : UsageMonitor :=
  let cutoffDate := new_Date (now - default 30 olderThanDays * 24 * 60 * 60 * 1000) in
  {| sessionMetrics :=
       List.filter (fun s => at_or_after (createdAt s) cutoffDate) (sessionMetrics m);
     errorCount := errorCount m;
     totalRequests := totalRequests m |}.

Record AgentPerformance : Type := mkAgentPerformance {
  totalSessions : nat;
  averageTokens : float;
  averageCost : float;
  averageLatency : float;
  successRate : float;
}.

Definition getAgentPerformance (m : UsageMonitor) (agent : string) : option AgentPerformance :=
  let agentSessions := List.filter (fun s => String.eqb (agentId s) agent) (sessionMetrics m) in
  if (length agentSessions =? 0)%nat then None
  else
    let totalSessions := length agentSessions in
    Some {| totalSessions := totalSessions;
            averageTokens :=
              (sum_floats (map (fun s => tokensUsed (llmMetadata s)) agentSessions)
               / number_of_nat totalSessions)%float;
            averageCost :=
              (sum_floats (map (fun s => cost (llmMetadata s)) agentSessions)
               / number_of_nat totalSessions)%float;
            averageLatency :=
              (sum_floats (map (fun s => latency (llmMetadata s)) agentSessions)
               / number_of_nat totalSessions)%float;
            successRate := 100%float |}.

Inductive HealthStatus : Type := healthy | warning | critical.

(** An alert of [getSystemHealth].  The source pushes a text; the text is a
    rendering of the figure the alert is about, which is what is kept here. *)
Inductive Alert : Type :=
| HighErrorRate (rate : float)
| SlowResponseTime (averageLatency : float).

Record SystemHealth : Type := mkSystemHealth {
  status : HealthStatus;
  uptime : Z;
  memoryUsage : Z;
  health_errorRate : float;
  alerts : list Alert;
}.

Definition getSystemHealth (m : UsageMonitor) (now : Z) : SystemHealth :=
  let metrics := getGlobalMetrics m now in
  let alerts1 :=
    if (5 <? errorRate metrics)%float then [HighErrorRate (errorRate metrics)] else [] in
  let alerts2 :=
    if (5000 <? average (responseTime metrics))%float
    then alerts1 ++ [SlowResponseTime (average (responseTime metrics))] else alerts1 in
  let status1 := if (0 <? length alerts2)%nat then warning else healthy in
  let status2 :=
    if (10 <? errorRate metrics)%float || (10000 <? average (responseTime metrics))%float
    then critical else status1 in
  {| status := status2;
     uptime := 86400;
     memoryUsage := 0;
     health_errorRate := errorRate metrics;
     alerts := alerts2 |}.

(** *** Histories of calls on a monitor *)

Inductive MonitorCall : Type :=
| RecordSession (session : AgentSession)
| RecordError
| CleanupOldMetrics (olderThanDays : option Z) (now : Z).

Definition apply_call (c : MonitorCall) (m : UsageMonitor) : UsageMonitor :=
  match c with
  | RecordSession s => recordSession s m
  | RecordError => recordError m
  | CleanupOldMetrics d now => cleanupOldMetrics d now m
  end.

Definition run_calls (cs : list MonitorCall) : UsageMonitor :=
  fold_left (fun m c => apply_call c m) cs new_UsageMonitor.

(** The sessions a history recorded, and how many errors it reported. *)
Definition recorded (cs : list MonitorCall) : list AgentSession :=
  omap (fun c => match c with RecordSession s => Some s | _ => None end) cs.

Definition reported_errors (cs : list MonitorCall) : nat :=
  length (List.filter (fun c => match c with RecordError => true | _ => false end) cs).

(** How many of some sessions an agent ran. *)
Definition sessions_of (agent : string) (sessions : list AgentSession) : nat :=
  length (List.filter (fun s => String.eqb (agentId s) agent) sessions).

(** [agentUsage.get(agent) || 0] *)
Fixpoint usage_of (agent : string) (usage : list (string * nat)) : nat :=
  match usage with
  | [] => 0%nat
  | (a, n) :: r => if String.eqb a agent then n else usage_of agent r
  end.

End Monitor.

(** ** The orchestration service

    Agent loading ([loadAgents], [parseAgentFile], [parseSimpleYAML]), the
    registry reads and [buildAgentPrompt]. *)

Module Orchestration.
Import Provider.

(** *** The ambient world *)

(** The file system calls the service makes.  [readdirSync] and
    [readFileSync] may throw; an error is given as its message. *)
Record FileSystem : Type := mkFileSystem {
  readdirSync : string -> Outcome string (list string);
  readFileSync : string -> Outcome string string;
  existsSync : string -> bool;
}.

(** The clock and the random source [generateId] reads: [Date.now()] and
    the digits [Math.random().toString(36).substr(2)]. *)
Record World : Type := mkWorld {
  fs : FileSystem;
  clock : Z;
  random_digits : string;
}.

(** [path.join] of two components and [path.basename(p, ext)]; the
    normalisation [path.join] applies to dots and repeated separators is not
    modelled. *)
Definition path_join (a b : string) : string := a +:+ "/" +:+ b.

Definition last_component (p : string) : string :=
  List.last (split "/"%char p) EmptyString.

Definition path_basename (p ext : string) : string :=
  let base := last_component p in
  if endsWith ext base && negb (String.eqb ext base)
  then String.substring 0 (String.length base - String.length ext) base
  else base.

(** *** Agents *)

(** [BMADAgent] as the loader fills it: the parsed data is of type [any],
    so a field holds whatever the parser produced. *)
Record BMADAgent : Type := mkAgent {
  id : JSVal;
  name : JSVal;
  title : JSVal;
  persona : JSVal;
  commands : JSVal;
  dependencies : JSVal;
}.

(** The [Map] from agent id to agent, in insertion order.  Keys are
    compared as [Map] does: strings by their text, objects by identity; the
    objects the parser creates are new ones, so an object key equals no key
    already in the map. *)
Definition same_key (a b : JSVal) : bool :=
  match a, b with
  | JStr x, JStr y => String.eqb x y
  | _, _ => false
  end.

Fixpoint map_set (key : JSVal) (agent : BMADAgent) (m : list (JSVal * BMADAgent))
    : list (JSVal * BMADAgent) :=
  match m with
  | [] => [(key, agent)]
  | (k, a) :: r => if same_key k key then (k, agent) :: r else (k, a) :: map_set key agent r
  end.

Fixpoint map_get (key : JSVal) (m : list (JSVal * BMADAgent)) : option BMADAgent :=
  match m with
  | [] => None
  | (k, a) :: r => if same_key k key then Some a else map_get key r
  end.

Record BMADOrchestrationService : Type := mkService {
  llmManager : LLMProviderManager;
  agents : list (JSVal * BMADAgent);
  bmadPath : string;
}.

(** *** The structured block *)

(** The regular expression that extracts the block: the text between the
    first "```yaml" and the first "```" after it, without the white space
    around it.  [fence_closes r] says that [r] is white space followed by the
    closing fence; the lazy group stops at the first such place. *)
Definition fence : string := "```".
Definition yaml_fence : string := "```yaml".

Definition fence_closes (r : string) : bool := String.prefix fence (trimStart r).

Fixpoint lazy_group (r : string) : option string :=
  if fence_closes r then Some EmptyString
  else match r with
       | String c r' => String c <$> lazy_group r'
       | EmptyString => None
       end.

Definition match_yaml_block (content : string) : option string :=
  match after_first yaml_fence content with
  | Some rest => lazy_group (trimStart rest)
  | None => None
  end.

(** What [currentObject] refers to: an object inside [result], named by
    the path of keys that leads to it (the empty path is [result] itself), or
    a value that is not an object ([undefined], or a string). *)
Inductive Ref : Type :=
| RPath (path : list string)
| RNotAnObject.

Fixpoint get_path (v : JSVal) (path : list string) : JSVal :=
  match path with
  | [] => v
  | k :: r => get_path (get_prop v k) r
  end.

(** [target[key] = val] for the object at [path] below the object with
    properties [props]; [None] when there is no object there. *)
Fixpoint set_path (props : list (string * JSVal)) (path : list string)
    (key : string) (val : JSVal) : option (list (string * JSVal)) :=
  match path with
  | [] => Some (obj_set key val props)
  | k :: r =>
      match obj_get k props with
      | JObj child =>
          match set_path child r key val with
          | Some child' => Some (obj_set k (JObj child') props)
          | None => None
          end
      | _ => None
      end
  end.

(** The three variables of [parseSimpleYAML]; [result] is given by its
    properties. *)
Record YamlState : Type := mkYamlState {
  result : list (string * JSVal);
  currentSection : string;
  currentObject : Ref;
}.

(** An assignment [currentObject[key] = val] for a [plain_key].  It
    throws a [TypeError] when [currentObject] is [undefined], and, the class
    body being strict code, when it is a string. *)
Definition assign (st : YamlState) (key : string) (val : JSVal)
    : Outcome string (list (string * JSVal)) :=
  match currentObject st with
  | RPath path =>
      match set_path (result st) path key val with
      | Some r => Ok r
      | None => Throw "TypeError"%string
      end
  | RNotAnObject => Throw "TypeError"%string
  end.

(** [currentObject = result[currentSection][key]] for plain keys: what is
    read is an own property, or [undefined]. *)
Definition refer (r : list (string * JSVal)) (path : list string) : Ref :=
  match get_path (JObj r) path with
  | JObj _ => RPath path
  | _ => RNotAnObject
  end.

Definition colon : ascii := ":"%char.
Definition double_quote : string := String (Ascii.ascii_of_nat 34) EmptyString.

(** The body of the loop over the lines. *)
Definition parse_line (st : YamlState) (line : string) : Outcome string YamlState :=
  let trimmed := trim line in
  if String.eqb trimmed "" || startsWith "#" trimmed then Ok st
  else if endsWith ":" trimmed then
    let key := dropLast trimmed in
    if negb (String.eqb (currentSection st) "") then
      match assign st key (JObj []) with
      | Throw e => Throw e
      | Ok r => Ok (mkYamlState r (currentSection st) (refer r [currentSection st; key]))
      end
    else Ok (mkYamlState (obj_set key (JObj []) (result st)) key (RPath [key]))
  else if includes colon trimmed then
    match split colon trimmed with
    | key :: valueParts =>
        let value := trim (join ":" valueParts) in
        let unquoted :=
          if startsWith double_quote value && endsWith double_quote value
          then dropFirstAndLast value else value in
        match assign st (trim key) (JStr unquoted) with
        | Throw e => Throw e
        | Ok r => Ok (mkYamlState r (currentSection st) (currentObject st))
        end
    | [] => Ok st
    end
  else Ok st.

Fixpoint parse_lines (st : YamlState) (lines : list string) : Outcome string YamlState :=
  match lines with
  | [] => Ok st
  | line :: rest =>
      match parse_line st line with
      | Ok st' => parse_lines st' rest
      | Throw e => Throw e
      end
  end.

Definition parseSimpleYAML (yaml : string) : Outcome string JSVal :=
  match parse_lines (mkYamlState [] "" (RPath [])) (split newline yaml) with
  | Ok st => Ok (JObj (result st))
  | Throw e => Throw e
  end.

(** The key the loop uses on a line, if it uses one: the section header
    without its colon, or what stands before the first colon. *)
Definition line_key (line : string) : option string :=
  let trimmed := trim line in
  if String.eqb trimmed "" || startsWith "#" trimmed then None
  else if endsWith ":" trimmed then Some (dropLast trimmed)
  else if includes colon trimmed then
    match split colon trimmed with
    | key :: _ => Some (trim key)
    | [] => None
    end
  else None.

(** The blocks the parser is followed on: those none of whose keys is the
    name of a property of [Object.prototype].  On a key such as [constructor]
    or [__proto__] the source reads an inherited property or changes a
    prototype, and what it goes on to do is not what [parse_line] says. *)
Definition plain_yaml (yaml : string) : bool :=
  forallb (fun line => match line_key line with
                       | Some key => plain_key key
                       | None => true
                       end) (split newline yaml).

(** *** Loading *)

(** The two [console.warn] sites of the loader. *)
Inductive Warning : Type :=
| FailedToLoadAgent (file : string) (error : string)
| FailedToParseAgentYAML (filePath : string) (error : string).

Definition default_persona : JSVal :=
  JObj [("role"%string, JStr ""); ("style"%string, JStr ""); ("core_principles"%string, JArr [])].

(** [parseAgentFile]: the warnings it logs, and the agent or [null] it
    returns, unless reading the file throws. *)
Definition parseAgentFile (files : FileSystem) (filePath : string)
    : list Warning * Outcome string (option BMADAgent) :=
  match readFileSync files filePath with
  | Throw e => ([], Throw e)
  | Ok content =>
      match match_yaml_block content with
      | None => ([], Ok None)
      | Some yamlContent =>
          match parseSimpleYAML yamlContent with
          | Ok agentData =>
              let agent := get_prop agentData "agent" in
              ([], Ok (Some
                 {| id := or_else (get_prop_opt agent "id") (JStr (path_basename filePath ".md"));
                    name := or_else (get_prop_opt agent "name") (JStr "");
                    title := or_else (get_prop_opt agent "title") (JStr "");
                    persona := or_else (get_prop agentData "persona") default_persona;
                    commands := or_else (get_prop agentData "commands") (JObj []);
                    dependencies := or_else (get_prop agentData "dependencies") (JObj []) |}))
          | Throw error => ([FailedToParseAgentYAML filePath error], Ok None)
          end
      end
  end.

(** A file whose block, if it can be read and has one, is a [plain_yaml]. *)
Definition plain_file (files : FileSystem) (filePath : string) : bool :=
  match readFileSync files filePath with
  | Ok content =>
      match match_yaml_block content with
      | Some yamlContent => plain_yaml yamlContent
      | None => true
      end
  | Throw _ => true
  end.

(** The loop of [loadAgents] over the files of the directory. *)
Fixpoint loadAgentFiles (files : FileSystem) (agentsPath : string) (agentFiles : list string)
    (acc : list Warning * list (JSVal * BMADAgent)) : list Warning * list (JSVal * BMADAgent) :=
  match agentFiles with
  | [] => acc
  | file :: rest =>
      let '(logged, registry) := acc in
      let acc' :=
        match parseAgentFile files (path_join agentsPath file) with
        | (ws, Ok (Some agent)) => (logged ++ ws, map_set (id agent) agent registry)
        | (ws, Ok None) => (logged ++ ws, registry)
        | (ws, Throw error) => (logged ++ ws ++ [FailedToLoadAgent file error], registry)
        end in
      loadAgentFiles files agentsPath rest acc'
  end.

Definition loadAgents (files : FileSystem) (path : string)
    : Outcome string (list Warning * list (JSVal * BMADAgent)) :=
  let agentsPath := path_join path "agents" in
  match readdirSync files agentsPath with
  | Throw e => Throw e
  | Ok entries =>
      Ok (loadAgentFiles files agentsPath (List.filter (endsWith ".md") entries) ([], []))
  end.

(** The constructor, with its default path. *)
Definition new_BMADOrchestrationService (files : FileSystem) (path : option string)
    : Outcome string (list Warning * BMADOrchestrationService) :=
  let p := default ".bmad-creative-writing"%string path in
  match loadAgents files p with
  | Throw e => Throw e
  | Ok (logged, registry) => Ok (logged, mkService new_LLMProviderManager registry p)
  end.

Definition getAvailableAgents (this : BMADOrchestrationService) : list BMADAgent :=
  map snd (agents this).

Definition getAgent (this : BMADOrchestrationService) (agentId : string) : option BMADAgent :=
  map_get (JStr agentId) (agents this).

(** The loader as the specification words it: every file is looked at on
    its own; a file contributes the agent parsed from it, if there is one, and
    the warnings its failure raises, and nothing else. *)
Definition accepted (files : FileSystem) (agentsPath file : string) : option BMADAgent :=
  match snd (parseAgentFile files (path_join agentsPath file)) with
  | Ok (Some agent) => Some agent
  | _ => None
  end.

Definition warnings_for (files : FileSystem) (agentsPath file : string) : list Warning :=
  match parseAgentFile files (path_join agentsPath file) with
  | (ws, Throw error) => ws ++ [FailedToLoadAgent file error]
  | (ws, Ok _) => ws
  end.


(** *** Prompts and identifiers *)

Definition nl : string := String newline EmptyString.

(** [generateId]: the clock in base 36 followed by random digits. *)
Definition digit36 (n : N) : ascii :=
  if (n <? 10)%N then Ascii.ascii_of_N (48 + n) else Ascii.ascii_of_N (87 + n).

Fixpoint base36_digits (fuel : nat) (n : N) : string :=
  match fuel with
  | O => EmptyString
  | S fuel' =>
      if (n <? 36)%N then String (digit36 n) EmptyString
      else base36_digits fuel' (n / 36) +:+ String (digit36 (n mod 36)) EmptyString
  end.

Definition toString36 (z : Z) : string :=
  let n := Z.to_N (Z.abs z) in
  (if z <? 0 then "-" else "") +:+ base36_digits (S (N.to_nat (N.log2 n))) n.

Definition generateId (this : BMADOrchestrationService) (world : World) : string :=
  toString36 (clock world) +:+ random_digits world.

(** [agent.persona.core_principles.map(p => `- ${p}`)]: a [TypeError] unless
    the value is an array, or when an item cannot be converted. *)
Definition principle_lines (now : Z) (principles : JSVal) : Outcome string (list string) :=
  match principles with
  | JArr items => map_outcome (fun p => text ← to_string now p; Ok ("- " +:+ text)) items
  | _ => Throw "TypeError"%string
  end.

(** [Object.entries(inputs).map(([k, v]) => `${k}: ${v}`)] *)
Definition input_lines (now : Z) (inputs : list (string * JSVal))
    : Outcome string (list string) :=
  map_outcome (fun kv => text ← to_string now (snd kv); Ok (fst kv +:+ ": " +:+ text)) inputs.

(** [buildAgentPrompt].  Like every method it is given the receiver and the
    world; [inputs] are the entries [Object.entries] enumerates, in that
    order.  The substitutions of the template are converted from left to right,
    the name of the agent twice; every way the template can throw is a
    [TypeError].  The clock is the reading at the call: one composition is
    taken to be over before the clock advances. *)
Definition buildAgentPrompt (this : BMADOrchestrationService) (world : World)
    (agent : BMADAgent) (action : string) (inputs : list (string * JSVal))
    (storyContext : string) : Outcome string string :=
  let now := clock world in
  agentName ← to_string now (name agent);
  match persona agent with
  | JUndefined | JNull => Throw "TypeError"%string
  | p =>
      role ← to_string now (get_prop p "role");
      style ← to_string now (get_prop p "style");
      principles ← principle_lines now (get_prop p "core_principles");
      inputLines ← input_lines now inputs;
      agentName' ← to_string now (name agent);
      Ok (trim
            (nl +:+ "You are " +:+ agentName +:+ ", " +:+ role +:+ "." +:+ nl
             +:+ nl
             +:+ style +:+ nl
             +:+ nl
             +:+ "Core Principles:" +:+ nl
             +:+ join nl principles +:+ nl
             +:+ nl
             +:+ "Current Story Context:" +:+ nl
             +:+ storyContext +:+ nl
             +:+ nl
             +:+ "User Request: " +:+ action +:+ nl
             +:+ nl
             +:+ "Additional Inputs:" +:+ nl
             +:+ join nl inputLines +:+ nl
             +:+ nl
             +:+ "Please provide your expert response as " +:+ agentName' +:+ "." +:+ nl
             +:+ "    "))
  end.

(** *** Worked examples *)

Definition unlines (l : list string) : string := join nl l.

(** A file system that holds one directory of text files. *)
Definition directory (dir : string) (entries : list (string * string)) : FileSystem :=
  {| readdirSync := fun p =>
       if String.eqb p dir then Ok (map fst entries) else Throw "ENOENT"%string;
     readFileSync := fun p =>
       match List.find (fun e => String.eqb (path_join dir (fst e)) p) entries with
       | Some e => Ok (snd e)
       | None => Throw "ENOENT"%string
       end;
     existsSync := fun p =>
       existsb (fun e => String.eqb (path_join dir (fst e)) p) entries |}.

Definition editor_md : string :=
  unlines [ "# Editor"; "";
            "```yaml";
            "agent:";
            "  id: editor";
            "  name: Elena";
            "  title: Story Editor";
            "```"; "" ]%string.

(** No structured block at all. *)
Definition notes_md : string :=
  unlines [ "# Notes"; ""; "Nothing structured in here." ]%string.

(** A block nested deeper than the parser follows. *)
Definition nested_md : string :=
  unlines [ "```yaml";
            "agent:";
            "  id: plot-architect";
            "  persona:";
            "    core_principles:";
            "      - Structure serves story";
            "    style: analytical";
            "```" ]%string.


(** A definition with every section the interface names. *)
Definition complete_md : string :=
  unlines [ "```yaml";
            "agent:";
            "  id: plot-architect";
            "  name: Petra";
            "  title: Plot Architect";
            "persona:";
            "  role: Story structure specialist";
            "  style: Analytical";
            "commands:";
            "  help: Show the commands";
            "dependencies:";
            "  tasks:";
            "```" ]%string.

Definition editor_agent : BMADAgent :=
  {| id := JStr "editor";
     name := JStr "Elena";
     title := JStr "Story Editor";
     persona := default_persona;
     commands := JObj [];
     dependencies := JObj [] |}.

(** An agent as the interface types it, with two principles. *)
Definition typed_agent : BMADAgent :=
  {| id := JStr "editor";
     name := JStr "Elena";
     title := JStr "Story Editor";
     persona := JObj [("role"%string, JStr "a careful editor");
                      ("style"%string, JStr "Precise and kind.");
                      ("core_principles"%string, JArr [JStr "Clarity first"; JStr "Respect the voice"])];
     commands := JObj [];
     dependencies := JObj [] |}.


Definition base_dir : string := ".bmad-creative-writing".
Definition agents_dir : string := ".bmad-creative-writing/agents".

(** Four directories of two documents each. *)
Definition raising_dir : FileSystem :=
  directory agents_dir [("editor.md", editor_md); ("nested.md", nested_md)]%string.



Definition complete_dir : FileSystem :=
  directory agents_dir [("plot-architect.md", complete_md); ("notes.md", notes_md)]%string.


Definition sample_service : BMADOrchestrationService :=
  mkService new_LLMProviderManager [(JStr "editor", editor_agent)] base_dir.

Definition sample_world : World := mkWorld raising_dir 1700000000000 "4fzzzxjylrx".

Definition sample_inputs : list (string * JSVal) :=
  [("genre", JStr "fantasy"); ("chapter", JNum 3)]%string.

(** *** Running an agent *)

(** The errors [executeAgentAction] can throw: its own for an unknown
    agent, a [TypeError] of the runtime, and the error of the gateway. *)
Inductive ActionError : Type :=
| AgentNotFound (agentId : string)
| ActionTypeError
| ProvidersFailed.

(** What a run does that can be observed: a warning for a dependency that
    is not there, and the events of the gateway. *)
Inductive ActionEvent : Type :=
| DependencyNotFound (depPath : string)
| Gateway (event : Provider.Event).

(** The session object as assembled at run time; the three identifiers
    come out of [inputs], whose values are of type [any]. *)
Record ActionSession : Type := mkActionSession {
  session_id : string;
  session_agentId : string;
  session_userId : JSVal;
  session_projectId : JSVal;
  session_storyFileId : JSVal;
  session_inputs : list (string * JSVal);
  session_outputs : list (string * JSVal);
  session_llmMetadata : Session.LLMMetadata;
  session_createdAt : Z;
  session_updatedAt : Z;
}.

(** [for (const dep of v)]: an array gives its elements, a string its
    characters, anything else is not iterable. *)
Definition iterate (v : JSVal) : Outcome string (list JSVal) :=
  match v with
  | JArr items => Ok items
  | JStr s => Ok (map (fun c => JStr (String c EmptyString)) (list_ascii_of_string s))
  | _ => Throw "TypeError"%string
  end.

(** The inner loop of [loadAgentDependencies]; [path.join] throws a
    [TypeError] on an argument that is not a string. *)
Fixpoint checkDependencies (files : FileSystem) (dir : string) (deps : list JSVal)
    : list ActionEvent * Outcome string unit :=
  match deps with
  | [] => ([], Ok tt)
  | JStr dep :: rest =>
      let depPath := path_join dir dep in
      let warned := if existsSync files depPath then [] else [DependencyNotFound depPath] in
      let '(events, outcome) := checkDependencies files dir rest in
      (warned ++ events, outcome)
  | _ :: _ => ([], Throw "TypeError"%string)
  end.

Definition depTypes : list string := ["data"; "tasks"; "templates"; "utils"]%string.

(** The outer loop, over the four kinds of dependency. *)
Fixpoint loadDependencyTypes (files : FileSystem) (base : string) (deps : JSVal)
    (kinds : list string) : list ActionEvent * Outcome string unit :=
  match kinds with
  | [] => ([], Ok tt)
  | depType :: rest =>
      match deps with
      | JUndefined | JNull => ([], Throw "TypeError"%string)
      | _ =>
          if truthy (get_prop deps depType) then
            match iterate (get_prop deps depType) with
            | Throw e => ([], Throw e)
            | Ok items =>
                match checkDependencies files (path_join base depType) items with
                | (events, Throw e) => (events, Throw e)
                | (events, Ok _) =>
                    let '(events', outcome) := loadDependencyTypes files base deps rest in
                    (events ++ events', outcome)
                end
            end
          else loadDependencyTypes files base deps rest
      end
  end.

Definition loadAgentDependencies (this : BMADOrchestrationService) (world : World)
    (agent : BMADAgent) : list ActionEvent * Outcome string unit :=
  loadDependencyTypes (fs world) (bmadPath this) (dependencies agent) depTypes.

(** [executeAgentAction].  [createdNow] and [updatedNow] are the two
    readings of the clock for the time stamps of the session. *)
Definition executeAgentAction (this : BMADOrchestrationService) (world : World)
    (createdNow updatedNow : Z) (agentId action : string)
    (inputs : list (string * JSVal)) (storyContext : string) (options : LLMOptions)
    : list ActionEvent * Outcome ActionError ActionSession :=
  match map_get (JStr agentId) (agents this) with
  | None => ([], Throw (AgentNotFound agentId))
  | Some agent =>
      match loadAgentDependencies this world agent with
      | (events, Throw _) => (events, Throw ActionTypeError)
      | (events, Ok _) =>
          match buildAgentPrompt this world agent action inputs storyContext with
          | Throw _ => (events, Throw ActionTypeError)
          | Ok prompt =>
              match manager_generateText (llmManager this) prompt options with
              | (calls, Throw _) => (events ++ map Gateway calls, Throw ProvidersFailed)
              | (calls, Ok llmResponse) =>
                  (events ++ map Gateway calls,
                   Ok {| session_id := generateId this world;
                         session_agentId := agentId;
                         session_userId := or_else (obj_get "userId" inputs) (JStr "anonymous");
                         session_projectId := or_else (obj_get "projectId" inputs) (JStr "default");
                         session_storyFileId :=
                           or_else (obj_get "storyFileId" inputs) (JStr "default");
                         session_inputs := inputs;
                         session_outputs := [("response"%string, JStr (text llmResponse))];
                         session_llmMetadata :=
                           Session.mkLLMMetadata (meta_provider llmResponse)
                             (meta_model llmResponse) (tokensUsed llmResponse)
                             (cost llmResponse) (meta_latency llmResponse);
                         session_createdAt := createdNow;
                         session_updatedAt := updatedNow |})
              end
          end
      end
  end.

(** *** Notions for stating properties of the parser *)

(** A line the loop of [parseSimpleYAML] passes over: blank, a comment, or
    without a colon. *)
Definition passed_over (line : string) : bool :=
  let trimmed := trim line in
  String.eqb trimmed "" || startsWith "#" trimmed || negb (includes colon trimmed).

Definition significant_lines (yaml : string) : list string :=
  List.filter (fun line => negb (passed_over line)) (split newline yaml).

(** A value that holds no array, at any depth. *)
Fixpoint array_free (v : JSVal) : bool :=
  match v with
  | JArr _ => false
  | JObj props =>
      (fix all (l : list (string * JSVal)) : bool :=
         match l with
         | [] => true
         | (_, x) :: r => array_free x && all r
         end) props
  | _ => true
  end.

(** A value all of whose objects, at any depth, have plain keys only. *)
Fixpoint keys_plain (v : JSVal) : bool :=
  match v with
  | JArr items =>
      (fix all (l : list JSVal) : bool :=
         match l with
         | [] => true
         | x :: r => keys_plain x && all r
         end) items
  | JObj props =>
      (fix all (l : list (string * JSVal)) : bool :=
         match l with
         | [] => true
         | (k, x) :: r => plain_key k && keys_plain x && all r
         end) props
  | _ => true
  end.

(** What the loop keeps true on a block with plain keys: the keys of
    [result] are plain, and so is the path to [currentObject]. *)
Definition plain_state (st : YamlState) : Prop :=
  keys_plain (JObj (result st)) = true /\
  plain_key (currentSection st) = true /\
  match currentObject st with
  | RPath path => Forall (fun k => plain_key k = true) path
  | RNotAnObject => True
  end.

(** A directory all of whose agent files are plain. *)
Definition plain_directory (files : FileSystem) (agentsPath : string)
    (entries : list string) : bool :=
  forallb (fun file => plain_file files (path_join agentsPath file))
          (List.filter (endsWith ".md") entries).


(** The text of the prompt, from the parts the template prints. *)
Definition prompt_text (agentName role style : string) (principles : list string)
    (storyContext action : string) (inputLines : list string) : string :=
  "You are " +:+ agentName +:+ ", " +:+ role +:+ "." +:+ nl
  +:+ nl
  +:+ style +:+ nl
  +:+ nl
  +:+ "Core Principles:" +:+ nl
  +:+ join nl principles +:+ nl
  +:+ nl
  +:+ "Current Story Context:" +:+ nl
  +:+ storyContext +:+ nl
  +:+ nl
  +:+ "User Request: " +:+ action +:+ nl
  +:+ nl
  +:+ "Additional Inputs:" +:+ nl
  +:+ join nl inputLines +:+ nl
  +:+ nl
  +:+ "Please provide your expert response as " +:+ agentName +:+ ".".

End Orchestration.

(** ** Accounts and sign-in sessions

    [AuthService] keeps the users in a [Map] from user id to user and the
    sign-in sessions in a [Map] from token to session.  [register] and [login]
    search the users in insertion order, so the users are an association list
    with the behaviour of [Map.prototype.set]: a key that is present keeps its
    place and gets the new value, a new key goes to the end.  Nothing observes
    the order of the sessions; they are a finite map.  The methods are [async]
    without an [await] inside: each runs to completion when called, and the
    value below is the one its promise resolves to.  A user object is shared
    with the callers and changed in place; the map below holds its current
    state, and a result holds the state at the time of the return. *)

Module Auth.

Inductive Plan : Type := free | pro | team.

Record User : Type := mkUser {
  id : string;
  email : string;
  name : string;
  plan : Plan;
  tokenLimit : float;
  tokensUsed : float;
  createdAt : Z;
  lastLoginAt : Z;
}.

Record AuthResult : Type := mkAuthResult {
  success : bool;
  user : option User;
  token : option string;
  error : option string;
}.

Record SignIn : Type := mkSignIn {
  userId : string;
  expiresAt : Z;
}.

Record AuthService : Type := mkAuthService {
  users : list (string * User);
  sessions : gmap string SignIn;
}.

Definition new_AuthService : AuthService := mkAuthService [] ∅.

(** [Map.prototype.get] and [Map.prototype.set] on the users. *)
Fixpoint users_get (key : string) (m : list (string * User)) : option User :=
  match m with
  | [] => None
  | (k, u) :: r => if String.eqb k key then Some u else users_get key r
  end.

Fixpoint users_set (key : string) (u : User) (m : list (string * User))
  : list (string * User) :=
  match m with
  | [] => [(key, u)]
  | (k, u0) :: r =>
      if String.eqb k key then (k, u) :: r else (k, u0) :: users_set key u r
  end.

(** [Array.from(this.users.values())] *)
Definition values (m : list (string * User)) : list User := map snd m.

(** [register].  [newId] is the identifier [generateId] draws for the user,
    [createdNow] and [lastLoginNow] the two readings of the clock for the
    dates of the user, [tok1] and [tok2] the two identifiers [generateToken]
    draws, [expiryNow] the reading of the clock for the expiry.  The password
    is not looked at. *)
Definition register (this : AuthService) (email_ password name_ : string)
    (newId : string) (createdNow lastLoginNow : Z) (tok1 tok2 : string) (expiryNow : Z)
  : AuthService * AuthResult :=
  match find (fun u => String.eqb (email u) email_) (values (users this)) with
  | Some _ => (this, mkAuthResult false None None (Some "User already exists"%string))
  | None =>
      let user := mkUser newId email_ name_ free 1000%float 0%float
                         createdNow lastLoginNow in
      let token := (tok1 +:+ tok2)%string in
      (mkAuthService (users_set (id user) user (users this))
         (<[token := mkSignIn (id user) (expiryNow + 24 * 60 * 60 * 1000)]> (sessions this)),
       mkAuthResult true (Some user) (Some token) None)
  end.

(** [login]; the password is not looked at either. *)
Definition login (this : AuthService) (email_ password : string)
    (lastLoginNow : Z) (tok1 tok2 : string) (expiryNow : Z)
  : AuthService * AuthResult :=
  match find (fun u => String.eqb (email u) email_) (values (users this)) with
  | None => (this, mkAuthResult false None None (Some "Invalid credentials"%string))
  | Some u =>
      let user := mkUser (id u) (email u) (name u) (plan u) (tokenLimit u) (tokensUsed u)
                         (createdAt u) lastLoginNow in
      let token := (tok1 +:+ tok2)%string in
      (mkAuthService (users_set (id user) user (users this))
         (<[token := mkSignIn (id user) (expiryNow + 24 * 60 * 60 * 1000)]> (sessions this)),
       mkAuthResult true (Some user) (Some token) None)
  end.

(** [validateToken]; [now] is the clock.  A session found expired is deleted. *)
Definition validateToken (this : AuthService) (token_ : string) (now : Z)
  : AuthService * option User :=
  match sessions this !! token_ with
  | None => (this, None)
  | Some session =>
      if expiresAt session <? now
      then (mkAuthService (users this) (base.delete token_ (sessions this)), None)
      else (this, users_get (userId session) (users this))
  end.

(** [logout]: [Map.prototype.delete] answers whether the key was there. *)
Definition logout (this : AuthService) (token_ : string) : AuthService * bool :=
  (mkAuthService (users this) (base.delete token_ (sessions this)),
   bool_decide (is_Some (sessions this !! token_))).

Definition plan_limit (p : Plan) : float :=
  match p with
  | free => 1000%float
  | pro => 10000%float
  | team => 50000%float
  end.

Definition updateUserPlan (this : AuthService) (userId_ : string) (plan_ : Plan)
  : AuthService * bool :=
  match users_get userId_ (users this) with
  | None => (this, false)
  | Some u =>
      let user := mkUser (id u) (email u) (name u) plan_ (plan_limit plan_) (tokensUsed u)
                         (createdAt u) (lastLoginAt u) in
      (mkAuthService (users_set userId_ user (users this)) (sessions this), true)
  end.

Definition updateTokenUsage (this : AuthService) (userId_ : string) (tokensUsed_ : float)
  : AuthService * bool :=
  match users_get userId_ (users this) with
  | None => (this, false)
  | Some u =>
      let user := mkUser (id u) (email u) (name u) (plan u) (tokenLimit u)
                         (tokensUsed u + tokensUsed_)%float
                         (createdAt u) (lastLoginAt u) in
      (mkAuthService (users_set userId_ user (users this)) (sessions this), true)
  end.

Definition checkTokenLimit (this : AuthService) (userId_ : string) (requestedTokens : float)
  : bool :=
  match users_get userId_ (users this) with
  | None => false
  | Some u => PrimFloat.leb (tokensUsed u + requestedTokens)%float (tokenLimit u)
  end.

Definition getUser (this : AuthService) (userId_ : string) : option User :=
  users_get userId_ (users this).

(** [cleanupExpiredSessions]: the loop visits every entry of the map, also
    when it deletes the one it is at, and deletes those that expired before
    [now]. *)
Definition cleanupExpiredSessions (this : AuthService) (now : Z) : AuthService :=
  mkAuthService (users this)
    (filter (fun entry : string * SignIn => ~ (expiresAt (snd entry) < now)) (sessions this)).

(** What the users kept by the service satisfy: one entry per key, one user
    per email address, every user filed under its own id. *)
Definition well_keyed (m : list (string * User)) : Prop :=
  NoDup (map fst m) /\ NoDup (map email (values m)) /\ Forall (fun e => fst e = id (snd e)) m.

(** *** Histories of calls on the service *)

Inductive AuthCall : Type :=
| Register (email_ password name_ newId : string) (createdNow lastLoginNow : Z)
    (tok1 tok2 : string) (expiryNow : Z)
| Login (email_ password : string) (lastLoginNow : Z) (tok1 tok2 : string) (expiryNow : Z)
| ValidateToken (token_ : string) (now : Z)
| Logout (token_ : string)
| UpdateUserPlan (userId_ : string) (plan_ : Plan)
| UpdateTokenUsage (userId_ : string) (tokensUsed_ : float)
| CleanupExpiredSessions (now : Z).

Definition apply_call (c : AuthCall) (this : AuthService) : AuthService :=
  match c with
  | Register e p n i c l t1 t2 x => fst (register this e p n i c l t1 t2 x)
  | Login e p l t1 t2 x => fst (login this e p l t1 t2 x)
  | ValidateToken t now => fst (validateToken this t now)
  | Logout t => fst (logout this t)
  | UpdateUserPlan u p => fst (updateUserPlan this u p)
  | UpdateTokenUsage u n => fst (updateTokenUsage this u n)
  | CleanupExpiredSessions now => cleanupExpiredSessions this now
  end.

Definition run_calls (cs : list AuthCall) : AuthService :=
  fold_left (fun this c => apply_call c this) cs new_AuthService.

(** *** A worked history *)

Definition sample_calls : list AuthCall :=
  [ Register "ann@example.com" "secret" "Ann" "u1" 100 100 "t1" "a" 100;
    Register "bob@example.com" "hidden" "Bob" "u2" 200 200 "t2" "b" 200;
    UpdateUserPlan "u2" pro;
    Login "ann@example.com" "wrong" 300 "t3" "c" 300 ]%string.

Definition ann : User :=
  mkUser "u1" "ann@example.com" "Ann" free 1000%float 0%float 100 300.

End Auth.

(** ** The plan table of the billing service

    The part of [StripeService] that the plans of the accounts refer to. *)

Module Billing.

Inductive Interval : Type := month | year.

Record SubscriptionPlan : Type := mkPlan {
  id : string;
  name : string;
  price : float;
  currency : string;
  interval : Interval;
  tokenLimit : float;
  features : list string;
  stripePriceId : string;
}.

Definition plans : list SubscriptionPlan :=
  [ mkPlan "free" "Free" 0%float "usd" month 1000%float
      ["Basic writing agents"; "Story export"; "Community support"] "";
    mkPlan "pro" "Pro" 19%float "usd" month 10000%float
      ["All writing agents"; "Advanced export formats"; "Priority support";
       "Version history"] "price_pro_monthly";
    mkPlan "team" "Team" 49%float "usd" month 50000%float
      ["Everything in Pro"; "Team collaboration"; "Admin dashboard";
       "Custom integrations"] "price_team_monthly" ]%string.

Definition getPlans : list SubscriptionPlan := plans.

Definition getPlan (planId : string) : option SubscriptionPlan :=
  find (fun p => String.eqb (id p) planId) plans.

(** The string a plan of an account is in the source. *)
Definition plan_id (p : Auth.Plan) : string :=
  match p with
  | Auth.free => "free"
  | Auth.pro => "pro"
  | Auth.team => "team"
  end.

End Billing.

(* ===================================================================== *)
(** * Properties                                                          *)
(* ===================================================================== *)

(** ** The story file store *)

Module StoreProofs.
Import Store.

Section Lists.

Lemma no_repeat_snoc (l : list string) (x : string) :
  no_repeat l -> last l <> Some x -> no_repeat (l ++ [x]).
Proof.
  induction l as [|a [|b r] IH]; intros Hl Hx; simpl in *.
  - exact I.
  - split; [congruence | exact I].
  - destruct Hl as [Hab Hr]. split; [exact Hab |]. apply IH; assumption.
Qed.

Lemma seq_snoc (a n : nat) : seq a (S n) = seq a n ++ [(a + n)%nat].
Proof. apply seq_S. Qed.

Lemma find_app_split {A : Type} (f : A -> bool) (l1 l2 : list A) :
  List.find f (l1 ++ l2) =
  match List.find f l1 with Some x => Some x | None => List.find f l2 end.
Proof.
  induction l1 as [|a l1 IH]; simpl; [reflexivity |].
  destruct (f a); [reflexivity | exact IH].
Qed.

Lemma find_version_seq (vs : list StoryFileVersion) (v : Z) :
  sv_version <$> vs = Z.of_nat <$> seq 1 (length vs) ->
  (exists x, List.find (fun x => Z.eqb (sv_version x) v) vs = Some x /\ sv_version x = v)
  <-> 1 <= v <= Z.of_nat (length vs).
Proof.
  revert v. induction vs as [|y vs IH] using rev_ind; intros v Hnum.
  - simpl. split; [intros (x & Hx & _); discriminate | lia].
  - rewrite length_app in *. simpl in *.
    replace (length vs + 1)%nat with (S (length vs)) in * by lia.
    rewrite seq_snoc, !fmap_app in Hnum. simpl in Hnum.
    apply app_inj_tail in Hnum as [Hnum Hy].
    specialize (IH v Hnum).
    rewrite find_app_split.
    destruct (List.find (fun x => Z.eqb (sv_version x) v) vs) as [x|] eqn:Hf.
    + destruct IH as [IH _].
      assert (sv_version x = v) as Hxv
        by (apply find_some in Hf as [_ Hf]; apply Z.eqb_eq in Hf; exact Hf).
      specialize (IH (ex_intro _ x (conj eq_refl Hxv))).
      split; [intros _; lia | intros _; eauto].
    + simpl. destruct (Z.eqb_spec (sv_version y) v) as [Heq|Hne].
      * split; [intros _; lia | intros _; eauto].
      * split; [intros (x & Hx & _); discriminate |].
        intros Hrange. destruct IH as [_ IH].
        assert (1 <= v <= Z.of_nat (length vs)) as Hr by lia.
        destruct (IH Hr) as (x & Hx & _). discriminate.
Qed.

End Lists.

Section Invariant.

Lemma consistent_empty : consistent empty_store.
Proof. intros sid. unfold consistent_at. simpl. rewrite !lookup_empty. exact I. Qed.

(** A consistent store holds a story file under its own identifier and with
    a non-empty history. *)
Lemma consistent_lookup (st : StoryFileStore) (sid : string) (sf : StoryFile) :
  consistent st -> storyFiles st !! sid = Some sf ->
  exists vs, versions st !! sid = Some vs /\
    sf_id sf = sid /\
    version sf = Z.of_nat (length vs) /\
    sv_version <$> vs = Z.of_nat <$> seq 1 (length vs) /\
    last (sv_content <$> vs) = Some (content sf) /\
    no_repeat (sv_content <$> vs).
Proof.
  intros Hc Hsf. specialize (Hc sid). unfold consistent_at in Hc. rewrite Hsf in Hc.
  destruct (versions st !! sid) as [vs|]; [| contradiction].
  exists vs. tauto.
Qed.

Lemma consistent_absent (st : StoryFileStore) (sid : string) :
  consistent st -> storyFiles st !! sid = None -> versions st !! sid = None.
Proof.
  intros Hc Hsf. specialize (Hc sid). unfold consistent_at in Hc. rewrite Hsf in Hc.
  destruct (versions st !! sid); [contradiction | reflexivity].
Qed.

Lemma consistent_createStoryFile id vid now p f ic m a (st : StoryFileStore) :
  consistent st -> storyFiles st !! id = None ->
  consistent (fst (createStoryFile id vid now p f ic m a st)).
Proof.
  intros Hc Hfresh sid. pose proof (consistent_absent _ _ Hc Hfresh) as Hv.
  unfold consistent_at, createStoryFile, createVersion. simpl. rewrite Hv. simpl.
  destruct (decide (sid = id)) as [->|Hne].
  - rewrite !lookup_insert_eq. simpl. split_and!; reflexivity || exact I.
  - rewrite !lookup_insert_ne by congruence. apply Hc.
Qed.

Lemma consistent_updateStoryFile vid now sid nc msg a m (st : StoryFileStore) :
  consistent st -> consistent (fst (updateStoryFile vid now sid nc msg a m st)).
Proof.
  intros Hc. unfold updateStoryFile.
  destruct (storyFiles st !! sid) as [sf|] eqn:Hsf; [| exact Hc].
  destruct (String.eqb_spec (content sf) nc) as [Heq|Hne]; [exact Hc |].
  destruct (consistent_lookup _ _ _ Hc Hsf) as (vs & Hvs & Hid & Hver & Hnum & Hlast & Hrep).
  intros sid'. unfold consistent_at, createVersion. simpl. rewrite Hid, Hvs. simpl.
  destruct (decide (sid' = sid)) as [->|Hne'].
  - rewrite !lookup_insert_eq. simpl.
    rewrite length_app. simpl. replace (length vs + 1)%nat with (S (length vs)) by lia.
    rewrite seq_snoc, !fmap_app. simpl.
    split_and!.
    + reflexivity.
    + lia.
    + rewrite Hnum, Hver. do 3 f_equal. lia.
    + apply last_snoc.
    + apply no_repeat_snoc; [exact Hrep |]. rewrite Hlast. congruence.
  - rewrite !lookup_insert_ne by congruence. apply Hc.
Qed.

Lemma consistent_revertToVersion vid now sid tv msg a (st : StoryFileStore) :
  consistent st -> consistent (fst (revertToVersion vid now sid tv msg a st)).
Proof.
  intros Hc. unfold revertToVersion.
  destruct (getVersion st sid tv); [| exact Hc].
  apply consistent_updateStoryFile, Hc.
Qed.

Lemma consistent_deleteStoryFile sid (st : StoryFileStore) :
  consistent st -> consistent (fst (deleteStoryFile sid st)).
Proof.
  intros Hc. unfold deleteStoryFile.
  destruct (storyFiles st !! sid) eqn:Hsf; [| exact Hc].
  intros sid'. unfold consistent_at. simpl.
  destruct (decide (sid' = sid)) as [->|Hne].
  - rewrite !lookup_delete_eq. exact I.
  - rewrite !lookup_delete_ne by congruence. apply Hc.
Qed.

Lemma fresh_ids_cons (st : StoryFileStore) (c : Call) (cs : list Call) :
  fresh_ids st (c :: cs) ->
  match c with
  | CreateStoryFile id _ _ _ _ _ _ _ => storyFiles st !! id = None
  | _ => True
  end /\ fresh_ids (exec c st) cs.
Proof. intros H. exact H. Qed.

Lemma consistent_exec (c : Call) (st : StoryFileStore) :
  consistent st ->
  match c with
  | CreateStoryFile id _ _ _ _ _ _ _ => storyFiles st !! id = None
  | _ => True
  end ->
  consistent (exec c st).
Proof.
  intros Hc Hf. destruct c; simpl.
  - apply consistent_createStoryFile; assumption.
  - apply consistent_updateStoryFile; assumption.
  - apply consistent_revertToVersion; assumption.
  - apply consistent_deleteStoryFile; assumption.
Qed.

Lemma consistent_run_from (cs : list Call) (st : StoryFileStore) :
  consistent st -> fresh_ids st cs -> consistent (run_from st cs).
Proof.
  revert st. induction cs as [|c cs IH]; intros st Hc Hf; [exact Hc |].
  apply fresh_ids_cons in Hf as [Hf1 Hf2].
  unfold run_from. simpl. apply IH; [| exact Hf2].
  apply consistent_exec; assumption.
Qed.

Lemma consistent_run (cs : list Call) :
  fresh_ids empty_store cs -> consistent (run cs).
Proof. apply consistent_run_from, consistent_empty. Qed.

End Invariant.

Section Counting.

Lemma changing_updates_cons sid st c cs n :
  changing_updates sid st (c :: cs) n =
  changing_updates sid (exec c st) cs (next_count sid c st n).
Proof. reflexivity. Qed.

Lemma update_version vid now sid0 nc msg a m (st : StoryFileStore) (sid : string) (n : nat) :
  consistent st ->
  (forall sf, storyFiles st !! sid = Some sf -> version sf = Z.of_nat n + 1) ->
  forall sf', storyFiles (fst (updateStoryFile vid now sid0 nc msg a m st)) !! sid = Some sf' ->
  version sf' = Z.of_nat
    (if decide (match storyFiles st !! sid0 with
                | Some sf => if String.eqb (content sf) nc then None else Some sid0
                | None => None
                end = Some sid) then S n else n) + 1.
Proof.
  intros Hc Hn sf'. unfold updateStoryFile.
  destruct (storyFiles st !! sid0) as [sf|] eqn:Hsf.
  - destruct (String.eqb (content sf) nc) eqn:Heq; cbn [fst].
    + case_decide; [discriminate | apply Hn].
    + destruct (decide (sid0 = sid)) as [->|Hne].
      * case_decide; [| congruence]. cbn. rewrite lookup_insert_eq.
        intros [= <-]. cbn. rewrite (Hn sf Hsf). lia.
      * case_decide; [congruence |]. cbn. rewrite lookup_insert_ne by congruence.
        apply Hn.
  - cbn [fst]. case_decide; [discriminate | apply Hn].
Qed.

Lemma exec_version (c : Call) (st : StoryFileStore) (sid : string) (n : nat) :
  consistent st ->
  (forall sf, storyFiles st !! sid = Some sf -> version sf = Z.of_nat n + 1) ->
  forall sf', storyFiles (exec c st) !! sid = Some sf' ->
  version sf' = Z.of_nat (next_count sid c st n) + 1.
Proof.
  intros Hc Hn sf'. destruct c as [id vid now p f ic m a|vid now sid0 nc msg a m
                                  |vid now sid0 tv msg a|sid0]; simpl.
  - destruct (String.eqb_spec id sid) as [->|Hne].
    + rewrite lookup_insert_eq. intros [= <-]. reflexivity.
    + rewrite lookup_insert_ne by congruence. apply Hn.
  - apply update_version; assumption.
  - unfold revertToVersion. destruct (getVersion st sid0 tv) as [v|] eqn:Hv.
    + intros H. eapply update_version in H; [| exact Hc | exact Hn].
      rewrite H. reflexivity.
    + cbn. apply Hn.
  - unfold deleteStoryFile.
    destruct (storyFiles st !! sid0) eqn:Hsf; cbn; [| apply Hn].
    destruct (decide (sid0 = sid)) as [->|Hne].
    + rewrite lookup_delete_eq. discriminate.
    + rewrite lookup_delete_ne by congruence. apply Hn.
Qed.

Lemma count_run_from (cs : list Call) (st : StoryFileStore) (sid : string) (n : nat) :
  consistent st -> fresh_ids st cs ->
  (forall sf, storyFiles st !! sid = Some sf -> version sf = Z.of_nat n + 1) ->
  forall sf, storyFiles (run_from st cs) !! sid = Some sf ->
  version sf = Z.of_nat (changing_updates sid st cs n) + 1.
Proof.
  revert st n. induction cs as [|c cs IH]; intros st n Hc Hf Hn sf; [apply Hn |].
  apply fresh_ids_cons in Hf as [Hf1 Hf2].
  rewrite changing_updates_cons. unfold run_from. simpl.
  apply IH; [apply consistent_exec; assumption | exact Hf2 |].
  apply exec_version; assumption.
Qed.

Lemma exec_keeps_history (c : Call) (st : StoryFileStore) (sid : string) (sf : StoryFile) :
  consistent st -> storyFiles st !! sid = Some sf ->
  c <> DeleteStoryFile sid -> fresh_ids st [c] ->
  exists k, getVersions (exec c st) sid = getVersions st sid ++ k /\ (length k <= 1)%nat.
Proof.
  intros Hc Hsf Hdel [Hf _].
  assert (forall vid now sid0 nc msg a m,
    exists k, getVersions (fst (updateStoryFile vid now sid0 nc msg a m st)) sid
              = getVersions st sid ++ k /\ (length k <= 1)%nat) as Hupd.
  { intros vid now sid0 nc msg a m. unfold updateStoryFile.
    destruct (storyFiles st !! sid0) as [sf0|] eqn:Hsf0;
      [| exists []; rewrite app_nil_r; split; [reflexivity | simpl; lia]].
    destruct (String.eqb (content sf0) nc);
      [exists []; rewrite app_nil_r; split; [reflexivity | simpl; lia] |].
    destruct (consistent_lookup _ _ _ Hc Hsf0) as (vs & Hvs & Hid & _).
    unfold getVersions, createVersion. cbn. rewrite Hid, Hvs. cbn.
    destruct (decide (sid0 = sid)) as [->|Hne].
    - rewrite lookup_insert_eq, Hvs. cbn. eexists. split; [reflexivity | simpl; lia].
    - rewrite lookup_insert_ne by congruence.
      exists []. rewrite app_nil_r. split; [reflexivity | simpl; lia]. }
  destruct c as [id vid now p f ic m a|vid now sid0 nc msg a m
                |vid now sid0 tv msg a|sid0]; cbn [exec].
  - assert (id <> sid) as Hne by congruence.
    pose proof (consistent_absent _ _ Hc Hf) as Hv.
    unfold getVersions, createStoryFile, createVersion. cbn. rewrite Hv. cbn.
    rewrite lookup_insert_ne by congruence.
    exists []. rewrite app_nil_r. split; [reflexivity | simpl; lia].
  - apply Hupd.
  - unfold revertToVersion. destruct (getVersion st sid0 tv); [apply Hupd |].
    exists []. rewrite app_nil_r. split; [reflexivity | simpl; lia].
  - assert (sid0 <> sid) as Hne by congruence.
    unfold getVersions, deleteStoryFile.
    destruct (storyFiles st !! sid0); cbn;
      [rewrite lookup_delete_ne by congruence |];
      exists []; rewrite app_nil_r; (split; [reflexivity | simpl; lia]).
Qed.

End Counting.

(** C1 (as amended).  In every store reached by a history of calls, a story
    file's [version] is the number of version records of its history; the
    records are numbered 1, 2, ..., in creation order, without gaps or
    repetitions; after [N] content-changing updates since the file was created
    [version] is [N + 1] and [getVersions] returns [N + 1] records; and no call
    other than the deletion of the file removes or reorders records already in
    its history (a call appends at most one). *)
Theorem version_counts_records (cs : list Call) (sid : string) (sf : StoryFile) :
  fresh_ids empty_store cs ->
  getStoryFile (run cs) sid = Some sf ->
  version sf = Z.of_nat (length (getVersions (run cs) sid)) /\
  sv_version <$> getVersions (run cs) sid
    = Z.of_nat <$> seq 1 (length (getVersions (run cs) sid)) /\
  version sf = Z.of_nat (changing_updates sid empty_store cs 0) + 1 /\
  length (getVersions (run cs) sid) = S (changing_updates sid empty_store cs 0) /\
  (forall c : Call, c <> DeleteStoryFile sid -> fresh_ids (run cs) [c] ->
     exists k, getVersions (exec c (run cs)) sid = getVersions (run cs) sid ++ k
               /\ (length k <= 1)%nat).
Proof.
  intros Hf Hsf. unfold getStoryFile in Hsf.
  pose proof (consistent_run cs Hf) as Hc.
  destruct (consistent_lookup _ _ _ Hc Hsf) as (vs & Hvs & Hid & Hver & Hnum & _).
  assert (version sf = Z.of_nat (changing_updates sid empty_store cs 0) + 1) as Hcount.
  { apply (count_run_from cs empty_store sid 0 consistent_empty Hf); [| exact Hsf].
    intros sf0. cbn. rewrite lookup_empty. discriminate. }
  unfold getVersions at 1 2 3 4. rewrite Hvs. cbn [default from_option id].
  split_and!.
  - exact Hver.
  - exact Hnum.
  - exact Hcount.
  - lia.
  - intros c Hdel Hfc. eapply exec_keeps_history; eassumption.
Qed.

Lemma version_counts_records_witness :
  version <$> getStoryFile (run example_calls) "doc-1" = Some 2 /\
  length (getVersions (run example_calls) "doc-1") = 2%nat /\
  changing_updates "doc-1" empty_store example_calls 0 = 1%nat.
Proof.
  assert (fresh_ids empty_store example_calls) as Hf
    by (vm_compute; repeat split).
  destruct (getStoryFile (run example_calls) "doc-1") as [sf|] eqn:Hsf;
    [| vm_compute in Hsf; discriminate].
  destruct (version_counts_records example_calls "doc-1" sf Hf Hsf)
    as (Hver & _ & Hcount & Hlen & _).
  assert (changing_updates "doc-1" empty_store example_calls 0 = 1%nat) as Hn
    by (vm_compute; reflexivity).
  rewrite Hn in Hcount, Hlen. split_and!.
  - change (Some (version sf) = Some 2). rewrite Hcount. reflexivity.
  - exact Hlen.
  - exact Hn.
Defined.

(** C1 (as stated) fails: after one content-changing update the version is
    2 and [getVersions] returns 2 records, not 1. *)
Lemma version_after_one_update_is_not_one :
  fresh_ids empty_store example_calls /\
  changing_updates "doc-1" empty_store example_calls 0 = 1%nat /\
  version <$> getStoryFile (run example_calls) "doc-1" <> Some 1 /\
  length (getVersions (run example_calls) "doc-1") <> 1%nat.
Proof.
  split_and!.
  - vm_compute. repeat split.
  - vm_compute. reflexivity.
  - vm_compute. discriminate.
  - vm_compute. discriminate.
Qed.

Section Diff.

Lemma diff_step_one (oldLines newLines : list string) (i : nat)
    (chs : list Change) (adds dels : nat) :
  diff_step oldLines newLines (chs, adds, dels) i =
  match line_change oldLines newLines i with
  | None => (chs, adds, dels)
  | Some c => (chs ++ [c],
               if counts_as_addition c then S adds else adds,
               if counts_as_deletion c then S dels else dels)
  end.
Proof.
  unfold diff_step, line_change.
  destruct (oldLines !! i) as [o|], (newLines !! i) as [n|]; try reflexivity.
  destruct (String.eqb_spec o n) as [Heq|Hne].
  - rewrite decide_True by exact Heq. reflexivity.
  - rewrite decide_False by exact Hne. reflexivity.
Qed.

Lemma diff_step_line_change (oldLines newLines : list string) (l : list nat)
    (chs : list Change) (adds dels : nat) :
  fold_left (diff_step oldLines newLines) l (chs, adds, dels) =
  (chs ++ omap (line_change oldLines newLines) l,
   (adds + length (List.filter counts_as_addition (omap (line_change oldLines newLines) l)))%nat,
   (dels + length (List.filter counts_as_deletion (omap (line_change oldLines newLines) l)))%nat).
Proof.
  revert chs adds dels. induction l as [|i l IH]; intros chs adds dels.
  - cbn. rewrite app_nil_r, !Nat.add_0_r. reflexivity.
  - cbn [fold_left omap list_omap]. rewrite diff_step_one.
    destruct (line_change oldLines newLines i) as [c|]; [| apply IH].
    rewrite IH. cbn [List.filter]. rewrite <- app_assoc. cbn [app].
    destruct (counts_as_addition c), (counts_as_deletion c); cbn [length];
      repeat (f_equal; try lia).
Qed.

Lemma computeSimpleDiff_positional (oldContent newContent : string) :
  computeSimpleDiff oldContent newContent =
  positional_diff (split newline oldContent) (split newline newContent).
Proof.
  unfold computeSimpleDiff, positional_diff. rewrite diff_step_line_change.
  reflexivity.
Qed.

Lemma line_change_same (ls : list string) (l : list nat) :
  omap (line_change ls ls) l = [].
Proof.
  induction l as [|i l IH]; [reflexivity |].
  cbn. unfold line_change at 1. destruct (ls !! i).
  - rewrite decide_True by reflexivity. exact IH.
  - exact IH.
Qed.

End Diff.

(** C3.  [computeSimpleDiff] is the positional line comparison: index by
    index below the longer length, a line only the new side has is one
    addition, a line only the old side has is one deletion, two differing lines
    are one addition and one deletion recorded as a single [modify] change.
    Two identical contents give no change at all, and the example of the
    specification gives one [add] of "line3" at line 3. *)
Theorem computeSimpleDiff_is_positional :
  (forall oldContent newContent,
     computeSimpleDiff oldContent newContent =
     positional_diff (split newline oldContent) (split newline newContent)) /\
  (forall content, computeSimpleDiff content content = mkDiff 0 0 []) /\
  (forall (st : StoryFileStore) sid a b va vb,
     getVersion st sid a = Some va -> getVersion st sid b = Some vb ->
     sv_content va = sv_content vb ->
     getDiff st sid a b = Ok (mkDiff 0 0 [])) /\
  getDiff (run example_calls) "doc-1" 1 2 = Ok (mkDiff 1 0 [mkChange add 3 "line3"]).
Proof.
  assert (forall content, computeSimpleDiff content content = mkDiff 0 0 []) as Hsame.
  { intros c. rewrite computeSimpleDiff_positional. unfold positional_diff.
    rewrite line_change_same. reflexivity. }
  split_and!.
  - apply computeSimpleDiff_positional.
  - exact Hsame.
  - intros st sid a b va vb Ha Hb Heq. unfold getDiff. rewrite Ha, Hb, Heq.
    f_equal. apply Hsame.
  - vm_compute. reflexivity.
Qed.

Section Updates.

Lemma updateStoryFile_same (st : StoryFileStore) sid sf vid now msg a m :
  storyFiles st !! sid = Some sf ->
  updateStoryFile vid now sid (content sf) msg a m st = (st, Ok sf).
Proof.
  intros Hsf. unfold updateStoryFile. rewrite Hsf, String.eqb_refl. reflexivity.
Qed.

Lemma updateStoryFile_changed (st : StoryFileStore) sid sf vid now nc msg a m :
  storyFiles st !! sid = Some sf -> sf_id sf = sid -> content sf <> nc ->
  let sf' := {| sf_id := sid; projectId := projectId sf; filename := filename sf;
                content := nc; version := version sf + 1;
                metadata := default ∅ m ∪ metadata sf |} in
  let v := {| sv_id := vid; storyFileId := sid; sv_version := version sf + 1;
              sv_content := nc; sv_metadata := default ∅ m ∪ metadata sf;
              createdAt := now; createdBy := default "system"%string a;
              commitMessage := default "Updated content"%string msg |} in
  updateStoryFile vid now sid nc msg a m st =
  (mkStore (<[sid := sf']> (storyFiles st))
           (<[sid := getVersions st sid ++ [v]]> (versions st)),
   Ok sf').
Proof.
  intros Hsf Hid Hne. unfold updateStoryFile. rewrite Hsf.
  destruct (String.eqb_spec (content sf) nc) as [Heq|_]; [contradiction |].
  unfold createVersion, getVersions. cbn. rewrite Hid. reflexivity.
Qed.

Lemma no_repeat_history (st : StoryFileStore) (sid : string) :
  consistent st -> no_repeat (sv_content <$> getVersions st sid).
Proof.
  intros Hc. specialize (Hc sid). unfold consistent_at, getVersions in *.
  destruct (storyFiles st !! sid), (versions st !! sid); cbn; tauto.
Qed.

Lemma getVersion_exists (st : StoryFileStore) (sid : string) (tv : Z) :
  consistent st ->
  is_Some (getVersion st sid tv) <->
  exists sf, getStoryFile st sid = Some sf /\ 1 <= tv <= version sf.
Proof.
  intros Hc. unfold getVersion, getStoryFile. specialize (Hc sid).
  unfold consistent_at in Hc.
  destruct (storyFiles st !! sid) as [sf|], (versions st !! sid) as [vs|];
    try contradiction; cbn.
  - destruct Hc as (_ & Hver & Hnum & _).
    pose proof (find_version_seq vs tv Hnum) as Hfind. split.
    + intros [v Hv]. exists sf. split; [reflexivity |]. rewrite Hver.
      apply Hfind. exists v. split; [exact Hv |].
      apply find_some in Hv as [_ Hv]. apply Z.eqb_eq in Hv. exact Hv.
    + intros (sf' & [= <-] & Hr). rewrite Hver in Hr.
      apply Hfind in Hr as (v & Hv & _). exists v. exact Hv.
  - split; [intros [v Hv]; discriminate | intros (sf & Hsf & _); discriminate].
Qed.

End Updates.

(** C2.  An update whose new content is the current content changes
    nothing: the store is the same store, with the same version number and the
    same history, and the story file is returned as it is.  As every record
    that is appended carries a content other than the one before it, no history
    of a reachable store holds two neighbouring records of equal content. *)
Theorem update_identical_content_is_noop
    (st : StoryFileStore) (sid : string) (sf : StoryFile)
    (vid : string) (now : Z) (msg a : option string) (m : option (gmap string JSVal))
    (cs : list Call) (sid' : string) :
  getStoryFile st sid = Some sf ->
  fresh_ids empty_store cs ->
  updateStoryFile vid now sid (content sf) msg a m st = (st, Ok sf) /\
  getStoryFile (fst (updateStoryFile vid now sid (content sf) msg a m st)) sid = Some sf /\
  getVersions (fst (updateStoryFile vid now sid (content sf) msg a m st)) sid
    = getVersions st sid /\
  no_repeat (sv_content <$> getVersions (run cs) sid').
Proof.
  intros Hsf Hf. rewrite (updateStoryFile_same _ _ _ _ _ _ _ _ Hsf). cbn [fst].
  split_and!; try reflexivity; [exact Hsf |].
  apply no_repeat_history, consistent_run, Hf.
Qed.

Lemma update_identical_content_is_noop_witness :
  no_repeat (sv_content <$> getVersions (run example_calls) "doc-1") /\
  exists sf, getStoryFile (run example_calls) "doc-1" = Some sf /\
    updateStoryFile "ver-3" 3000 "doc-1" three_lines None None None (run example_calls)
    = (run example_calls, Ok sf).
Proof.
  assert (fresh_ids empty_store example_calls) as Hf by (vm_compute; repeat split).
  destruct (getStoryFile (run example_calls) "doc-1") as [sf|] eqn:Hsf;
    [| vm_compute in Hsf; discriminate].
  assert (content sf = three_lines) as Hcontent
    by (vm_compute in Hsf; injection Hsf as <-; reflexivity).
  destruct (update_identical_content_is_noop (run example_calls) "doc-1" sf
              "ver-3" 3000 None None None example_calls "doc-1" Hsf Hf)
    as (Hupd & _ & _ & Hrep).
  split; [exact Hrep |]. exists sf. split; [reflexivity |].
  rewrite <- Hcontent. exact Hupd.
Defined.

(** C6.  On a reachable store [revertToVersion] throws [VersionNotFound]
    exactly when the target version does not exist (there is no such story
    file, or the number is not one of 1 .. [version]), and then the store is
    untouched.  For an existing target it is [updateStoryFile] with the stored
    content and the patch [{revertedFrom: targetVersion}]: when that content is
    the current one nothing changes, otherwise the returned story file has the
    stored content, the next version number and the tag, and one record with
    that content is appended to the history. *)
Theorem revertToVersion_correct
    (cs : list Call) (sid : string) (tv : Z)
    (vid : string) (now : Z) (msg a : option string) :
  fresh_ids empty_store cs ->
  (snd (revertToVersion vid now sid tv msg a (run cs)) = Throw (VersionNotFound tv sid)
     <-> getVersion (run cs) sid tv = None) /\
  (getVersion (run cs) sid tv = None
     <-> ~ exists sf, getStoryFile (run cs) sid = Some sf /\ 1 <= tv <= version sf) /\
  (getVersion (run cs) sid tv = None ->
     revertToVersion vid now sid tv msg a (run cs)
     = (run cs, Throw (VersionNotFound tv sid))) /\
  (forall v, getVersion (run cs) sid tv = Some v ->
     exists sf, getStoryFile (run cs) sid = Some sf /\
       revertToVersion vid now sid tv msg a (run cs)
       = updateStoryFile vid now sid (sv_content v)
           (Some (default ("Reverted to version " +:+ pretty tv) msg))
           (Some (default "system"%string a))
           (Some {[ "revertedFrom"%string := JNum tv ]}) (run cs) /\
       (content sf = sv_content v ->
          revertToVersion vid now sid tv msg a (run cs) = (run cs, Ok sf)) /\
       (content sf <> sv_content v ->
          exists st' sf',
            revertToVersion vid now sid tv msg a (run cs) = (st', Ok sf') /\
            getStoryFile st' sid = Some sf' /\
            content sf' = sv_content v /\
            version sf' = version sf + 1 /\
            metadata sf' !! "revertedFrom"%string = Some (JNum tv) /\
            exists r, getVersions st' sid = getVersions (run cs) sid ++ [r] /\
              sv_content r = sv_content v /\ sv_version r = version sf + 1 /\
              sv_metadata r = metadata sf')).
Proof.
  intros Hf. pose proof (consistent_run cs Hf) as Hc.
  pose proof (getVersion_exists (run cs) sid tv Hc) as Hex.
  split_and!.
  - unfold revertToVersion. destruct (getVersion (run cs) sid tv) as [v|] eqn:Hv.
    + split; [| discriminate]. unfold updateStoryFile.
      destruct (storyFiles (run cs) !! sid) as [sf|]; cbn; [| discriminate].
      destruct (String.eqb (content sf) (sv_content v)); cbn; discriminate.
    + split; reflexivity.
  - rewrite <- Hex. split.
    + intros -> [v Hv]. discriminate.
    + intros Hn. destruct (getVersion (run cs) sid tv) eqn:Hv; [| reflexivity].
      exfalso. apply Hn. eauto.
  - intros Hv. unfold revertToVersion. rewrite Hv. reflexivity.
  - intros v Hv. destruct Hex as [Hex _].
    destruct (Hex (ex_intro _ v Hv)) as (sf & Hsf & Hrange).
    exists sf. split; [exact Hsf |]. unfold getStoryFile in Hsf.
    destruct (consistent_lookup _ _ _ Hc Hsf) as (vs & Hvs & Hid & _).
    unfold revertToVersion. rewrite Hv. split_and!.
    + reflexivity.
    + intros <-. apply updateStoryFile_same. exact Hsf.
    + intros Hne. rewrite (updateStoryFile_changed _ _ _ _ _ _ _ _ _ Hsf Hid Hne).
      do 2 eexists. split; [reflexivity |]. unfold getStoryFile, getVersions. cbn.
      rewrite !lookup_insert_eq. cbn. split_and!; try reflexivity.
      * rewrite lookup_union_l'; [apply lookup_singleton_eq |].
        rewrite lookup_singleton_eq. eauto.
      * eexists. split; [reflexivity |]. cbn. split_and!; reflexivity.
Qed.

Lemma revertToVersion_correct_witness :
  revertToVersion "ver-3" 3000 "doc-1" 7 None None (run example_calls)
    = (run example_calls, Throw (VersionNotFound 7 "doc-1")) /\
  exists v, getVersion (run example_calls) "doc-1" 1 = Some v /\
    exists st' sf',
      revertToVersion "ver-3" 3000 "doc-1" 1 None None (run example_calls) = (st', Ok sf') /\
      content sf' = two_lines /\ version sf' = 3.
Proof.
  assert (fresh_ids empty_store example_calls) as Hf by (vm_compute; repeat split).
  split.
  - destruct (revertToVersion_correct example_calls "doc-1" 7 "ver-3" 3000 None None Hf)
      as (_ & _ & Hnone & _).
    apply Hnone. vm_compute. reflexivity.
  - destruct (getVersion (run example_calls) "doc-1" 1) as [v|] eqn:Hv;
      [| vm_compute in Hv; discriminate].
    exists v.
    destruct (revertToVersion_correct example_calls "doc-1" 1 "ver-3" 3000 None None Hf)
      as (_ & _ & _ & Hsome).
    destruct (Hsome v Hv) as (sf & Hsf & _ & _ & Hchanged).
    assert (sv_content v = two_lines) as Hcv
      by (vm_compute in Hv; injection Hv as <-; reflexivity).
    assert (content sf = three_lines /\ version sf = 2) as [Hcs Hvs]
      by (vm_compute in Hsf; injection Hsf as <-; split; reflexivity).
    destruct Hchanged as (st' & sf' & Hrev & _ & Hc' & Hv' & _).
    { rewrite Hcs, Hcv. vm_compute. discriminate. }
    split; [reflexivity |]. exists st', sf'. split_and!.
    + exact Hrev.
    + rewrite Hc'. exact Hcv.
    + rewrite Hv', Hvs. reflexivity.
Defined.

Section Reads.

Lemma live_run_from (sid : string) (cs : list Call) (st : StoryFileStore) :
  live sid cs (bool_decide (is_Some (storyFiles st !! sid)))
  = bool_decide (is_Some (storyFiles (run_from st cs) !! sid)).
Proof.
  revert st. induction cs as [|c cs IH]; intros st; [reflexivity |].
  unfold run_from. cbn [fold_left]. fold (run_from (exec c st) cs).
  rewrite <- IH. clear IH.
  assert (forall vid now sid0 nc msg a m,
            is_Some (storyFiles (fst (updateStoryFile vid now sid0 nc msg a m st)) !! sid)
            <-> is_Some (storyFiles st !! sid)) as Hupd.
  { intros vid now sid0 nc msg a m. unfold updateStoryFile.
    destruct (storyFiles st !! sid0) as [sf0|] eqn:Hsf0; [| reflexivity].
    destruct (String.eqb (content sf0) nc); [reflexivity |]. cbn.
    destruct (decide (sid0 = sid)) as [->|Hne].
    - rewrite lookup_insert_eq, Hsf0. split; eauto.
    - rewrite lookup_insert_ne by congruence. reflexivity. }
  destruct c as [id vid now p f ic m a|vid now sid0 nc msg a m
                |vid now sid0 tv msg a|sid0]; cbn [live exec].
  - f_equal. destruct (String.eqb_spec id sid) as [->|Hne]; cbn.
    + rewrite lookup_insert_eq. symmetry. apply bool_decide_eq_true. eauto.
    + rewrite lookup_insert_ne by congruence. reflexivity.
  - f_equal. apply bool_decide_ext. symmetry. apply Hupd.
  - f_equal. apply bool_decide_ext. symmetry. unfold revertToVersion.
    destruct (getVersion st sid0 tv); [apply Hupd | reflexivity].
  - f_equal. unfold deleteStoryFile.
    destruct (String.eqb_spec sid0 sid) as [->|Hne].
    + destruct (storyFiles st !! sid) eqn:Hsf; cbn.
      * rewrite lookup_delete_eq. symmetry. apply bool_decide_eq_false.
        intros [x Hx]. discriminate.
      * rewrite Hsf. symmetry. apply bool_decide_eq_false. intros [x Hx]. discriminate.
    + destruct (storyFiles st !! sid0); cbn; [| reflexivity].
      rewrite lookup_delete_ne by congruence. reflexivity.
Qed.

Lemma live_run (sid : string) (cs : list Call) :
  live sid cs false = bool_decide (is_Some (storyFiles (run cs) !! sid)).
Proof.
  unfold run. rewrite <- live_run_from. reflexivity.
Qed.

End Reads.

(** C10.  For an identifier that no live story file has, because it was
    never created or because its file was deleted since, the reads of a
    reachable store do not throw: [getStoryFile] gives [null], [getVersions]
    the empty array and [getVersion] gives [null] for every version number. *)
Theorem reads_of_absent_story_file (cs : list Call) (sid : string) :
  fresh_ids empty_store cs ->
  live sid cs false = false ->
  getStoryFile (run cs) sid = None /\
  getVersions (run cs) sid = [] /\
  (forall v : Z, getVersion (run cs) sid v = None).
Proof.
  intros Hf Hl. rewrite live_run in Hl. apply bool_decide_eq_false in Hl.
  assert (storyFiles (run cs) !! sid = None) as Hsf.
  { destruct (storyFiles (run cs) !! sid) eqn:H; [| reflexivity].
    exfalso. apply Hl. eauto. }
  pose proof (consistent_absent _ _ (consistent_run cs Hf) Hsf) as Hvs.
  unfold getStoryFile, getVersions, getVersion. rewrite Hsf, Hvs.
  split_and!; reflexivity.
Qed.

Lemma reads_of_absent_story_file_witness :
  (getStoryFile (run (example_calls ++ [DeleteStoryFile "doc-1"])) "doc-1" = None /\
   getVersions (run (example_calls ++ [DeleteStoryFile "doc-1"])) "doc-1" = [] /\
   getVersion (run (example_calls ++ [DeleteStoryFile "doc-1"])) "doc-1" 1 = None) /\
  (getStoryFile (run example_calls) "doc-2" = None /\
   getVersions (run example_calls) "doc-2" = [] /\
   getVersion (run example_calls) "doc-2" 1 = None).
Proof.
  split.
  - destruct (reads_of_absent_story_file (example_calls ++ [DeleteStoryFile "doc-1"]) "doc-1")
      as (H1 & H2 & H3).
    + vm_compute. repeat split.
    + vm_compute. reflexivity.
    + split_and!; [exact H1 | exact H2 | apply H3].
  - destruct (reads_of_absent_story_file example_calls "doc-2") as (H1 & H2 & H3).
    + vm_compute. repeat split.
    + vm_compute. reflexivity.
    + split_and!; [exact H1 | exact H2 | apply H3].
Defined.

(** *** Further properties of the store *)

Section History.

Lemma find_version_index (vs : list StoryFileVersion) (a : nat) (v : Z) :
  sv_version <$> vs = Z.of_nat <$> seq a (length vs) ->
  List.find (fun x => Z.eqb (sv_version x) v) vs =
  if Z.of_nat a <=? v then vs !! Z.to_nat (v - Z.of_nat a) else None.
Proof.
  revert a. induction vs as [|x vs IH]; intros a Hnum.
  - cbn. destruct (Z.of_nat a <=? v); reflexivity.
  - cbn in Hnum. injection Hnum as Hx Hrest. cbn [List.find].
    destruct (Z.eqb_spec (sv_version x) v) as [Heq|Hne].
    + rewrite Hx in Heq. subst v. rewrite Z.leb_refl, Z.sub_diag. reflexivity.
    + rewrite (IH (S a) Hrest).
      destruct (Z.leb_spec (Z.of_nat a) v) as [Hle|Hgt].
      * rewrite Hx in Hne.
        destruct (Z.leb_spec (Z.of_nat (S a)) v) as [Hle'|Hgt']; [| lia].
        replace (Z.to_nat (v - Z.of_nat a)) with (S (Z.to_nat (v - Z.of_nat (S a)))) by lia.
        reflexivity.
      * destruct (Z.leb_spec (Z.of_nat (S a)) v) as [Hle'|Hgt']; [lia | reflexivity].
Qed.

Lemma getVersion_index (st : StoryFileStore) (sid : string) (v : Z) :
  consistent st ->
  getVersion st sid v =
  if 1 <=? v then getVersions st sid !! Z.to_nat (v - 1) else None.
Proof.
  intros Hc. unfold getVersion, getVersions. specialize (Hc sid).
  unfold consistent_at in Hc.
  destruct (storyFiles st !! sid) as [sf|], (versions st !! sid) as [vs|];
    try contradiction; cbn.
  - destruct Hc as (_ & _ & Hnum & _). apply (find_version_index vs 1 v Hnum).
  - destruct (1 <=? v); reflexivity.
Qed.

Lemma getVersion_kept_by_exec (c : Call) (st : StoryFileStore) (sid : string)
    (v : Z) (r : StoryFileVersion) :
  consistent st -> fresh_ids st [c] -> c <> DeleteStoryFile sid ->
  getVersion st sid v = Some r -> getVersion (exec c st) sid v = Some r.
Proof.
  intros Hc Hf Hdel Hv.
  assert (exists sf, storyFiles st !! sid = Some sf) as [sf Hsf].
  { specialize (Hc sid). unfold consistent_at in Hc. unfold getVersion in Hv.
    destruct (storyFiles st !! sid) as [sf|]; [eauto |].
    destruct (versions st !! sid); [contradiction | discriminate]. }
  destruct (exec_keeps_history c st sid sf Hc Hsf Hdel Hf) as (k & Hk & _).
  unfold getVersion in *. fold (getVersions (exec c st) sid). fold (getVersions st sid) in Hv.
  rewrite Hk, find_app_split, Hv. reflexivity.
Qed.

Lemma fresh_ids_app (st : StoryFileStore) (cs cs' : list Call) :
  fresh_ids st (cs ++ cs') <-> fresh_ids st cs /\ fresh_ids (run_from st cs) cs'.
Proof.
  revert st. induction cs as [|c cs IH]; intros st.
  - cbn. tauto.
  - cbn [app fresh_ids]. rewrite IH. unfold run_from. cbn [fold_left]. tauto.
Qed.

Lemma run_app (cs cs' : list Call) : run (cs ++ cs') = run_from (run cs) cs'.
Proof. unfold run, run_from. apply fold_left_app. Qed.

Lemma getVersion_kept_by_run (cs' : list Call) (st : StoryFileStore) (sid : string)
    (v : Z) (r : StoryFileVersion) :
  consistent st -> fresh_ids st cs' -> ~ In (DeleteStoryFile sid) cs' ->
  getVersion st sid v = Some r -> getVersion (run_from st cs') sid v = Some r.
Proof.
  revert st. induction cs' as [|c cs' IH]; intros st Hc Hf Hdel Hv; [exact Hv |].
  apply fresh_ids_cons in Hf as [Hf1 Hf2]. unfold run_from. cbn [fold_left].
  apply IH.
  - apply consistent_exec; assumption.
  - exact Hf2.
  - intros Hin. apply Hdel. right. exact Hin.
  - apply getVersion_kept_by_exec; try assumption.
    + split; [exact Hf1 | exact I].
    + intros ->. apply Hdel. left. reflexivity.
Qed.

End History.

(** X1.  A version record is permanent: once [getVersion] returns a record
    for a version number of a story file, it returns the very same record
    after any further calls, as long as the file is not deleted. *)
Theorem version_records_are_permanent
    (cs cs' : list Call) (sid : string) (v : Z) (r : StoryFileVersion) :
  fresh_ids empty_store (cs ++ cs') ->
  ~ In (DeleteStoryFile sid) cs' ->
  getVersion (run cs) sid v = Some r ->
  getVersion (run (cs ++ cs')) sid v = Some r.
Proof.
  intros Hf Hdel Hv. apply fresh_ids_app in Hf as [Hf Hf'].
  rewrite run_app. apply getVersion_kept_by_run; try assumption.
  apply consistent_run, Hf.
Qed.

Lemma version_records_are_permanent_witness :
  exists r, getVersion (run [nth 0 example_calls (DeleteStoryFile "")]) "doc-1" 1 = Some r /\
            getVersion (run example_calls) "doc-1" 1 = Some r /\
            sv_content r = two_lines.
Proof.
  destruct (getVersion (run [nth 0 example_calls (DeleteStoryFile "")]) "doc-1" 1)
    as [r|] eqn:Hr; [| vm_compute in Hr; discriminate].
  exists r. split; [reflexivity |]. split.
  - apply (version_records_are_permanent
             [nth 0 example_calls (DeleteStoryFile "")]
             [nth 1 example_calls (DeleteStoryFile "")] "doc-1" 1 r).
    + vm_compute. repeat split.
    + cbn. intros [H|[]]. discriminate.
    + exact Hr.
  - vm_compute in Hr. injection Hr as <-. reflexivity.
Defined.

(** X2.  On a reachable store the version numbers index the history:
    [getVersion] for number [v] is the entry at position [v - 1] of
    [getVersions] and carries the number [v]; there is none for a number
    below 1. *)
Theorem getVersion_indexes_history (cs : list Call) (sid : string) (v : Z) :
  fresh_ids empty_store cs ->
  getVersion (run cs) sid v =
    (if 1 <=? v then getVersions (run cs) sid !! Z.to_nat (v - 1) else None) /\
  (forall r, getVersion (run cs) sid v = Some r -> sv_version r = v).
Proof.
  intros Hf. split.
  - apply getVersion_index, consistent_run, Hf.
  - intros r Hr. unfold getVersion in Hr. apply find_some in Hr as [_ Hr].
    apply Z.eqb_eq in Hr. exact Hr.
Qed.

Lemma getVersion_indexes_history_witness :
  getVersion (run example_calls) "doc-1" 2 = getVersions (run example_calls) "doc-1" !! 1%nat /\
  getVersion (run example_calls) "doc-1" 0 = None.
Proof.
  assert (fresh_ids empty_store example_calls) as Hf by (vm_compute; repeat split).
  split.
  - destruct (getVersion_indexes_history example_calls "doc-1" 2 Hf) as [H _]. exact H.
  - destruct (getVersion_indexes_history example_calls "doc-1" 0 Hf) as [H _]. exact H.
Defined.

Section Reverting.

Lemma last_lookup_fmap {A B : Type} (f : A -> B) (l : list A) (y : B) :
  last (f <$> l) = Some y ->
  exists x, l !! (length l - 1)%nat = Some x /\ f x = y.
Proof.
  intros Hl. rewrite fmap_last in Hl.
  destruct (last l) as [x|] eqn:Hx; [| discriminate].
  injection Hl as <-. exists x. split; [| reflexivity].
  rewrite last_lookup in Hx. rewrite <- Hx. f_equal. lia.
Qed.

Lemma current_version_record (st : StoryFileStore) (sid : string) (sf : StoryFile) :
  consistent st -> storyFiles st !! sid = Some sf ->
  exists r, getVersion st sid (version sf) = Some r /\ sv_content r = content sf.
Proof.
  intros Hc Hsf.
  destruct (consistent_lookup _ _ _ Hc Hsf) as (vs & Hvs & _ & Hver & _ & Hlast & _).
  destruct (last_lookup_fmap _ _ _ Hlast) as (r & Hr & Hcontent).
  exists r. split; [| exact Hcontent].
  rewrite (getVersion_index st sid (version sf) Hc). unfold getVersions. rewrite Hvs. cbn.
  assert (0 < length vs)%nat as Hpos by (destruct vs; [discriminate | cbn; lia]).
  destruct (Z.leb_spec 1 (version sf)) as [_|Hlt]; [| lia].
  rewrite <- Hr. f_equal. lia.
Qed.

End Reverting.

(** X3.  Reverting a story file to its current version number changes
    nothing; and an update followed by a revert to the number the file had
    before restores the content it had before, as a new version two numbers
    on. *)
Theorem revert_undoes_update
    (cs : list Call) (sid : string) (sf : StoryFile)
    (vid vid' : string) (now now' : Z) (nc : string)
    (msg a msg' a' : option string) (m : option (gmap string JSVal)) :
  fresh_ids empty_store cs ->
  getStoryFile (run cs) sid = Some sf ->
  revertToVersion vid now sid (version sf) msg a (run cs) = (run cs, Ok sf) /\
  (content sf <> nc ->
   exists st' sf',
     revertToVersion vid' now' sid (version sf) msg' a'
       (fst (updateStoryFile vid now sid nc msg a m (run cs))) = (st', Ok sf') /\
     content sf' = content sf /\
     version sf' = version sf + 2 /\
     getStoryFile st' sid = Some sf').
Proof.
  intros Hf Hsf. unfold getStoryFile in Hsf. pose proof (consistent_run cs Hf) as Hc.
  destruct (current_version_record _ _ _ Hc Hsf) as (r & Hr & Hcontent).
  split.
  - unfold revertToVersion. rewrite Hr, Hcontent. apply updateStoryFile_same. exact Hsf.
  - intros Hne.
    destruct (consistent_lookup _ _ _ Hc Hsf) as (vs & Hvs & Hid & _).
    pose proof (consistent_updateStoryFile vid now sid nc msg a m _ Hc) as Hc1.
    assert (getVersion (fst (updateStoryFile vid now sid nc msg a m (run cs))) sid (version sf)
            = Some r) as Hr1.
    { apply (getVersion_kept_by_exec (UpdateStoryFile vid now sid nc msg a m));
        [exact Hc | split; exact I | discriminate | exact Hr]. }
    unfold revertToVersion. rewrite Hr1.
    rewrite (updateStoryFile_changed _ _ _ _ _ _ _ _ _ Hsf Hid Hne) in *. cbn [fst] in *.
    set (sf1 := {| sf_id := sid; projectId := projectId sf; filename := filename sf;
                   content := nc; version := version sf + 1;
                   metadata := default ∅ m ∪ metadata sf |}) in *.
    set (st1 := mkStore _ _) in *.
    assert (storyFiles st1 !! sid = Some sf1) as Hsf1
      by (unfold st1; cbn; apply lookup_insert_eq).
    assert (content sf1 <> sv_content r) as Hne1
      by (rewrite Hcontent; cbn; congruence).
    rewrite (updateStoryFile_changed st1 sid sf1 _ _ _ _ _ _ Hsf1 eq_refl Hne1).
    do 2 eexists. split; [reflexivity |]. cbn. split_and!.
    + exact Hcontent.
    + lia.
    + unfold getStoryFile. cbn. apply lookup_insert_eq.
Qed.

Lemma revert_undoes_update_witness :
  exists sf, getStoryFile (run example_calls) "doc-1" = Some sf /\
    revertToVersion "ver-3" 3000 "doc-1" 2 None None (run example_calls)
    = (run example_calls, Ok sf).
Proof.
  assert (fresh_ids empty_store example_calls) as Hf by (vm_compute; repeat split).
  destruct (getStoryFile (run example_calls) "doc-1") as [sf|] eqn:Hsf;
    [| vm_compute in Hsf; discriminate].
  exists sf. split; [reflexivity |].
  assert (version sf = 2) as Hv by (vm_compute in Hsf; injection Hsf as <-; reflexivity).
  destruct (revert_undoes_update example_calls "doc-1" sf "ver-3" "ver-4" 3000 4000
              "x" None None None None None Hf Hsf) as [Hrev _].
  rewrite Hv in Hrev. exact Hrev.
Defined.

Section Frame.

(** The story file a call names. *)
Lemma exec_frame (c : Call) (st : StoryFileStore) (sid other : string) :
  consistent st ->
  match c with
  | CreateStoryFile id _ _ _ _ _ _ _ => id = sid /\ storyFiles st !! id = None
  | UpdateStoryFile _ _ id _ _ _ _ => id = sid
  | RevertToVersion _ _ id _ _ _ => id = sid
  | DeleteStoryFile id => id = sid
  end ->
  other <> sid ->
  getStoryFile (exec c st) other = getStoryFile st other /\
  getVersions (exec c st) other = getVersions st other.
Proof.
  intros Hc Htarget Hne.
  assert (forall vid now nc msg a m,
    getStoryFile (fst (updateStoryFile vid now sid nc msg a m st)) other
      = getStoryFile st other /\
    getVersions (fst (updateStoryFile vid now sid nc msg a m st)) other
      = getVersions st other) as Hupd.
  { intros vid now nc msg a m. unfold updateStoryFile.
    destruct (storyFiles st !! sid) as [sf|] eqn:Hsf; [| split; reflexivity].
    destruct (String.eqb (content sf) nc); [split; reflexivity |].
    destruct (consistent_lookup _ _ _ Hc Hsf) as (vs & Hvs & Hid & _).
    unfold getStoryFile, getVersions, createVersion. cbn. rewrite Hid.
    rewrite !lookup_insert_ne by congruence. split; reflexivity. }
  destruct c as [id vid now p f ic m a|vid now id nc msg a m|vid now id tv msg a|id];
    cbn [exec].
  - destruct Htarget as [-> Hfresh].
    unfold getStoryFile, getVersions, createStoryFile, createVersion. cbn.
    rewrite !lookup_insert_ne by congruence. split; reflexivity.
  - subst id. apply Hupd.
  - subst id. unfold revertToVersion.
    destruct (getVersion st sid tv); [apply Hupd | split; reflexivity].
  - subst id. unfold deleteStoryFile.
    destruct (storyFiles st !! sid); [| split; reflexivity].
    unfold getStoryFile, getVersions. cbn.
    rewrite !lookup_delete_ne by congruence. split; reflexivity.
Qed.

End Frame.

(** X4.  A call touches the story file it names and no other: after
    creating, updating, reverting or deleting one story file of a reachable
    store, every other identifier reads exactly as before, file and history. *)
Theorem calls_leave_other_files_alone
    (cs : list Call) (c : Call) (sid other : string) :
  fresh_ids empty_store (cs ++ [c]) ->
  match c with
  | CreateStoryFile id _ _ _ _ _ _ _ => id = sid
  | UpdateStoryFile _ _ id _ _ _ _ => id = sid
  | RevertToVersion _ _ id _ _ _ => id = sid
  | DeleteStoryFile id => id = sid
  end ->
  other <> sid ->
  getStoryFile (run (cs ++ [c])) other = getStoryFile (run cs) other /\
  getVersions (run (cs ++ [c])) other = getVersions (run cs) other /\
  (forall v, getVersion (run (cs ++ [c])) other v = getVersion (run cs) other v).
Proof.
  intros Hf Htarget Hne. apply fresh_ids_app in Hf as [Hf [Hfc _]].
  rewrite run_app. unfold run_from at 1 2 3. cbn [fold_left].
  destruct (exec_frame c (run cs) sid other (consistent_run cs Hf)) as [H1 H2];
    [destruct c; tauto | exact Hne |].
  split_and!; [exact H1 | exact H2 |].
  intros v. unfold getVersion. fold (getVersions (exec c (run cs)) other).
  fold (getVersions (run cs) other). rewrite H2. reflexivity.
Qed.

Lemma calls_leave_other_files_alone_witness :
  getStoryFile (run (example_calls ++ [DeleteStoryFile "doc-9"])) "doc-1"
  = getStoryFile (run example_calls) "doc-1".
Proof.
  destruct (calls_leave_other_files_alone example_calls (DeleteStoryFile "doc-9")
              "doc-9" "doc-1") as (H & _).
  - vm_compute. repeat split.
  - reflexivity.
  - discriminate.
  - exact H.
Defined.

(** X5.  [deleteStoryFile] answers [true] exactly for a live story file;
    afterwards the file, its history and every one of its versions are gone,
    and deleting it once more answers [false] and changes nothing. *)
Theorem deleteStoryFile_removes_everything (cs : list Call) (sid : string) :
  fresh_ids empty_store cs ->
  (snd (deleteStoryFile sid (run cs)) = true <-> live sid cs false = true) /\
  getStoryFile (fst (deleteStoryFile sid (run cs))) sid = None /\
  getVersions (fst (deleteStoryFile sid (run cs))) sid = [] /\
  (forall v, getVersion (fst (deleteStoryFile sid (run cs))) sid v = None) /\
  deleteStoryFile sid (fst (deleteStoryFile sid (run cs)))
    = (fst (deleteStoryFile sid (run cs)), false).
Proof.
  intros Hf. pose proof (consistent_run cs Hf) as Hc. rewrite live_run.
  unfold deleteStoryFile, getStoryFile, getVersions, getVersion.
  destruct (storyFiles (run cs) !! sid) as [sf|] eqn:Hsf; cbn.
  - rewrite !lookup_delete_eq. cbn. split; [tauto | repeat split].
  - rewrite Hsf, (consistent_absent _ _ Hc Hsf). cbn. split; [| repeat split].
    split; [discriminate |]. intros H.
    try (apply bool_decide_eq_true in H as [x Hx]); discriminate.
Qed.

Lemma deleteStoryFile_removes_everything_witness :
  snd (deleteStoryFile "doc-1" (run example_calls)) = true /\
  getVersions (fst (deleteStoryFile "doc-1" (run example_calls))) "doc-1" = [].
Proof.
  destruct (deleteStoryFile_removes_everything example_calls "doc-1")
    as (Hlive & _ & Hvs & _).
  - vm_compute. repeat split.
  - split; [apply Hlive; vm_compute; reflexivity | exact Hvs].
Defined.

(** X6.  A story file created on a reachable store under a fresh identifier
    reads back as it was written: version 1, the initial content (empty when
    none is given), and a history of exactly one record, which carries that
    content, the number 1 and the message of the initial creation. *)
Theorem createStoryFile_reads_back
    (cs : list Call) (id vid : string) (now : Z) (p f : string)
    (ic : option string) (m : option (gmap string JSVal)) (a : option string) :
  fresh_ids empty_store cs ->
  getStoryFile (run cs) id = None ->
  getStoryFile (fst (createStoryFile id vid now p f ic m a (run cs))) id
    = Some (snd (createStoryFile id vid now p f ic m a (run cs))) /\
  version (snd (createStoryFile id vid now p f ic m a (run cs))) = 1 /\
  content (snd (createStoryFile id vid now p f ic m a (run cs))) = default EmptyString ic /\
  getVersions (fst (createStoryFile id vid now p f ic m a (run cs))) id
    = [ {| sv_id := vid; storyFileId := id; sv_version := 1;
           sv_content := default EmptyString ic; sv_metadata := default ∅ m;
           createdAt := now; createdBy := default "system"%string a;
           commitMessage := "Initial creation" |} ].
Proof.
  intros Hf Hfresh. unfold getStoryFile in Hfresh.
  pose proof (consistent_absent _ _ (consistent_run cs Hf) Hfresh) as Hv.
  unfold getStoryFile, getVersions, createStoryFile, createVersion. cbn.
  rewrite Hv, !lookup_insert_eq. cbn. split_and!; reflexivity.
Qed.

Lemma createStoryFile_reads_back_witness :
  version <$> getStoryFile
    (fst (createStoryFile "doc-2" "ver-9" 5000 "demo-project" "b.md" None None None
            (run example_calls))) "doc-2" = Some 1.
Proof.
  destruct (createStoryFile_reads_back example_calls "doc-2" "ver-9" 5000
              "demo-project" "b.md" None None None) as (Hget & Hver & _).
  - vm_compute. repeat split.
  - vm_compute. reflexivity.
  - rewrite Hget. cbn [fmap option_fmap option_map]. rewrite Hver. reflexivity.
Defined.

(** X7.  On a reachable store [getDiff] throws, and then the one error of
    its own, exactly when one of the two version numbers does not exist, that
    is unless the story file is live and both numbers lie between 1 and its
    current version; otherwise it returns the diff of the two stored
    contents. *)
Theorem getDiff_needs_both_versions (cs : list Call) (sid : string) (a b : Z) :
  fresh_ids empty_store cs ->
  (getDiff (run cs) sid a b = Throw DiffVersionsNotFound <->
   ~ exists sf, getStoryFile (run cs) sid = Some sf /\
                1 <= a <= version sf /\ 1 <= b <= version sf) /\
  (forall e, getDiff (run cs) sid a b = Throw e -> e = DiffVersionsNotFound) /\
  (forall va vb,
     getVersion (run cs) sid a = Some va -> getVersion (run cs) sid b = Some vb ->
     getDiff (run cs) sid a b = Ok (computeSimpleDiff (sv_content va) (sv_content vb))).
Proof.
  intros Hf. pose proof (consistent_run cs Hf) as Hc.
  pose proof (getVersion_exists (run cs) sid a Hc) as Ha.
  pose proof (getVersion_exists (run cs) sid b Hc) as Hb.
  unfold getDiff. split_and!.
  - destruct (getVersion (run cs) sid a) as [va|] eqn:Hva.
    + destruct (getVersion (run cs) sid b) as [vb|] eqn:Hvb.
      * split; [discriminate |]. intros Hn. exfalso. apply Hn.
        destruct Ha as [Ha _], Hb as [Hb _].
        destruct (Ha (ex_intro _ va eq_refl)) as (sf & Hsf & Hra).
        destruct (Hb (ex_intro _ vb eq_refl)) as (sf' & Hsf' & Hrb).
        rewrite Hsf in Hsf'. injection Hsf' as <-. eauto.
      * split; [| reflexivity]. intros _ (sf & Hsf & _ & Hrb).
        destruct Hb as [_ Hb]. destruct Hb as [x Hx]; [eauto | discriminate].
    + split; [| reflexivity]. intros _ (sf & Hsf & Hra & _).
      destruct Ha as [_ Ha]. destruct Ha as [x Hx]; [eauto | discriminate].
  - intros e. destruct (getVersion (run cs) sid a), (getVersion (run cs) sid b);
      intros [=]; congruence.
  - intros va vb -> ->. reflexivity.
Qed.

Lemma getDiff_needs_both_versions_witness :
  getDiff (run example_calls) "doc-1" 1 3 = Throw DiffVersionsNotFound.
Proof.
  destruct (getDiff_needs_both_versions example_calls "doc-1" 1 3) as ((_ & H) & _).
  - vm_compute. repeat split.
  - apply H. intros (sf & Hsf & _ & Hb). vm_compute in Hsf. injection Hsf as <-.
    cbn in Hb. lia.
Defined.

Section DiffShape.

Local Abbreviation next_line :=
  (fun c : Change => mkChange (type c) (S (lineNumber c)) (ch_content c)).

Lemma lookup_tail {A : Type} (l : list A) (i : nat) : l !! S i = tail l !! i.
Proof. destruct l; reflexivity. Qed.

Lemma line_change_S (o n : list string) (i : nat) :
  line_change o n (S i) = next_line <$> line_change (tail o) (tail n) i.
Proof.
  unfold line_change. rewrite !lookup_tail.
  destruct (tail o !! i) as [x|], (tail n !! i) as [y|]; try reflexivity.
  destruct (decide (x = y)); reflexivity.
Qed.

Lemma omap_line_change_S (o n : list string) (k m : nat) :
  omap (line_change o n) (seq (S k) m)
  = next_line <$> omap (line_change (tail o) (tail n)) (seq k m).
Proof.
  revert k. induction m as [|m IH]; intros k; [reflexivity |].
  cbn [seq omap list_omap]. rewrite line_change_S, IH.
  destruct (line_change (tail o) (tail n) k); reflexivity.
Qed.

Lemma filter_length_fmap {A : Type} (p : A -> bool) (f : A -> A) (l : list A) :
  (forall x, p (f x) = p x) ->
  length (List.filter p (f <$> l)) = length (List.filter p l).
Proof.
  intros Hp. induction l as [|x l IH]; [reflexivity |]. cbn. rewrite Hp.
  destruct (p x); cbn; rewrite IH; reflexivity.
Qed.

Lemma length_tail_max (o n : list string) (m : nat) :
  Nat.max (length o) (length n) = S m -> Nat.max (length (tail o)) (length (tail n)) = m.
Proof. destruct o, n; cbn; lia. Qed.

(** The counts of a positional diff over lists of lines. *)
Lemma positional_counts (m : nat) (o n : list string) :
  Nat.max (length o) (length n) = m ->
  (length (List.filter counts_as_addition (omap (line_change o n) (seq 0 m))) + length o
   = length (List.filter counts_as_deletion (omap (line_change o n) (seq 0 m))) + length n)%nat /\
  (length (List.filter counts_as_addition (omap (line_change o n) (seq 0 m))) <= length n)%nat /\
  (length (List.filter counts_as_deletion (omap (line_change o n) (seq 0 m))) <= length o)%nat.
Proof.
  revert o n. induction m as [|m IH]; intros o n Hmax.
  - destruct o, n; cbn in Hmax; try lia. cbn. lia.
  - destruct (IH (tail o) (tail n) (length_tail_max o n m Hmax)) as (Hb & Ha & Hd).
    cbn [seq omap list_omap]. rewrite omap_line_change_S.
    set (rest := omap (line_change (tail o) (tail n)) (seq 0 m)) in *.
    assert (length (List.filter counts_as_addition (next_line <$> rest))
            = length (List.filter counts_as_addition rest)) as Ea
      by (apply filter_length_fmap; reflexivity).
    assert (length (List.filter counts_as_deletion (next_line <$> rest))
            = length (List.filter counts_as_deletion rest)) as Ed
      by (apply filter_length_fmap; reflexivity).
    unfold line_change.
    destruct o as [|x o], n as [|y n]; cbn in Hmax; try lia; cbn [lookup list_lookup tail length] in *.
    + cbn. rewrite Ea, Ed. lia.
    + cbn. rewrite Ea, Ed. lia.
    + destruct (decide (x = y)); cbn; rewrite Ea, Ed; lia.
Qed.

Lemma omap_line_numbers (o n : list string) (l : list nat) :
  lineNumber <$> omap (line_change o n) l `sublist_of` S <$> l.
Proof.
  induction l as [|i l IH]; [reflexivity |]. cbn [omap list_omap fmap list_fmap].
  assert (forall c, line_change o n i = Some c -> lineNumber c = S i) as Hc.
  { intros c. unfold line_change.
    destruct (o !! i) as [x|], (n !! i) as [y|]; try (intros [= <-]; cbn; lia);
      try discriminate.
    destruct (decide (x = y)); [discriminate | intros [= <-]; cbn; lia]. }
  destruct (line_change o n i) as [c|] eqn:Hi.
  - cbn. rewrite (Hc c eq_refl). apply sublist_skip, IH.
  - apply sublist_cons, IH.
Qed.

End DiffShape.

(** X8.  A diff balances: the additions exceed the deletions by exactly
    the number of lines the new content has more than the old one; there are
    never more additions than new lines nor more deletions than old lines. *)
Theorem diff_counts_balance (oldContent newContent : string) :
  (additions (computeSimpleDiff oldContent newContent)
     + length (split newline oldContent)
   = deletions (computeSimpleDiff oldContent newContent)
     + length (split newline newContent))%nat /\
  (additions (computeSimpleDiff oldContent newContent)
   <= length (split newline newContent))%nat /\
  (deletions (computeSimpleDiff oldContent newContent)
   <= length (split newline oldContent))%nat.
Proof.
  rewrite computeSimpleDiff_positional. unfold positional_diff. cbn [additions deletions].
  apply positional_counts. reflexivity.
Qed.

(** X9.  The changes of a diff are listed by line, top down: their line
    numbers are a selection, in order, of 1 .. [max(lenOld, lenNew)], so no
    line is reported twice and there are at most that many changes. *)
Theorem diff_changes_follow_the_lines (oldContent newContent : string) :
  lineNumber <$> changes (computeSimpleDiff oldContent newContent)
    `sublist_of` seq 1 (Nat.max (length (split newline oldContent))
                                (length (split newline newContent))) /\
  NoDup (lineNumber <$> changes (computeSimpleDiff oldContent newContent)) /\
  (length (changes (computeSimpleDiff oldContent newContent))
   <= Nat.max (length (split newline oldContent)) (length (split newline newContent)))%nat.
Proof.
  rewrite computeSimpleDiff_positional. unfold positional_diff. cbn [changes].
  set (o := split newline oldContent). set (n := split newline newContent).
  pose proof (omap_line_numbers o n (seq 0 (Nat.max (length o) (length n)))) as Hsub.
  rewrite fmap_S_seq in Hsub. split_and!.
  - exact Hsub.
  - eapply sublist_NoDup; [apply NoDup_seq | exact Hsub].
  - apply sublist_length in Hsub. rewrite length_fmap, length_seq in Hsub. exact Hsub.
Qed.

Section DiffSymmetry.

Lemma line_change_swap (o n : list string) (i : nat) :
  match line_change o n i, line_change n o i with
  | Some c, Some c' =>
      lineNumber c = lineNumber c' /\
      counts_as_addition c = counts_as_deletion c' /\
      counts_as_deletion c = counts_as_addition c'
  | None, None => True
  | _, _ => False
  end.
Proof.
  unfold line_change.
  destruct (o !! i) as [x|], (n !! i) as [y|]; cbn; try tauto.
  destruct (decide (x = y)) as [->|Hne].
  - rewrite decide_True by reflexivity. exact I.
  - rewrite decide_False by congruence. cbn. tauto.
Qed.

Lemma omap_line_change_swap (o n : list string) (l : list nat) :
  lineNumber <$> omap (line_change o n) l = lineNumber <$> omap (line_change n o) l /\
  length (List.filter counts_as_addition (omap (line_change o n) l))
    = length (List.filter counts_as_deletion (omap (line_change n o) l)) /\
  length (List.filter counts_as_deletion (omap (line_change o n) l))
    = length (List.filter counts_as_addition (omap (line_change n o) l)).
Proof.
  induction l as [|i l (IH1 & IH2 & IH3)]; [repeat split |].
  cbn [omap list_omap]. pose proof (line_change_swap o n i) as Hi.
  destruct (line_change o n i) as [c|], (line_change n o i) as [c'|]; try contradiction.
  - destruct Hi as (Hl & Ha & Hd). cbn. rewrite Hl, IH1, Ha, Hd.
    destruct (counts_as_deletion c'), (counts_as_addition c'); cbn; rewrite IH2, IH3;
      repeat split.
  - repeat split; assumption.
Qed.

Lemma split_not_nil (c : ascii) (s : string) : split c s <> [].
Proof.
  destruct s as [|a r]; cbn; [discriminate |].
  destruct (Ascii.eqb a c); [discriminate |]. destruct (split c r); discriminate.
Qed.

(** Joining the pieces of a split with the separator gives the text back. *)
Lemma join_split (c : ascii) (s : string) :
  join (String c EmptyString) (split c s) = s.
Proof.
  unfold join. induction s as [|a r IH]; [reflexivity |]. cbn [split].
  pose proof (split_not_nil c r) as Hnil.
  destruct (Ascii.eqb_spec a c) as [->|Hne].
  - destruct (split c r) as [|p ps]; [contradiction |].
    change (String.concat (String c "") ("" :: p :: ps))
      with (String c (String.concat (String c "") (p :: ps))).
    rewrite IH. reflexivity.
  - destruct (split c r) as [|p ps]; [contradiction |].
    destruct ps as [|q qs].
    + cbn in *. rewrite IH. reflexivity.
    + change (String.concat (String c "") (String a p :: q :: qs))
        with (String a (String.concat (String c "") (p :: q :: qs))).
      rewrite IH. reflexivity.
Qed.

Lemma no_change_same_lines (o n : list string) :
  omap (line_change o n) (seq 0 (Nat.max (length o) (length n))) = [] -> o = n.
Proof.
  intros Hnone. apply list_eq. intros i.
  destruct (Nat.lt_ge_cases i (Nat.max (length o) (length n))) as [Hlt|Hge].
  - assert (line_change o n i = None) as Hi.
    { destruct (line_change o n i) as [c|] eqn:Hc; [| reflexivity].
      assert (c ∈ omap (line_change o n) (seq 0 (Nat.max (length o) (length n)))) as Hin.
      { apply list_elem_of_omap. exists i. split; [| exact Hc].
        apply elem_of_seq. lia. }
      rewrite Hnone in Hin. inversion Hin. }
    unfold line_change in Hi.
    destruct (o !! i) as [x|] eqn:Hx, (n !! i) as [y|] eqn:Hy; try discriminate.
    + destruct (decide (x = y)); [congruence | discriminate].
    + apply lookup_ge_None in Hx, Hy. lia.
  - rewrite !(proj2 (lookup_ge_None _ _)) by lia. reflexivity.
Qed.

End DiffSymmetry.

(** X10.  Swapping the two sides of a diff swaps additions and deletions
    and reports changes at the same lines. *)
Theorem diff_of_swapped_contents (a b : string) :
  additions (computeSimpleDiff a b) = deletions (computeSimpleDiff b a) /\
  deletions (computeSimpleDiff a b) = additions (computeSimpleDiff b a) /\
  lineNumber <$> changes (computeSimpleDiff a b)
    = lineNumber <$> changes (computeSimpleDiff b a).
Proof.
  rewrite !computeSimpleDiff_positional. unfold positional_diff.
  cbn [additions deletions changes].
  rewrite (Nat.max_comm (length (split newline b)) (length (split newline a))).
  destruct (omap_line_change_swap (split newline a) (split newline b)
              (seq 0 (Nat.max (length (split newline a)) (length (split newline b)))))
    as (H1 & H2 & H3).
  split_and!; assumption.
Qed.

(** X11.  A diff is empty only for identical contents: if it lists no
    change, or counts neither an addition nor a deletion, the two contents are
    the same text. *)
Theorem empty_diff_means_identical (a b : string) :
  (changes (computeSimpleDiff a b) = [] <-> a = b) /\
  (additions (computeSimpleDiff a b) = 0%nat /\ deletions (computeSimpleDiff a b) = 0%nat
     <-> a = b).
Proof.
  assert (changes (computeSimpleDiff a b) = [] -> a = b) as Hchanges.
  { rewrite computeSimpleDiff_positional. unfold positional_diff. cbn [changes].
    intros Hnone. apply no_change_same_lines in Hnone.
    rewrite <- (join_split newline a), <- (join_split newline b), Hnone. reflexivity. }
  assert (a = b -> computeSimpleDiff a b = mkDiff 0 0 []) as Hsame.
  { intros ->. rewrite computeSimpleDiff_positional. unfold positional_diff.
    rewrite line_change_same. reflexivity. }
  split.
  - split; [exact Hchanges |]. intros Heq. rewrite (Hsame Heq). reflexivity.
  - split; [| intros Heq; rewrite (Hsame Heq); split; reflexivity].
    intros [Ha Hd]. apply Hchanges.
    rewrite computeSimpleDiff_positional in *. unfold positional_diff in *.
    cbn [additions deletions changes] in *.
    destruct (omap (line_change (split newline a) (split newline b))
                (seq 0 (Nat.max (length (split newline a)) (length (split newline b)))))
      as [|c l]; [reflexivity |].
    cbn in Ha, Hd. unfold counts_as_addition, counts_as_deletion in Ha, Hd.
    destruct (type c); cbn in Ha, Hd; discriminate.
Qed.

End StoreProofs.

(** ** The provider gateway *)

Module ProviderProofs.
Import Provider.

Section Gateway.

Variable mgr : LLMProviderManager.
Variable prompt : string.
Variable options : LLMOptions.

Lemma fails_not_succeeds (p : string) (r : LLMResponse) :
  fails mgr prompt options p -> succeeds mgr prompt options p r -> False.
Proof.
  intros (prov & e & Hp & He) (prov' & Hp' & Hr).
  rewrite Hp in Hp'. injection Hp' as <-. rewrite He in Hr. discriminate.
Qed.

Lemma filter_filter_and {A : Type} (f g : A -> bool) (l : list A) :
  List.filter f (List.filter g l) = List.filter (fun x => g x && f x) l.
Proof.
  induction l as [|a l IH]; [reflexivity |]. cbn.
  destruct (g a); cbn; [destruct (f a) |]; rewrite ?IH; reflexivity.
Qed.

Lemma filter_registered_providersToTry :
  List.filter (registered mgr) (providersToTry mgr options) = attempt_list mgr options.
Proof.
  unfold providersToTry, attempt_list.
  destruct (preferredProvider options) as [p|]; [| reflexivity].
  destruct (String.eqb p ""); [reflexivity |]. cbn [List.filter].
  rewrite filter_filter_and. destruct (registered mgr p); reflexivity.
Qed.

(** The loop, on any list of names: either every registered name was called
    and failed, or the calls stop at the first registered name that answers. *)
Lemma tryProviders_outcome (names : list string) :
  (snd (tryProviders mgr prompt options names) = Throw AllProvidersFailed /\
   called (fst (tryProviders mgr prompt options names)) = List.filter (registered mgr) names /\
   warnings (fst (tryProviders mgr prompt options names)) = List.filter (registered mgr) names /\
   Forall (fails mgr prompt options) (List.filter (registered mgr) names))
  \/
  (exists l1 p l2 r,
     List.filter (registered mgr) names = l1 ++ p :: l2 /\
     Forall (fails mgr prompt options) l1 /\
     succeeds mgr prompt options p r /\
     snd (tryProviders mgr prompt options names) = Ok r /\
     called (fst (tryProviders mgr prompt options names)) = l1 ++ [p] /\
     warnings (fst (tryProviders mgr prompt options names)) = l1).
Proof.
  induction names as [|n names IH].
  - left. cbn. split_and!; try reflexivity. constructor.
  - cbn [tryProviders List.filter].
    destruct (providers mgr !! n) as [prov|] eqn:Hprov.
    2: { replace (registered mgr n) with false by (unfold registered; rewrite Hprov; reflexivity).
         exact IH. }
    replace (registered mgr n) with true by (unfold registered; rewrite Hprov; reflexivity).
    destruct (generateText prov prompt options) as [r|e] eqn:Hgen.
    + right. exists [], n, (List.filter (registered mgr) names), r. cbn.
      split_and!; try reflexivity; [constructor |]. exists prov. split; assumption.
    + assert (fails mgr prompt options n) as Hfail by (exists prov, e; split; assumption).
      destruct (tryProviders mgr prompt options names) as [events result].
      cbn [fst snd] in *. destruct IH as [(Hres & Hcalled & Hwarn & Hall)
                                        | (l1 & p & l2 & r & Hatt & Hl1 & Hp & Hres & Hcalled & Hwarn)].
      * left.
        change (called (Called n :: Warned n e :: events)) with (n :: called events).
        change (warnings (Called n :: Warned n e :: events)) with (n :: warnings events).
        rewrite Hcalled, Hwarn. split_and!; try reflexivity; [exact Hres |].
        constructor; assumption.
      * right. exists (n :: l1), p, l2, r.
        change (called (Called n :: Warned n e :: events)) with (n :: called events).
        change (warnings (Called n :: Warned n e :: events)) with (n :: warnings events).
        rewrite Hatt, Hcalled, Hwarn.
        split_and!; try reflexivity; try assumption. constructor; assumption.
Qed.

End Gateway.

Lemma NoDup_attempt_list (ps : gmap string LLMProvider) (options : LLMOptions) :
  NoDup (attempt_list (manager_with ps) options).
Proof.
  assert (List.NoDup defaultFallbackOrder) as Hnd.
  { unfold defaultFallbackOrder. repeat constructor; cbn; intuition discriminate. }
  apply NoDup_ListNoDup. unfold attempt_list. cbn [fallbackOrder manager_with].
  destruct (preferredProvider options) as [p|]; [| apply List.NoDup_filter, Hnd].
  destruct (String.eqb p ""); [apply List.NoDup_filter, Hnd |].
  destruct (registered (manager_with ps) p); [| apply List.NoDup_filter, Hnd].
  constructor; [| apply List.NoDup_filter, Hnd].
  intros Hin. apply filter_In in Hin as [_ Hin].
  rewrite String.eqb_refl in Hin. discriminate.
Qed.

(** Every provider the constructor registers is a stub whose backend call
    throws. *)
Lemma stub_providers_fail (q prompt : string) (options : LLMOptions) :
  registered new_LLMProviderManager q = true ->
  fails new_LLMProviderManager prompt options q.
Proof.
  unfold registered, fails. cbn [providers new_LLMProviderManager manager_with].
  intros Hreg.
  destruct (decide (q = "Anthropic"%string)) as [->|H1].
  { rewrite lookup_insert_eq. eexists _, _. split; reflexivity. }
  rewrite lookup_insert_ne in * by congruence.
  destruct (decide (q = "OpenAI"%string)) as [->|H2].
  { rewrite lookup_insert_eq. eexists _, _. split; reflexivity. }
  rewrite lookup_insert_ne in * by congruence.
  destruct (decide (q = "Gemini"%string)) as [->|H3].
  { rewrite lookup_insert_eq. eexists _, _. split; reflexivity. }
  rewrite lookup_insert_ne in * by congruence.
  rewrite lookup_empty in Hreg. discriminate.
Qed.

Lemma NoDup_prefix {A : Type} (l k : list A) : NoDup (l ++ k) -> NoDup l.
Proof. intros H. apply NoDup_app in H as [H _]. exact H. Qed.

(** C4.  For any registry of providers, [generateText] of the manager
    works through the attempt list: the preferred provider first when it is
    given and registered, then the other registered providers in the fixed
    fallback order.  The providers it calls are an initial part of that list,
    each called once; the result is the response of the first provider that
    answers, all providers before it having failed; and the call throws the
    all-providers-failed error exactly when every provider of the list fails,
    in which case each was called once and each failure raised a warning only.
    The manager the constructor builds has three stub providers that all throw,
    so there the call tries Gemini, OpenAI and Anthropic once each and fails;
    with a failing preferred provider and an answering fallback the answer of
    the fallback is returned. *)
Theorem generateText_falls_back
    (ps : gmap string LLMProvider) (prompt : string) (options : LLMOptions) :
  List.filter (registered (manager_with ps)) (providersToTry (manager_with ps) options)
    = attempt_list (manager_with ps) options /\
  NoDup (attempt_list (manager_with ps) options) /\
  NoDup (called (fst (manager_generateText (manager_with ps) prompt options))) /\
  (exists rest,
     attempt_list (manager_with ps) options
     = called (fst (manager_generateText (manager_with ps) prompt options)) ++ rest) /\
  (forall r,
     snd (manager_generateText (manager_with ps) prompt options) = Ok r ->
     exists l1 p l2,
       attempt_list (manager_with ps) options = l1 ++ p :: l2 /\
       Forall (fails (manager_with ps) prompt options) l1 /\
       succeeds (manager_with ps) prompt options p r /\
       called (fst (manager_generateText (manager_with ps) prompt options)) = l1 ++ [p] /\
       warnings (fst (manager_generateText (manager_with ps) prompt options)) = l1) /\
  (snd (manager_generateText (manager_with ps) prompt options) = Throw AllProvidersFailed
     <-> Forall (fails (manager_with ps) prompt options)
           (attempt_list (manager_with ps) options)) /\
  (snd (manager_generateText (manager_with ps) prompt options) = Throw AllProvidersFailed ->
     called (fst (manager_generateText (manager_with ps) prompt options))
     = attempt_list (manager_with ps) options) /\
  snd (manager_generateText new_LLMProviderManager prompt options)
    = Throw AllProvidersFailed /\
  manager_generateText new_LLMProviderManager prompt no_options =
    ([Called "Gemini"; Warned "Gemini" "Gemini API call not implemented";
      Called "OpenAI"; Warned "OpenAI" "OpenAI API call not implemented";
      Called "Anthropic"; Warned "Anthropic" "Anthropic API call not implemented"],
     Throw AllProvidersFailed) /\
  manager_generateText (manager_with fake_registry) prompt
    (mkOptions None None None None (Some "Gemini"%string))
  = ([Called "Gemini"; Warned "Gemini" "unavailable"; Called "OpenAI"],
     Ok (canned_response "OpenAI")).
Proof.
  pose proof (NoDup_attempt_list ps options) as Hnd.
  pose proof (tryProviders_outcome (manager_with ps) prompt options
                (providersToTry (manager_with ps) options)) as Hout.
  rewrite filter_registered_providersToTry in Hout.
  fold (manager_generateText (manager_with ps) prompt options) in Hout.
  split_and!.
  - apply filter_registered_providersToTry.
  - exact Hnd.
  - destruct Hout as [(_ & Hcalled & _) | (l1 & p & l2 & r & Hatt & _ & _ & _ & Hcalled & _)].
    + rewrite Hcalled. exact Hnd.
    + rewrite Hcalled. rewrite Hatt in Hnd.
      change (l1 ++ p :: l2) with (l1 ++ [p] ++ l2) in Hnd. rewrite app_assoc in Hnd.
      eapply NoDup_prefix, Hnd.
  - destruct Hout as [(_ & Hcalled & _) | (l1 & p & l2 & r & Hatt & _ & _ & _ & Hcalled & _)].
    + exists []. rewrite Hcalled, app_nil_r. reflexivity.
    + exists l2. rewrite Hcalled, Hatt, <- app_assoc. reflexivity.
  - intros r Hr.
    destruct Hout as [(Hres & _) | (l1 & p & l2 & r' & Hatt & Hl1 & Hp & Hres & Hcalled & Hwarn)].
    + rewrite Hres in Hr. discriminate.
    + rewrite Hres in Hr. injection Hr as <-. exists l1, p, l2. split_and!; assumption.
  - destruct Hout as [(Hres & _ & _ & Hall) | (l1 & p & l2 & r & Hatt & _ & Hp & Hres & _)].
    + split; intros _; assumption.
    + split; [rewrite Hres; discriminate |].
      intros Hall. rewrite Hatt in Hall. apply Forall_app in Hall as [_ Hall].
      apply Forall_cons in Hall as [Hfail _].
      destruct (fails_not_succeeds _ _ _ _ _ Hfail Hp).
  - intros Hthrow.
    destruct Hout as [(_ & Hcalled & _) | (l1 & p & l2 & r & _ & _ & _ & Hres & _)].
    + exact Hcalled.
    + rewrite Hres in Hthrow. discriminate.
  - pose proof (tryProviders_outcome new_LLMProviderManager prompt options
                  (providersToTry new_LLMProviderManager options)) as Hreal.
    fold (manager_generateText new_LLMProviderManager prompt options) in Hreal.
    destruct Hreal as [(Hres & _) | (l1 & p & l2 & r & Hatt & _ & Hp & _)];
      [exact Hres | exfalso].
    assert (registered new_LLMProviderManager p = true) as Hreg.
    { assert (In p (l1 ++ p :: l2)) as Hin by (apply in_or_app; right; left; reflexivity).
      rewrite <- Hatt in Hin. apply filter_In in Hin as [_ Hin]. exact Hin. }
    apply (stub_providers_fail p prompt options) in Hreg.
    exact (fails_not_succeeds _ _ _ _ _ Hreg Hp).
  - vm_compute. reflexivity.
  - vm_compute. reflexivity.
Qed.

(** *** Further properties of the gateway *)

(** X18.  A call of [generateText] makes at most four provider calls, and
    at most three when no provider is preferred; every call but an answering
    last one is followed by its warning. *)
Theorem generateText_calls_are_bounded
    (ps : gmap string LLMProvider) (prompt : string) (options : LLMOptions) :
  (length (called (fst (manager_generateText (manager_with ps) prompt options))) <= 4)%nat /\
  (preferredProvider options = None ->
   (length (called (fst (manager_generateText (manager_with ps) prompt options))) <= 3)%nat) /\
  match snd (manager_generateText (manager_with ps) prompt options) with
  | Ok _ =>
      exists p,
        called (fst (manager_generateText (manager_with ps) prompt options))
        = warnings (fst (manager_generateText (manager_with ps) prompt options)) ++ [p]
  | Throw _ =>
      called (fst (manager_generateText (manager_with ps) prompt options))
      = warnings (fst (manager_generateText (manager_with ps) prompt options))
  end.
Proof.
  pose proof (tryProviders_outcome (manager_with ps) prompt options
                (providersToTry (manager_with ps) options)) as Hout.
  fold (manager_generateText (manager_with ps) prompt options) in Hout.
  assert (length (called (fst (manager_generateText (manager_with ps) prompt options)))
          <= length (List.filter (registered (manager_with ps))
                       (providersToTry (manager_with ps) options)))%nat as Hle.
  { destruct Hout as [(_ & -> & _) | (l1 & p & l2 & r & -> & _ & _ & _ & -> & _)];
      [lia | rewrite !length_app; cbn; lia]. }
  assert (forall f (l : list string), length (List.filter f l) <= length l)%nat as Hfilter.
  { intros f l. induction l as [|x l IH]; cbn; [lia |]. destruct (f x); cbn; lia. }
  split_and!.
  - etransitivity; [exact Hle |]. etransitivity; [apply Hfilter |].
    unfold providersToTry. cbn [fallbackOrder manager_with].
    destruct (preferredProvider options) as [p|]; [| cbn; lia].
    destruct (String.eqb p ""); [cbn; lia |]. cbn [length].
    pose proof (Hfilter (fun q => negb (String.eqb q p)) defaultFallbackOrder) as H.
    cbn [defaultFallbackOrder length] in *. lia.
  - intros Hnone. etransitivity; [exact Hle |]. etransitivity; [apply Hfilter |].
    unfold providersToTry. rewrite Hnone. cbn. lia.
  - destruct Hout as [(-> & -> & -> & _) | (l1 & p & l2 & r & _ & _ & _ & -> & -> & ->)].
    + reflexivity.
    + exists p. reflexivity.
Qed.

(** X19.  Whatever provider is named, registered or not, the manager the
    constructor builds estimates the tokens of a text as a quarter of its
    length, rounded up: zero for the empty text only. *)
Theorem estimateTokens_is_a_quarter_of_the_length (t : string) (providerName : option string) :
  manager_estimateTokens new_LLMProviderManager t providerName = roughTokens t /\
  4 * (roughTokens t - 1) < Z.of_nat (String.length t) <= 4 * roughTokens t /\
  (roughTokens t = 0 <-> t = EmptyString).
Proof.
  split; [| split].
  - unfold manager_estimateTokens. cbn [providers new_LLMProviderManager manager_with].
    set (q := default "OpenAI"%string providerName).
    destruct (decide (q = "Anthropic"%string)) as [->|H1];
      [rewrite lookup_insert_eq; reflexivity | rewrite lookup_insert_ne by congruence].
    destruct (decide (q = "OpenAI"%string)) as [->|H2];
      [rewrite lookup_insert_eq; reflexivity | rewrite lookup_insert_ne by congruence].
    destruct (decide (q = "Gemini"%string)) as [->|H3];
      [rewrite lookup_insert_eq; reflexivity | rewrite lookup_insert_ne by congruence].
    rewrite lookup_empty. reflexivity.
  - unfold roughTokens. Z.div_mod_to_equations. lia.
  - unfold roughTokens. destruct t as [|c t]; [split; reflexivity |].
    split; [| discriminate]. cbn [String.length]. intros H. exfalso.
    revert H. Z.div_mod_to_equations. lia.
Qed.

(** The manager the constructor builds fails every call. *)
Lemma stub_manager_fails (prompt : string) (options : LLMOptions) :
  snd (manager_generateText new_LLMProviderManager prompt options) = Throw AllProvidersFailed.
Proof.
  pose proof (tryProviders_outcome new_LLMProviderManager prompt options
                (providersToTry new_LLMProviderManager options)) as Hout.
  fold (manager_generateText new_LLMProviderManager prompt options) in Hout.
  destruct Hout as [(Hres & _) | (l1 & p & l2 & r & Hatt & _ & Hp & _)];
    [exact Hres | exfalso].
  assert (registered new_LLMProviderManager p = true) as Hreg.
  { assert (In p (l1 ++ p :: l2)) as Hin by (apply in_or_app; right; left; reflexivity).
    rewrite <- Hatt in Hin. apply filter_In in Hin as [_ Hin]. exact Hin. }
  apply (stub_providers_fail p prompt options) in Hreg.
  exact (fails_not_succeeds _ _ _ _ _ Hreg Hp).
Qed.

End ProviderProofs.

(** ** The usage monitor *)

Module MonitorProofs.
Import Session Monitor.

Section Buffer.

Lemma slice_last_short {A : Type} (k : nat) (l : list A) :
  (length l <= k)%nat -> slice_last k l = l.
Proof.
  intros H. unfold slice_last. replace (length l - k)%nat with 0%nat by lia. reflexivity.
Qed.

Lemma length_slice_last {A : Type} (k : nat) (l : list A) :
  length (slice_last k l) = Nat.min (length l) k.
Proof. unfold slice_last. rewrite length_drop. lia. Qed.

Lemma slice_last_push {A : Type} (k : nat) (l : list A) (x : A) :
  (0 < k)%nat ->
  slice_last k (slice_last k l ++ [x]) = slice_last k (l ++ [x]).
Proof.
  intros Hk.
  destruct (Nat.le_gt_cases (length l) k) as [Hle|Hgt].
  - rewrite (slice_last_short k l Hle). reflexivity.
  - unfold slice_last. rewrite !length_app, length_drop. cbn [length].
    replace (length l - (length l - k) + 1 - k)%nat with 1%nat by lia.
    replace (length l + 1 - k)%nat with (S (length l - k)) by lia.
    rewrite (drop_app_le l [x] (S (length l - k))) by lia.
    rewrite (drop_app_le (drop (length l - k) l) [x] 1) by (rewrite length_drop; lia).
    rewrite drop_drop. do 2 f_equal. lia.
Qed.

Lemma recordSession_sessions (s : AgentSession) (m : UsageMonitor) :
  sessionMetrics (recordSession s m) = slice_last 1000 (sessionMetrics m ++ [s]).
Proof.
  unfold recordSession. cbn [sessionMetrics].
  destruct (Nat.ltb_spec 1000 (length (sessionMetrics m ++ [s]))) as [Hlt|Hge];
    [reflexivity |].
  symmetry. apply slice_last_short. exact Hge.
Qed.

Lemma recordAll_snoc (ss : list AgentSession) (s : AgentSession) :
  recordAll (ss ++ [s]) = recordSession s (recordAll ss).
Proof. unfold recordAll. rewrite fold_left_app. reflexivity. Qed.

Lemma recordAll_sessions (ss : list AgentSession) :
  sessionMetrics (recordAll ss) = slice_last 1000 ss.
Proof.
  induction ss as [|s ss IH] using rev_ind; [reflexivity |].
  rewrite recordAll_snoc, recordSession_sessions, IH. apply slice_last_push. lia.
Qed.

End Buffer.

(** C7.  The session history is a first-in first-out buffer of capacity
    1000: one [recordSession] appends the session and keeps the last 1000
    entries, so after recording any sessions the history is the last 1000 of
    them in recording order; it never holds more than 1000, and after 1001
    recordings it is exactly the 1000 most recent, the first one evicted. *)
Theorem recordSession_keeps_last_1000 (ss : list AgentSession) :
  (forall (s : AgentSession) (m : UsageMonitor),
     sessionMetrics (recordSession s m) = slice_last 1000 (sessionMetrics m ++ [s])) /\
  sessionMetrics (recordAll ss) = drop (length ss - 1000) ss /\
  length (sessionMetrics (recordAll ss)) = Nat.min (length ss) 1000 /\
  (length ss = 1001%nat -> sessionMetrics (recordAll ss) = tail ss) /\
  sessionMetrics (recordAll (sample_sessions 1001)) = map sample_session (seq 1 1000).
Proof.
  split_and!.
  - apply recordSession_sessions.
  - apply recordAll_sessions.
  - rewrite recordAll_sessions. apply length_slice_last.
  - intros Hlen. rewrite recordAll_sessions. unfold slice_last. rewrite Hlen.
    destruct ss; reflexivity.
  - rewrite recordAll_sessions. unfold slice_last, sample_sessions.
    rewrite length_map, length_seq. reflexivity.
Qed.

Section Window.

Lemma filter_idempotent {A : Type} (f : A -> bool) (l : list A) :
  List.filter f (List.filter f l) = List.filter f l.
Proof.
  induction l as [|a l IH]; [reflexivity |]. cbn.
  destruct (f a) eqn:Hfa; cbn; rewrite ?Hfa, IH; reflexivity.
Qed.

Lemma filter_skip {A : Type} (f : A -> bool) (l1 l2 : list A) (x : A) :
  f x = false -> List.filter f (l1 ++ x :: l2) = List.filter f (l1 ++ l2).
Proof.
  intros Hx. rewrite !List.filter_app. cbn. rewrite Hx. reflexivity.
Qed.

(** [getGlobalMetrics] reads the history only through the recent sessions. *)
Lemma aggregates_of_recent (m : UsageMonitor) (now : Z) :
  aggregates (getGlobalMetrics m now) =
  (sum_floats (map (fun s => tokensUsed (llmMetadata s))
                   (List.filter (is_recent now) (sessionMetrics m))),
   sum_floats (map (fun s => cost (llmMetadata s))
                   (List.filter (is_recent now) (sessionMetrics m))),
   average (latency_figures (map (fun s => latency (llmMetadata s))
                                 (List.filter (is_recent now) (sessionMetrics m)))),
   latency_figures (map (fun s => latency (llmMetadata s))
                        (List.filter (is_recent now) (sessionMetrics m)))).
Proof. reflexivity. Qed.

End Window.

(** C8.  [getGlobalMetrics] computes the token, cost and latency aggregates
    from the recorded sessions created no earlier than 24 hours before [now],
    and from those only: sessions older than that can be dropped from, or added
    to, the history without changing any of these figures.  [errorRate] is
    [errorCount / totalRequests * 100] over the two lifetime counters, whatever
    the history and the time of reading, and 0 while no request has been
    recorded. *)
Theorem getGlobalMetrics_window (m : UsageMonitor) (now : Z) :
  (forall s, is_recent now s = true <-> now - 86400000 <= createdAt s) /\
  aggregates (getGlobalMetrics m now) =
    (sum_floats (map (fun s => tokensUsed (llmMetadata s))
                     (List.filter (is_recent now) (sessionMetrics m))),
     sum_floats (map (fun s => cost (llmMetadata s))
                     (List.filter (is_recent now) (sessionMetrics m))),
     average (latency_figures (map (fun s => latency (llmMetadata s))
                                   (List.filter (is_recent now) (sessionMetrics m)))),
     latency_figures (map (fun s => latency (llmMetadata s))
                          (List.filter (is_recent now) (sessionMetrics m)))) /\
  aggregates (getGlobalMetrics m now) =
    aggregates (getGlobalMetrics
                  (with_sessions m (List.filter (is_recent now) (sessionMetrics m))) now) /\
  (forall l1 l2 s, createdAt s < now - 86400000 ->
     aggregates (getGlobalMetrics (with_sessions m (l1 ++ s :: l2)) now) =
     aggregates (getGlobalMetrics (with_sessions m (l1 ++ l2)) now)) /\
  errorRate (getGlobalMetrics m now) =
    (if (0 <? totalRequests m)%nat
     then (number_of_nat (errorCount m) / number_of_nat (totalRequests m) * 100)%float
     else 0%float) /\
  (forall sessions now',
     errorRate (getGlobalMetrics (with_sessions m sessions) now')
     = errorRate (getGlobalMetrics m now)) /\
  (totalRequests m = 0%nat -> errorRate (getGlobalMetrics m now) = 0%float) /\
  errorRate (getGlobalMetrics new_UsageMonitor now) = 0%float /\
  (aggregates (getGlobalMetrics sample_monitor (day_ms + 10)) =
     (20%float, 0x1p-10%float, 250%float, mkResponseTime 250 250 250) /\
   errorRate (getGlobalMetrics sample_monitor (day_ms + 10)) = 50%float).
Proof.
  split_and!.
  - intros s. unfold is_recent, day_ms. rewrite Z.leb_le. reflexivity.
  - apply aggregates_of_recent.
  - rewrite !aggregates_of_recent. cbn [sessionMetrics with_sessions].
    rewrite filter_idempotent. reflexivity.
  - intros l1 l2 s Hold. rewrite !aggregates_of_recent. cbn [sessionMetrics with_sessions].
    rewrite filter_skip; [reflexivity |].
    unfold is_recent, day_ms. apply Z.leb_gt. lia.
  - reflexivity.
  - intros sessions now'. reflexivity.
  - intros Hzero. unfold getGlobalMetrics. cbn [errorRate]. rewrite Hzero. reflexivity.
  - reflexivity.
  - vm_compute. reflexivity.
  - vm_compute. reflexivity.
Qed.

(** *** Further properties of the monitor *)

Section Cleanup.

Lemma filter_filter_weaker {A : Type} (f g : A -> bool) (l : list A) :
  (forall x, f x = true -> g x = true) ->
  List.filter f (List.filter g l) = List.filter f l.
Proof.
  intros Hfg. induction l as [|x l IH]; [reflexivity |]. cbn.
  destruct (g x) eqn:Hg; cbn.
  - destruct (f x); rewrite IH; reflexivity.
  - rewrite IH. destruct (f x) eqn:Hf; [| reflexivity].
    rewrite (Hfg x Hf) in Hg. discriminate.
Qed.

Lemma filter_sublist {A : Type} (f : A -> bool) (l : list A) :
  List.filter f l `sublist_of` l.
Proof.
  induction l as [|x l IH]; [reflexivity |]. cbn.
  destruct (f x); [apply sublist_skip | apply sublist_cons]; exact IH.
Qed.

Lemma getGlobalMetrics_of_recent (m m' : UsageMonitor) (now : Z) :
  List.filter (is_recent now) (sessionMetrics m')
    = List.filter (is_recent now) (sessionMetrics m) ->
  errorCount m' = errorCount m -> totalRequests m' = totalRequests m ->
  getGlobalMetrics m' now = getGlobalMetrics m now.
Proof.
  intros Hs He Ht. unfold getGlobalMetrics. rewrite Hs, He, Ht. reflexivity.
Qed.

End Cleanup.

(** X12.  When the cutoff is in the range of [Date], [cleanupOldMetrics]
    keeps, in their order, exactly the sessions created at or after it, leaves
    the two counters alone and does nothing when repeated; as long as it is
    asked to keep at least one day, it changes no figure of
    [getGlobalMetrics], read then or later.  With a cutoff out of the range of
    [Date] it drops every session. *)
Theorem cleanupOldMetrics_keeps_the_metrics
    (m : UsageMonitor) (days : option Z) (now now' : Z) :
  1 <= default 30 days -> now <= now' ->
  Z.abs (now - default 30 days * 86400000) <= 8640000000000000 ->
  getGlobalMetrics (cleanupOldMetrics days now m) now' = getGlobalMetrics m now' /\
  sessionMetrics (cleanupOldMetrics days now m) `sublist_of` sessionMetrics m /\
  (forall s, s ∈ sessionMetrics (cleanupOldMetrics days now m) <->
             s ∈ sessionMetrics m /\ now - default 30 days * 86400000 <= createdAt s) /\
  errorCount (cleanupOldMetrics days now m) = errorCount m /\
  totalRequests (cleanupOldMetrics days now m) = totalRequests m /\
  cleanupOldMetrics days now (cleanupOldMetrics days now m) = cleanupOldMetrics days now m /\
  (forall days',
     8640000000000000 < Z.abs (now - default 30 days' * 86400000) ->
     sessionMetrics (cleanupOldMetrics days' now m) = []).
Proof.
  intros Hdays Hnow Hrange.
  assert (new_Date (now - default 30 days * 24 * 60 * 60 * 1000)
          = Some (now - default 30 days * 86400000)) as Hcut.
  { unfold new_Date.
    replace (default 30 days * 24 * 60 * 60 * 1000) with (default 30 days * 86400000) by lia.
    destruct (Z.leb_spec (Z.abs (now - default 30 days * 86400000)) 8640000000000000);
      [reflexivity | lia]. }
  split_and!.
  - apply getGlobalMetrics_of_recent; try reflexivity.
    unfold cleanupOldMetrics. cbn [sessionMetrics]. rewrite Hcut. apply filter_filter_weaker.
    intros s. unfold is_recent, day_ms, at_or_after. rewrite !Z.leb_le. lia.
  - apply filter_sublist.
  - intros s. unfold cleanupOldMetrics. cbn [sessionMetrics]. rewrite Hcut.
    rewrite !list_elem_of_In, filter_In. unfold at_or_after. rewrite Z.leb_le.
    reflexivity.
  - reflexivity.
  - reflexivity.
  - unfold cleanupOldMetrics. cbn [sessionMetrics errorCount totalRequests].
    rewrite filter_idempotent. reflexivity.
  - intros days' Hout. unfold cleanupOldMetrics. cbn [sessionMetrics].
    replace (new_Date (now - default 30 days' * 24 * 60 * 60 * 1000)) with (@None Z).
    + induction (sessionMetrics m) as [|s l IH]; [reflexivity | exact IH].
    + unfold new_Date.
      replace (default 30 days' * 24 * 60 * 60 * 1000) with (default 30 days' * 86400000)
        by lia.
      destruct (Z.leb_spec (Z.abs (now - default 30 days' * 86400000)) 8640000000000000);
        [lia | reflexivity].
Qed.

Lemma cleanupOldMetrics_keeps_the_metrics_witness :
  getGlobalMetrics (cleanupOldMetrics None (day_ms + 10) sample_monitor) (day_ms + 10)
  = getGlobalMetrics sample_monitor (day_ms + 10) /\
  sessionMetrics (cleanupOldMetrics (Some 200000000) (day_ms + 10) sample_monitor) = [].
Proof.
  destruct (cleanupOldMetrics_keeps_the_metrics sample_monitor None
              (day_ms + 10) (day_ms + 10)) as (H & _ & _ & _ & _ & _ & Hout).
  - cbn. lia.
  - lia.
  - cbn. unfold day_ms. lia.
  - split; [exact H |]. apply (Hout (Some 200000000)). cbn. unfold day_ms. lia.
Defined.

Section Calls.

Lemma run_calls_snoc (cs : list MonitorCall) (c : MonitorCall) :
  run_calls (cs ++ [c]) = apply_call c (run_calls cs).
Proof. unfold run_calls. rewrite fold_left_app. reflexivity. Qed.

Lemma slice_last_sublist {A : Type} (k : nat) (l : list A) : slice_last k l `sublist_of` l.
Proof. unfold slice_last. apply sublist_drop. Qed.

End Calls.

(** X13.  Whatever calls a monitor has served, [totalRequests] is the
    number of sessions ever recorded and [errorCount] the number of errors ever
    reported, evicted and cleaned-up sessions included; the history never holds
    more than 1000 sessions, and those it holds were recorded, in that
    order. *)
Theorem monitor_counts_every_call (cs : list MonitorCall) :
  totalRequests (run_calls cs) = length (recorded cs) /\
  errorCount (run_calls cs) = reported_errors cs /\
  (length (sessionMetrics (run_calls cs)) <= 1000)%nat /\
  sessionMetrics (run_calls cs) `sublist_of` recorded cs.
Proof.
  induction cs as [|c cs (IHt & IHe & IHl & IHs)] using rev_ind.
  - cbn. split_and!; try reflexivity. lia.
  - rewrite run_calls_snoc. unfold recorded, reported_errors in *.
    rewrite omap_app, List.filter_app, !length_app.
    destruct c as [s| |d now]; cbn [apply_call omap list_omap List.filter length].
    + rewrite recordSession_sessions. cbn [recordSession totalRequests errorCount].
      split_and!.
      * rewrite IHt. cbn. lia.
      * rewrite IHe. cbn. lia.
      * rewrite length_slice_last. lia.
      * etransitivity; [apply slice_last_sublist |].
        apply sublist_app; [exact IHs | reflexivity].
    + cbn [recordError totalRequests errorCount sessionMetrics]. rewrite app_nil_r.
      split_and!; try assumption; cbn; lia.
    + cbn [cleanupOldMetrics totalRequests errorCount sessionMetrics]. rewrite app_nil_r.
      split_and!.
      * rewrite IHt. cbn. lia.
      * rewrite IHe. cbn. lia.
      * pose proof (sublist_length _ _ (filter_sublist
          (fun s => at_or_after (createdAt s)
                      (new_Date (now - default 30 d * 24 * 60 * 60 * 1000)))
          (sessionMetrics (run_calls cs)))). lia.
      * etransitivity; [apply filter_sublist | exact IHs].
Qed.

Section Health.

Lemma ltb_lower_bound (a b x : float) (ma mb : positive) (ea eb : Z) :
  Prim2SF a = S754_finite false ma ea ->
  Prim2SF b = S754_finite false mb eb ->
  ea < eb ->
  (b <? x)%float = true -> (a <? x)%float = true.
Proof.
  intros Ha Hb Hlt. rewrite !FloatAxioms.ltb_spec, Ha, Hb. unfold SFltb, SFcompare.
  destruct (Prim2SF x) as [s|s| |s m e]; try discriminate.
  - destruct s; [discriminate | reflexivity].
  - destruct s; [discriminate |].
    destruct (Z.compare_spec eb e) as [Heq|Hlt'|Hgt]; try discriminate.
    + intros _. subst e. rewrite (proj2 (Z.compare_lt_iff ea eb) Hlt). reflexivity.
    + intros _. rewrite (proj2 (Z.compare_lt_iff ea e)) by lia. reflexivity.
Qed.

Lemma above_10_above_5 (x : float) : (10 <? x)%float = true -> (5 <? x)%float = true.
Proof.
  apply (ltb_lower_bound 5 10 x 5629499534213120 5629499534213120 (-50) (-49));
    [reflexivity | reflexivity | lia].
Qed.

Lemma above_10000_above_5000 (x : float) :
  (10000 <? x)%float = true -> (5000 <? x)%float = true.
Proof.
  apply (ltb_lower_bound 5000 10000 x 5497558138880000 5497558138880000 (-40) (-39));
    [reflexivity | reflexivity | lia].
Qed.

End Health.

(** X14.  The health status agrees with the alerts: the status is healthy
    exactly when no alert is raised, and a critical status always comes with at
    least one alert.  An alert is raised for an error rate above 5 and for an
    average latency above 5000, each at most once and in that order. *)
Theorem health_status_agrees_with_alerts (m : UsageMonitor) (now : Z) :
  (status (getSystemHealth m now) = healthy <-> alerts (getSystemHealth m now) = []) /\
  (status (getSystemHealth m now) = critical -> alerts (getSystemHealth m now) <> []) /\
  (status (getSystemHealth m now) = critical <->
     (10 <? errorRate (getGlobalMetrics m now))%float = true \/
     (10000 <? average (responseTime (getGlobalMetrics m now)))%float = true) /\
  alerts (getSystemHealth m now) =
    (if (5 <? errorRate (getGlobalMetrics m now))%float
     then [HighErrorRate (errorRate (getGlobalMetrics m now))] else []) ++
    (if (5000 <? average (responseTime (getGlobalMetrics m now)))%float
     then [SlowResponseTime (average (responseTime (getGlobalMetrics m now)))] else []) /\
  health_errorRate (getSystemHealth m now) = errorRate (getGlobalMetrics m now).
Proof.
  unfold getSystemHealth. cbn [status alerts health_errorRate].
  set (r := errorRate (getGlobalMetrics m now)).
  set (a := average (responseTime (getGlobalMetrics m now))).
  pose proof (above_10_above_5 r) as Hr. pose proof (above_10000_above_5000 a) as Ha.
  destruct (5 <? r)%float, (5000 <? a)%float, (10 <? r)%float, (10000 <? a)%float;
    cbn; try (specialize (Hr eq_refl)); try (specialize (Ha eq_refl));
    try discriminate;
    (split_and!; [split; intros; congruence | intros; congruence
                 | split; [intros; try congruence; tauto | intros [|]; congruence]
                 | reflexivity | reflexivity]).
Qed.

Section Popularity.

Lemma usage_of_bump (a b : string) (u : list (string * nat)) :
  usage_of b (bump a u) = if String.eqb a b then S (usage_of a u) else usage_of b u.
Proof.
  induction u as [|[c n] u IH]; cbn.
  - destruct (String.eqb a b); reflexivity.
  - destruct (String.eqb_spec c a) as [->|Hca]; cbn.
    + destruct (String.eqb a b); reflexivity.
    + rewrite IH. destruct (String.eqb_spec c b) as [->|Hcb]; [| reflexivity].
      destruct (String.eqb_spec a b) as [->|]; [contradiction | reflexivity].
Qed.

Lemma sessions_of_snoc (b : string) (l : list AgentSession) (s : AgentSession) :
  sessions_of b (l ++ [s])
  = if String.eqb (agentId s) b then S (sessions_of b l) else sessions_of b l.
Proof.
  unfold sessions_of. rewrite List.filter_app, length_app. cbn.
  destruct (String.eqb (agentId s) b); cbn; lia.
Qed.

Lemma usage_of_fold (b : string) (l : list AgentSession) :
  usage_of b (fold_left (fun usage s => bump (agentId s) usage) l []) = sessions_of b l.
Proof.
  revert b. induction l as [|s l IH] using rev_ind; intros b; [reflexivity |].
  rewrite fold_left_app. cbn [fold_left]. rewrite usage_of_bump, sessions_of_snoc.
  destruct (String.eqb_spec (agentId s) b) as [<-|Hne]; rewrite IH; reflexivity.
Qed.

Lemma bump_keys (a b : string) (u : list (string * nat)) :
  b ∈ (bump a u).*1 <-> b = a \/ b ∈ u.*1.
Proof.
  induction u as [|[c n] u IH]; cbn.
  - rewrite list_elem_of_singleton.
    split; [intros ->; left; reflexivity | intros [->|H]; [reflexivity | inversion H]].
  - destruct (String.eqb_spec c a) as [->|Hca]; cbn.
    + rewrite !elem_of_cons. tauto.
    + rewrite !elem_of_cons, IH. tauto.
Qed.

Lemma bump_NoDup (a : string) (u : list (string * nat)) :
  NoDup u.*1 -> NoDup (bump a u).*1.
Proof.
  induction u as [|[c n] u IH]; cbn; intros Hnd.
  - apply NoDup_singleton.
  - apply NoDup_cons in Hnd as [Hc Hnd].
    destruct (String.eqb_spec c a) as [->|Hca]; cbn.
    + apply NoDup_cons. split; assumption.
    + apply NoDup_cons. split; [| apply IH, Hnd].
      rewrite bump_keys. intros [->|Hin]; [congruence | contradiction].
Qed.

Lemma bump_positive (a : string) (u : list (string * nat)) :
  Forall (fun p => 1 <= snd p)%nat u -> Forall (fun p => 1 <= snd p)%nat (bump a u).
Proof.
  induction u as [|[c n] u IH]; cbn; intros Hpos.
  - constructor; [cbn; lia | constructor].
  - apply Forall_cons in Hpos as [Hn Hpos].
    destruct (String.eqb c a); constructor; cbn in *; try lia; auto.
Qed.

(** The usage table after the [forEach]: one entry per agent seen, with a
    positive count. *)
Lemma usage_table (l : list AgentSession) :
  NoDup (fold_left (fun usage s => bump (agentId s) usage) l []).*1 /\
  Forall (fun p => 1 <= snd p)%nat (fold_left (fun usage s => bump (agentId s) usage) l []).
Proof.
  induction l as [|s l [IH1 IH2]] using rev_ind.
  - cbn. split; constructor.
  - rewrite fold_left_app. cbn [fold_left]. split; [apply bump_NoDup | apply bump_positive];
      assumption.
Qed.

Lemma usage_of_member (b : string) (n : nat) (u : list (string * nat)) :
  NoDup u.*1 -> (b, n) ∈ u -> usage_of b u = n.
Proof.
  induction u as [|[c k] u IH]; cbn; intros Hnd Hin; [inversion Hin |].
  apply NoDup_cons in Hnd as [Hc Hnd]. apply elem_of_cons in Hin as [[= -> ->]|Hin].
  - rewrite String.eqb_refl. reflexivity.
  - destruct (String.eqb_spec c b) as [->|Hne]; [| apply IH; assumption].
    exfalso. apply Hc. apply list_elem_of_fmap. exists (b, n). split; [reflexivity | exact Hin].
Qed.

Lemma usage_of_positive_member (b : string) (u : list (string * nat)) :
  (1 <= usage_of b u)%nat -> (b, usage_of b u) ∈ u.
Proof.
  induction u as [|[c k] u IH]; cbn; intros Hpos; [lia |].
  destruct (String.eqb_spec c b) as [->|Hne]; [left | right; apply IH, Hpos].
Qed.

Lemma insert_by_Permutation {A : Type} (before : A -> A -> bool) (x : A) (l : list A) :
  insert_by before x l ≡ₚ x :: l.
Proof.
  induction l as [|y l IH]; cbn; [reflexivity |].
  destruct (before x y); [reflexivity |]. rewrite IH. apply Permutation_swap.
Qed.

Lemma sort_by_acc_Permutation {A : Type} (before : A -> A -> bool) (l acc : list A) :
  fold_left (fun acc x => insert_by before x acc) l acc ≡ₚ acc ++ l.
Proof.
  revert acc. induction l as [|x l IH]; intros acc; cbn.
  - rewrite app_nil_r. reflexivity.
  - rewrite IH, insert_by_Permutation. rewrite (Permutation_middle acc l x). reflexivity.
Qed.

Lemma sort_by_Permutation {A : Type} (before : A -> A -> bool) (l : list A) :
  sort_by before l ≡ₚ l.
Proof. unfold sort_by. apply (sort_by_acc_Permutation before l []). Qed.

Local Abbreviation by_count := (fun a b : string * nat => (snd b <? snd a)%nat).
Local Abbreviation descending := (fun x y : string * nat => (snd y <= snd x)%nat).

Lemma insert_by_descending (x : string * nat) (l : list (string * nat)) :
  StronglySorted descending l -> StronglySorted descending (insert_by by_count x l).
Proof.
  induction l as [|y l IH]; intros Hs; [cbn; repeat constructor |].
  cbn [insert_by]. apply StronglySorted_inv in Hs as [Hs Hy].
  destruct (Nat.ltb_spec (snd y) (snd x)) as [Hlt|Hge].
  - constructor; [constructor; assumption |].
    constructor; [lia |]. eapply Forall_impl; [exact Hy |]. cbn. intros z Hz. lia.
  - constructor; [apply IH, Hs |].
    rewrite (insert_by_Permutation by_count x l). constructor; [exact Hge | exact Hy].
Qed.

Lemma sort_by_acc_descending (l acc : list (string * nat)) :
  StronglySorted descending acc ->
  StronglySorted descending (fold_left (fun acc x => insert_by by_count x acc) l acc).
Proof.
  revert acc. induction l as [|x l IH]; intros acc Hs; cbn; [exact Hs |].
  apply IH, insert_by_descending, Hs.
Qed.

Lemma sort_by_descending (l : list (string * nat)) :
  StronglySorted descending (sort_by by_count l).
Proof. apply sort_by_acc_descending. constructor. Qed.

Lemma StronglySorted_take {A : Type} (R : A -> A -> Prop) (k : nat) (l : list A) :
  StronglySorted R l -> StronglySorted R (take k l).
Proof.
  revert k. induction l as [|x l IH]; intros [|k] Hs; cbn; try constructor.
  - apply IH. apply StronglySorted_inv in Hs as [Hs _]. exact Hs.
  - apply StronglySorted_inv in Hs as [_ Hx].
    apply Forall_forall. intros y Hy. apply (proj1 (Forall_forall _ _) Hx).
    eapply elem_of_sublist; [exact Hy | apply sublist_take].
Qed.

Lemma StronglySorted_take_drop {A : Type} (R : A -> A -> Prop) (k : nat) (l : list A)
    (x y : A) :
  StronglySorted R l -> x ∈ take k l -> y ∈ drop k l -> R x y.
Proof.
  revert k. induction l as [|z l IH]; intros [|k] Hs Hx Hy; cbn in *;
    try (inversion Hx; fail).
  apply StronglySorted_inv in Hs as [Hs Hz].
  apply elem_of_cons in Hx as [->|Hx].
  - apply (proj1 (Forall_forall _ _) Hz).
    eapply elem_of_sublist; [exact Hy | apply sublist_drop].
  - eapply IH; eassumption.
Qed.

End Popularity.

(** X15.  [popularAgents] lists at most five agents, each once, by
    descending count; the count of a listed agent is the number of its sessions
    in the 24-hour window, at least one; and an agent with sessions in the
    window that is not listed has no more of them than any listed agent, the
    list then being full. *)
Theorem popularAgents_are_the_top_five (m : UsageMonitor) (now : Z) :
  (length (popularAgents (getGlobalMetrics m now)) <= 5)%nat /\
  NoDup (popularAgents (getGlobalMetrics m now)).*1 /\
  StronglySorted (fun x y : string * nat => (snd y <= snd x)%nat)
    (popularAgents (getGlobalMetrics m now)) /\
  (forall a n, (a, n) ∈ popularAgents (getGlobalMetrics m now) ->
     n = sessions_of a (List.filter (is_recent now) (sessionMetrics m)) /\ (1 <= n)%nat) /\
  (forall a,
     (1 <= sessions_of a (List.filter (is_recent now) (sessionMetrics m)))%nat ->
     a ∉ (popularAgents (getGlobalMetrics m now)).*1 ->
     length (popularAgents (getGlobalMetrics m now)) = 5%nat /\
     forall b n, (b, n) ∈ popularAgents (getGlobalMetrics m now) ->
       (sessions_of a (List.filter (is_recent now) (sessionMetrics m)) <= n)%nat).
Proof.
  unfold getGlobalMetrics. cbn [popularAgents].
  set (R := List.filter (is_recent now) (sessionMetrics m)).
  set (U := fold_left (fun usage s => bump (agentId s) usage) R []).
  set (S := sort_by (fun a b : string * nat => (snd b <? snd a)%nat) U).
  destruct (usage_table R) as [HndU HposU]. fold U in HndU, HposU.
  assert (forall a, usage_of a U = sessions_of a R) as Hfold
    by (intros a; apply usage_of_fold).
  assert (S ≡ₚ U) as Hperm by apply sort_by_Permutation.
  assert (StronglySorted (fun x y : string * nat => (snd y <= snd x)%nat) S) as Hsorted
    by apply sort_by_descending.
  assert (forall a n, (a, n) ∈ S -> n = sessions_of a R /\ (1 <= n)%nat) as Hmember.
  { intros a n Hin. rewrite Hperm in Hin. split.
    - rewrite <- Hfold. symmetry. apply usage_of_member; assumption.
    - apply (proj1 (Forall_forall _ _) HposU (a, n) Hin). }
  split_and!.
  - rewrite length_take. lia.
  - rewrite fmap_take. eapply sublist_NoDup; [| apply sublist_take].
    rewrite Hperm. exact HndU.
  - apply StronglySorted_take, Hsorted.
  - intros a n Hin. apply Hmember. eapply elem_of_sublist; [exact Hin | apply sublist_take].
  - intros a Hpos Hout.
    assert ((a, sessions_of a R) ∈ S) as Hin.
    { rewrite Hperm. rewrite <- Hfold in *. apply usage_of_positive_member, Hpos. }
    rewrite <- (take_drop 5 S) in Hin. apply elem_of_app in Hin as [Hin|Hin].
    { exfalso. apply Hout. apply list_elem_of_fmap. exists (a, sessions_of a R).
      split; [reflexivity | exact Hin]. }
    split.
    + rewrite length_take. assert (0 < length (drop 5 S))%nat as Hlen
        by (destruct (drop 5 S); [inversion Hin | cbn; lia]).
      rewrite length_drop in Hlen. lia.
    + intros b n Hb.
      apply (StronglySorted_take_drop _ 5 S (b, n) (a, sessions_of a R) Hsorted Hb Hin).
Qed.

Section Percentiles.

(** For every size the history can have, the floating-point products
    [n * 0.95] and [n * 0.99] floor to the exact integer parts. *)
Lemma percentile_index_table :
  forallb (fun n =>
      (floor_index (number_of_nat n * 0x1.e666666666666p-1)%float =? n * 19 / 20)%nat &&
      (floor_index (number_of_nat n * 0x1.fae147ae147aep-1)%float =? n * 99 / 100)%nat)
    (seq 1 1000) = true.
Proof. vm_compute. reflexivity. Qed.

Lemma percentile_index (n : nat) :
  (1 <= n <= 1000)%nat ->
  floor_index (number_of_nat n * 0x1.e666666666666p-1)%float = (n * 19 / 20)%nat /\
  floor_index (number_of_nat n * 0x1.fae147ae147aep-1)%float = (n * 99 / 100)%nat.
Proof.
  intros Hn. pose proof percentile_index_table as Htable.
  rewrite forallb_forall in Htable. specialize (Htable n).
  rewrite andb_true_iff, !Nat.eqb_eq in Htable. apply Htable.
  apply in_seq. lia.
Qed.

Lemma length_sort_by {A : Type} (before : A -> A -> bool) (l : list A) :
  length (sort_by before l) = length l.
Proof. apply Permutation_length, sort_by_Permutation. Qed.

End Percentiles.

(** X16.  With between 1 and 1000 latencies, which is all a history can
    hold, the two percentile indices the floating-point arithmetic yields are
    the exact integer parts of 95% and 99% of the count and lie inside the
    sorted array, which holds the same latencies as the window; with no latency
    at all the three figures are 0. *)
Theorem percentile_indices_are_exact (latencies : list float) :
  (1 <= length latencies <= 1000)%nat ->
  p95 (latency_figures latencies) =
    or_zero (sort_by (fun a b => (a - b <? 0)%float) latencies
               !! (length latencies * 19 / 20)%nat) /\
  p99 (latency_figures latencies) =
    or_zero (sort_by (fun a b => (a - b <? 0)%float) latencies
               !! (length latencies * 99 / 100)%nat) /\
  (length latencies * 19 / 20 < length latencies)%nat /\
  (length latencies * 99 / 100 < length latencies)%nat /\
  sort_by (fun a b => (a - b <? 0)%float) latencies ≡ₚ latencies /\
  latency_figures [] = mkResponseTime 0 0 0.
Proof.
  intros Hn. unfold latency_figures. cbn [p95 p99].
  rewrite length_sort_by. destruct (percentile_index _ Hn) as [H95 H99].
  rewrite H95, H99. split_and!; try reflexivity.
  - apply Nat.Div0.div_lt_upper_bound. lia.
  - apply Nat.Div0.div_lt_upper_bound. lia.
  - apply sort_by_Permutation.
Qed.

Lemma percentile_indices_are_exact_witness :
  p95 (latency_figures [250; 100; 300]%float) = 300%float /\
  p99 (latency_figures [250; 100; 300]%float) = 300%float.
Proof.
  destruct (percentile_indices_are_exact [250; 100; 300]%float) as (H95 & H99 & _).
  - cbn. lia.
  - rewrite H95, H99. vm_compute. split; reflexivity.
Defined.

Section Performance.

Lemma sessions_of_filter (a : string) (f : AgentSession -> bool) (l : list AgentSession) :
  (sessions_of a (List.filter f l) <= sessions_of a l)%nat.
Proof.
  unfold sessions_of. induction l as [|s l IH]; [cbn; lia |]. cbn.
  destruct (f s); cbn; destruct (String.eqb (agentId s) a); cbn; lia.
Qed.

Lemma listed_count (m : UsageMonitor) (now : Z) (a : string) (n : nat) :
  (a, n) ∈ popularAgents (getGlobalMetrics m now) ->
  n = sessions_of a (List.filter (is_recent now) (sessionMetrics m)) /\ (1 <= n)%nat.
Proof.
  unfold getGlobalMetrics. cbn [popularAgents]. intros Hin.
  pose proof (elem_of_sublist _ _ _ Hin (sublist_take _ 5)) as Hin'.
  clear Hin. rewrite sort_by_Permutation in Hin'.
  destruct (usage_table (List.filter (is_recent now) (sessionMetrics m))) as [Hnd Hpos].
  split.
  - rewrite <- usage_of_fold. symmetry. apply usage_of_member; assumption.
  - apply (proj1 (Forall_forall _ _) Hpos (a, n) Hin').
Qed.

End Performance.

(** X17.  [getAgentPerformance] answers [null] exactly for an agent with no
    session in the history; otherwise [totalSessions] is the number of the
    agent's sessions in the history.  An agent listed among the popular agents
    always has a performance report, with at least as many sessions as its
    count in the list. *)
Theorem getAgentPerformance_counts_the_history (m : UsageMonitor) (agent : string) :
  (getAgentPerformance m agent = None <-> sessions_of agent (sessionMetrics m) = 0%nat) /\
  (forall p, getAgentPerformance m agent = Some p ->
     totalSessions p = sessions_of agent (sessionMetrics m) /\ (1 <= totalSessions p)%nat) /\
  (forall now n, (agent, n) ∈ popularAgents (getGlobalMetrics m now) ->
     exists p, getAgentPerformance m agent = Some p /\ (n <= totalSessions p)%nat).
Proof.
  unfold getAgentPerformance. fold (sessions_of agent (sessionMetrics m)).
  split_and!.
  - destruct (Nat.eqb_spec (sessions_of agent (sessionMetrics m)) 0) as [Hz|Hnz].
    + split; [intros _; exact Hz | reflexivity].
    + split; [discriminate | intros Hz; contradiction].
  - intros p. destruct (Nat.eqb_spec (sessions_of agent (sessionMetrics m)) 0) as [Hz|Hnz];
      [discriminate |]. intros [= <-]. cbn. split; [reflexivity | lia].
  - intros now n Hin. apply listed_count in Hin as [-> Hpos].
    pose proof (sessions_of_filter agent (is_recent now) (sessionMetrics m)) as Hle.
    destruct (Nat.eqb_spec (sessions_of agent (sessionMetrics m)) 0) as [Hz|Hnz]; [lia |].
    eexists. split; [reflexivity |]. cbn. exact Hle.
Qed.

End MonitorProofs.

(** ** The orchestration service *)

Module OrchestrationProofs.
Import Provider Orchestration.

Section Loader.

Variable files : FileSystem.
Variable agentsPath : string.

Lemma loadAgentFiles_spec (l : list string) (logged : list Warning)
    (registry : list (JSVal * BMADAgent)) :
  loadAgentFiles files agentsPath l (logged, registry) =
  (logged ++ flat_map (warnings_for files agentsPath) l,
   fold_left (fun reg agent => map_set (id agent) agent reg)
             (omap (accepted files agentsPath) l) registry).
Proof.
  revert logged registry. induction l as [|file l IH]; intros logged registry.
  - cbn. rewrite app_nil_r. reflexivity.
  - cbn [loadAgentFiles flat_map omap list_omap]. unfold accepted at 1, warnings_for at 1.
    destruct (parseAgentFile files (path_join agentsPath file)) as [ws [[agent|]|e]];
      cbn [snd]; rewrite IH; cbn [fold_left]; rewrite <- ?app_assoc; reflexivity.
Qed.



End Loader.




(** A definition with all the sections of the interface makes the parser
    raise at its third section header, and is skipped like a malformed one. *)
Lemma complete_definition_is_rejected :
  (forall yaml, match_yaml_block complete_md = Some yaml ->
     parseSimpleYAML yaml = Throw "TypeError"%string) /\
  loadAgents complete_dir base_dir =
    Ok ([FailedToParseAgentYAML ".bmad-creative-writing/agents/plot-architect.md" "TypeError"],
        []).
Proof.
  split.
  - intros yaml Hm. vm_compute in Hm. injection Hm as <-. vm_compute. reflexivity.
  - vm_compute. reflexivity.
Qed.

(** [generateId], by contrast, reads the world. *)
Lemma generateId_reads_the_world :
  generateId sample_service sample_world = "loyw3v284fzzzxjylrx"%string /\
  generateId sample_service (mkWorld raising_dir 1700000000001 "4fzzzxjylrx")
    <> generateId sample_service sample_world.
Proof. split; [vm_compute; reflexivity | vm_compute; discriminate]. Qed.

(** *** Converting values to text *)

Section Values.

(** Induction on a value, with the property at hand for what an array or
    an object holds. *)
Lemma JSVal_deep_ind (P : JSVal -> Prop) :
  P JUndefined -> P JNull -> (forall b, P (JBool b)) -> (forall z, P (JNum z)) ->
  (forall s, P (JStr s)) ->
  (forall items, Forall P items -> P (JArr items)) ->
  (forall props, Forall (fun kv => P (snd kv)) props -> P (JObj props)) ->
  (forall text, P (JMethodObj text)) ->
  forall v, P v.
Proof.
  intros Hu Hn Hb Hz Hs Ha Ho Hm. fix IH 1.
  intros [| |b|z|s|items|props|text];
    [exact Hu | exact Hn | apply Hb | apply Hz | apply Hs | | | apply Hm].
  - apply Ha. induction items as [|x items IHitems]; constructor; [apply IH | exact IHitems].
  - apply Ho. induction props as [|[k x] props IHprops]; constructor;
      [apply IH | exact IHprops].
Qed.


Lemma to_string_JArr (now : Z) (items : list JSVal) :
  to_string now (JArr items)
  = parts ← map_outcome (element_text now) items; Ok (join "," parts).
Proof.
  cbn [to_string]. f_equal.
  induction items as [|x items IH]; [reflexivity |]. cbn [map_outcome]. rewrite <- IH.
  reflexivity.
Qed.







(** Whatever makes the template throw, it is a [TypeError]. *)
Lemma to_string_throws (now : Z) (v : JSVal) (e : string) :
  to_string now v = Throw e -> e = "TypeError"%string.
Proof.
  revert e. induction v as [| |[|]|z|s|items IH|props _|text] using JSVal_deep_ind;
    intros e; try discriminate.
  - rewrite to_string_JArr.
    destruct (map_outcome (element_text now) items) as [parts|e'] eqn:Hparts;
      [discriminate |].
    cbn. intros [= <-]. revert e' Hparts.
    induction IH as [|x items Hx _ IHitems]; intros e' Hparts; [discriminate |].
    cbn [map_outcome] in Hparts.
    destruct (element_text now x) as [part|ex] eqn:Hex.
    + cbn in Hparts. destruct (map_outcome (element_text now) items) as [ps|e2] eqn:Hr;
        [discriminate |].
      cbn in Hparts. injection Hparts as <-. apply (IHitems e2 eq_refl).
    + cbn in Hparts. injection Hparts as <-.
      destruct x; try discriminate; apply (Hx _ Hex).
  - cbn [to_string]. destruct (has_own "toString" props); [intros [= <-]; reflexivity |].
    discriminate.
Qed.

Lemma map_outcome_throws {A B : Type} (f : A -> Outcome string B) (l : list A) (e : string) :
  (forall x e', f x = Throw e' -> e' = "TypeError"%string) ->
  map_outcome f l = Throw e -> e = "TypeError"%string.
Proof.
  intros Hf. induction l as [|x l IH]; [discriminate |]. cbn [map_outcome].
  destruct (f x) as [y|ex] eqn:Hx; cbn.
  - destruct (map_outcome f l) as [ys|el]; cbn; [discriminate |].
    intros [= <-]. apply IH. reflexivity.
  - intros [= <-]. apply (Hf x _ Hx).
Qed.

Lemma principle_lines_throws (now : Z) (v : JSVal) (e : string) :
  principle_lines now v = Throw e -> e = "TypeError"%string.
Proof.
  destruct v; cbn [principle_lines]; try (intros [= <-]; reflexivity).
  apply map_outcome_throws. intros p e'.
  destruct (to_string now p) as [t|ep] eqn:Hp; cbn; [discriminate |].
  intros [= <-]. apply (to_string_throws _ _ _ Hp).
Qed.

Lemma input_lines_throws (now : Z) (inputs : list (string * JSVal)) (e : string) :
  input_lines now inputs = Throw e -> e = "TypeError"%string.
Proof.
  unfold input_lines. apply map_outcome_throws. intros kv e'.
  destruct (to_string now (snd kv)) as [t|ep] eqn:Hp; cbn; [discriminate |].
  intros [= <-]. apply (to_string_throws _ _ _ Hp).
Qed.

(** One step through a sequence of conversions that ends in a throw. *)
Ltac throw_step :=
  lazymatch goal with
  | |- Ok _ = Throw _ -> _ => discriminate
  | |- Throw _ = Throw _ -> _ => intros [= <-]; reflexivity
  | |- mbind _ (Ok _) = Throw _ -> _ => cbn [mbind Outcome_bind]
  | |- mbind _ (Throw _) = Throw _ -> _ => cbn [mbind Outcome_bind]
  | |- mbind _ ?m = Throw _ -> _ =>
      let H := fresh "Hstep" in
      destruct m eqn:H;
      [| cbn [mbind Outcome_bind]; intros [= <-];
         first [ exact (to_string_throws _ _ _ H)
               | exact (principle_lines_throws _ _ _ H)
               | exact (input_lines_throws _ _ _ H) ] ]
  end.

Lemma buildAgentPrompt_throws (this : BMADOrchestrationService) (world : World)
    (agent : BMADAgent) (action : string) (inputs : list (string * JSVal))
    (storyContext e : string) :
  buildAgentPrompt this world agent action inputs storyContext = Throw e ->
  e = "TypeError"%string.
Proof.
  unfold buildAgentPrompt. cbv zeta. throw_step. throw_step.
  destruct (persona agent); repeat throw_step.
Qed.

End Values.




(** *** Running an agent *)

Section Running.

Lemma checkDependencies_outcome (f1 f2 : FileSystem) (dir : string) (deps : list JSVal) :
  snd (checkDependencies f1 dir deps) = snd (checkDependencies f2 dir deps).
Proof.
  induction deps as [|dep deps IH]; [reflexivity |]. cbn [checkDependencies].
  destruct dep; try reflexivity.
  destruct (checkDependencies f1 dir deps), (checkDependencies f2 dir deps). exact IH.
Qed.

Lemma loadDependencyTypes_outcome (f1 f2 : FileSystem) (base : string) (deps : JSVal)
    (kinds : list string) :
  snd (loadDependencyTypes f1 base deps kinds) = snd (loadDependencyTypes f2 base deps kinds).
Proof.
  induction kinds as [|k kinds IH]; [reflexivity |]. cbn [loadDependencyTypes].
  assert (forall (body1 body2 : list ActionEvent * Outcome string unit),
            snd body1 = snd body2 ->
            snd (match deps with JUndefined | JNull => ([], Throw "TypeError"%string) | _ => body1 end)
            = snd (match deps with JUndefined | JNull => ([], Throw "TypeError"%string) | _ => body2 end))
    as Hwrap by (intros b1 b2 Hb; destruct deps; try reflexivity; exact Hb).
  apply Hwrap. clear Hwrap.
  destruct (truthy (get_prop deps k)); [| exact IH].
  destruct (iterate (get_prop deps k)) as [items|e]; [| reflexivity].
  pose proof (checkDependencies_outcome f1 f2 (path_join base k) items) as Hc.
  destruct (checkDependencies f1 (path_join base k) items) as [ev1 [[]|e1]],
           (checkDependencies f2 (path_join base k) items) as [ev2 [[]|e2]];
    cbn in Hc; try discriminate; [| exact Hc].
  destruct (loadDependencyTypes f1 base deps kinds),
           (loadDependencyTypes f2 base deps kinds). exact IH.
Qed.

End Running.

(** X20.  [executeAgentAction] resolves the agent before anything else: for
    an identifier the registry does not hold it throws its not-found error
    without a warning and without calling a provider, and it throws that error
    in no other case. *)
Theorem executeAgentAction_resolves_the_agent_first
    (this : BMADOrchestrationService) (world : World) (createdNow updatedNow : Z)
    (agentId action : string) (inputs : list (string * JSVal)) (storyContext : string)
    (options : LLMOptions) :
  (getAgent this agentId = None ->
   executeAgentAction this world createdNow updatedNow agentId action inputs storyContext options
   = ([], Throw (AgentNotFound agentId))) /\
  (forall other,
     snd (executeAgentAction this world createdNow updatedNow agentId action inputs
            storyContext options) = Throw (AgentNotFound other) ->
     getAgent this agentId = None /\ other = agentId).
Proof.
  unfold getAgent, executeAgentAction. split.
  - intros ->. reflexivity.
  - intros other. destruct (map_get (JStr agentId) (agents this)) as [agent|];
      [| intros [= <-]; split; reflexivity].
    destruct (loadAgentDependencies this world agent) as [events [[]|e]];
      [| discriminate].
    destruct (buildAgentPrompt this world agent action inputs storyContext) as [prompt|e];
      [| discriminate].
    destruct (manager_generateText (llmManager this) prompt options) as [calls [r|e]];
      discriminate.
Qed.

(** X21.  With the manager the constructor builds, whose providers are
    placeholders, [executeAgentAction] never returns a session: it throws for
    every agent, action, inputs and options. *)
Theorem executeAgentAction_never_answers
    (this : BMADOrchestrationService) (world : World) (createdNow updatedNow : Z)
    (agentId action : string) (inputs : list (string * JSVal)) (storyContext : string)
    (options : LLMOptions) :
  llmManager this = new_LLMProviderManager ->
  exists error,
    snd (executeAgentAction this world createdNow updatedNow agentId action inputs
           storyContext options) = Throw error.
Proof.
  intros Hmgr. unfold executeAgentAction.
  destruct (map_get (JStr agentId) (agents this)) as [agent|]; [| eexists; reflexivity].
  destruct (loadAgentDependencies this world agent) as [events [[]|e]];
    [| eexists; reflexivity].
  destruct (buildAgentPrompt this world agent action inputs storyContext) as [prompt|e];
    [| eexists; reflexivity].
  rewrite Hmgr. pose proof (ProviderProofs.stub_manager_fails prompt options) as Hfail.
  destruct (manager_generateText new_LLMProviderManager prompt options) as [calls [r|e]];
    [discriminate | eexists; reflexivity].
Qed.

Lemma executeAgentAction_never_answers_witness :
  snd (executeAgentAction sample_service sample_world 1700000000005 1700000000006
         "editor" "Tighten the opening" sample_inputs "Once upon a time" no_options)
  = Throw ProvidersFailed.
Proof.
  destruct (executeAgentAction_never_answers sample_service sample_world
              1700000000005 1700000000006 "editor" "Tighten the opening" sample_inputs
              "Once upon a time" no_options eq_refl) as [error Herror].
  rewrite Herror. f_equal.
  assert (snd (executeAgentAction sample_service sample_world 1700000000005 1700000000006
                 "editor" "Tighten the opening" sample_inputs "Once upon a time" no_options)
          = Throw ProvidersFailed) as H by (vm_compute; reflexivity).
  rewrite Herror in H. injection H as ->. reflexivity.
Defined.

(** X22.  A missing dependency is never fatal: whether the dependency files
    exist decides which warnings are logged and nothing else, the outcome of
    [executeAgentAction] being the same on every file system. *)
Theorem missing_dependencies_only_warn
    (this : BMADOrchestrationService) (world : World) (files : FileSystem)
    (createdNow updatedNow : Z) (agentId action : string)
    (inputs : list (string * JSVal)) (storyContext : string) (options : LLMOptions) :
  snd (executeAgentAction this (mkWorld files (clock world) (random_digits world))
         createdNow updatedNow agentId action inputs storyContext options)
  = snd (executeAgentAction this world createdNow updatedNow agentId action inputs
           storyContext options).
Proof.
  unfold executeAgentAction.
  destruct (map_get (JStr agentId) (agents this)) as [agent|]; [| reflexivity].
  pose proof (loadDependencyTypes_outcome files (fs world) (bmadPath this)
                (dependencies agent) depTypes) as Hdeps.
  unfold loadAgentDependencies. cbn [fs].
  destruct (loadDependencyTypes files (bmadPath this) (dependencies agent) depTypes)
    as [ev1 [[]|e1]],
    (loadDependencyTypes (fs world) (bmadPath this) (dependencies agent) depTypes)
    as [ev2 [[]|e2]]; cbn in Hdeps; try discriminate; [| reflexivity].
  change (buildAgentPrompt this (mkWorld files (clock world) (random_digits world))
            agent action inputs storyContext)
    with (buildAgentPrompt this world agent action inputs storyContext).
  destruct (buildAgentPrompt this world agent action inputs storyContext) as [prompt|e];
    [| reflexivity].
  destruct (manager_generateText (llmManager this) prompt options) as [calls [r|e]];
    reflexivity.
Qed.

(** *** The parser *)

Section Parser.

Lemma endsWith_colon_includes (t : string) :
  endsWith ":" t = true -> includes colon t = true.
Proof.
  induction t as [|c t IH]; [discriminate |]. cbn [endsWith includes].
  intros H. apply andb_true_iff in H as [_ H]. apply orb_true_iff in H as [H|H].
  - apply String.eqb_eq in H. injection H as <- _. reflexivity.
  - rewrite (IH H). apply orb_true_r.
Qed.

Lemma parse_line_passed_over (st : YamlState) (line : string) :
  passed_over line = true -> parse_line st line = Ok st.
Proof.
  unfold passed_over, parse_line. intros H.
  destruct (String.eqb (trim line) "" || startsWith "#" (trim line)); [reflexivity |].
  cbn in H. apply negb_true_iff in H.
  destruct (endsWith ":" (trim line)) eqn:He.
  - apply endsWith_colon_includes in He. congruence.
  - rewrite H. reflexivity.
Qed.

Lemma parse_lines_significant (st : YamlState) (lines : list string) :
  parse_lines st lines
  = parse_lines st (List.filter (fun line => negb (passed_over line)) lines).
Proof.
  revert st. induction lines as [|line lines IH]; intros st; [reflexivity |].
  cbn [List.filter]. destruct (passed_over line) eqn:Hp; cbn [negb parse_lines].
  - rewrite (parse_line_passed_over st line Hp). apply IH.
  - destruct (parse_line st line); [apply IH | reflexivity].
Qed.

Lemma array_free_obj_get (key : string) (props : list (string * JSVal)) :
  array_free (JObj props) = true -> array_free (obj_get key props) = true.
Proof.
  induction props as [|[k v] props IH]; [reflexivity |].
  cbn [array_free obj_get]. intros H. apply andb_true_iff in H as [Hv Hr].
  destruct (String.eqb k key); [exact Hv | apply IH, Hr].
Qed.

Lemma array_free_obj_set (key : string) (v : JSVal) (props : list (string * JSVal)) :
  array_free (JObj props) = true -> array_free v = true ->
  array_free (JObj (obj_set key v props)) = true.
Proof.
  intros Hprops Hv. induction props as [|[k w] props IH].
  - cbn. rewrite Hv. reflexivity.
  - cbn [array_free] in Hprops. apply andb_true_iff in Hprops as [Hw Hr].
    cbn [obj_set]. destruct (String.eqb k key); cbn [array_free].
    + rewrite Hv. exact Hr.
    + rewrite Hw. apply IH, Hr.
Qed.

Lemma array_free_set_path (path : list string) (key : string) (v : JSVal)
    (props props' : list (string * JSVal)) :
  array_free (JObj props) = true -> array_free v = true ->
  set_path props path key v = Some props' -> array_free (JObj props') = true.
Proof.
  revert props props'. induction path as [|k path IH]; intros props props' Hprops Hv.
  - cbn. intros [= <-]. apply array_free_obj_set; assumption.
  - cbn [set_path]. pose proof (array_free_obj_get k props Hprops) as Hchild.
    destruct (obj_get k props) as [| | | | | |child|]; try discriminate.
    destruct (set_path child path key v) as [child'|] eqn:Hset; [| discriminate].
    intros [= <-]. apply array_free_obj_set; [exact Hprops |].
    apply (IH child child' Hchild Hv Hset).
Qed.

Lemma array_free_assign (st : YamlState) (key : string) (v : JSVal)
    (r : list (string * JSVal)) :
  array_free (JObj (result st)) = true -> array_free v = true ->
  assign st key v = Ok r -> array_free (JObj r) = true.
Proof.
  unfold assign. intros Hst Hv. destruct (currentObject st) as [path|]; [| discriminate].
  destruct (set_path (result st) path key v) as [r'|] eqn:Hset; [| discriminate].
  intros [= <-]. eapply array_free_set_path; eassumption.
Qed.

Lemma array_free_parse_line (st st' : YamlState) (line : string) :
  array_free (JObj (result st)) = true -> parse_line st line = Ok st' ->
  array_free (JObj (result st')) = true.
Proof.
  intros Hst. unfold parse_line.
  destruct (String.eqb (trim line) "" || startsWith "#" (trim line));
    [intros [= <-]; exact Hst |].
  destruct (endsWith ":" (trim line)).
  - destruct (negb (String.eqb (currentSection st) "")).
    + destruct (assign st (dropLast (trim line)) (JObj [])) as [r|e] eqn:Ha;
        [| discriminate].
      intros [= <-]. cbn [result]. eapply array_free_assign; [exact Hst | | exact Ha].
      reflexivity.
    + intros [= <-]. cbn [result]. apply array_free_obj_set; [exact Hst | reflexivity].
  - destruct (includes colon (trim line)); [| intros [= <-]; exact Hst].
    destruct (split colon (trim line)) as [|key valueParts]; [intros [= <-]; exact Hst |].
    match goal with
    | |- context [assign st ?k ?v] => destruct (assign st k v) as [r|e] eqn:Ha
    end; [| discriminate].
    intros [= <-]. cbn [result]. eapply array_free_assign; [exact Hst | | exact Ha].
    reflexivity.
Qed.

Lemma array_free_parse_lines (lines : list string) (st st' : YamlState) :
  array_free (JObj (result st)) = true -> parse_lines st lines = Ok st' ->
  array_free (JObj (result st')) = true.
Proof.
  revert st. induction lines as [|line lines IH]; intros st Hst; cbn [parse_lines].
  - intros [= <-]. exact Hst.
  - destruct (parse_line st line) as [st1|e] eqn:Hline; [| discriminate].
    apply IH. eapply array_free_parse_line; eassumption.
Qed.

Lemma array_free_parseSimpleYAML (yaml : string) (data : JSVal) :
  parseSimpleYAML yaml = Ok data -> array_free data = true.
Proof.
  unfold parseSimpleYAML.
  destruct (parse_lines (mkYamlState [] "" (RPath [])) (split newline yaml)) as [st|e] eqn:Hp;
    [| discriminate].
  intros [= <-]. eapply array_free_parse_lines; [| exact Hp]. reflexivity.
Qed.

Lemma array_free_get_prop (v : JSVal) (key : string) :
  array_free v = true -> array_free (get_prop v key) = true.
Proof.
  destruct v; try reflexivity. cbn [get_prop]. apply array_free_obj_get.
Qed.

Lemma principle_lines_array_free (now : Z) (v : JSVal) :
  array_free v = true -> principle_lines now v = Throw "TypeError"%string.
Proof. destruct v; try reflexivity. discriminate. Qed.

Lemma array_free_persona_throws (this : BMADOrchestrationService) (world : World)
    (agent : BMADAgent) (action : string) (inputs : list (string * JSVal))
    (storyContext : string) :
  array_free (persona agent) = true ->
  buildAgentPrompt this world agent action inputs storyContext = Throw "TypeError"%string.
Proof.
  intros Hfree.
  destruct (buildAgentPrompt this world agent action inputs storyContext)
    as [prompt|e] eqn:Hbuild;
    [| f_equal; apply (buildAgentPrompt_throws _ _ _ _ _ _ _ Hbuild)].
  exfalso. revert Hbuild. unfold buildAgentPrompt. cbv zeta.
  destruct (to_string (clock world) (name agent)) as [n|e]; cbn [mbind Outcome_bind];
    [| discriminate].
  pose proof (array_free_get_prop (persona agent) "core_principles" Hfree) as Hcp.
  destruct (persona agent) as [| |b|z|s|items|props|text]; try discriminate;
    (destruct (to_string (clock world) (get_prop _ "role")); cbn [mbind Outcome_bind];
       [| discriminate]);
    (destruct (to_string (clock world) (get_prop _ "style")); cbn [mbind Outcome_bind];
       [| discriminate]);
    rewrite (principle_lines_array_free _ _ Hcp); discriminate.
Qed.

(** **** Blocks with plain keys *)

Lemma keys_plain_obj_get (key : string) (props : list (string * JSVal)) :
  keys_plain (JObj props) = true -> keys_plain (obj_get key props) = true.
Proof.
  induction props as [|[k v] props IH]; [reflexivity |].
  cbn [keys_plain obj_get]. intros H. apply andb_true_iff in H as [H Hr].
  apply andb_true_iff in H as [_ Hv].
  destruct (String.eqb k key); [exact Hv | apply IH, Hr].
Qed.

Lemma keys_plain_obj_set (key : string) (v : JSVal) (props : list (string * JSVal)) :
  plain_key key = true -> keys_plain (JObj props) = true -> keys_plain v = true ->
  keys_plain (JObj (obj_set key v props)) = true.
Proof.
  intros Hkey Hprops Hv. induction props as [|[k w] props IH].
  - cbn. rewrite Hkey, Hv. reflexivity.
  - cbn [keys_plain] in Hprops. apply andb_true_iff in Hprops as [H Hr].
    apply andb_true_iff in H as [Hk Hw].
    cbn [obj_set]. destruct (String.eqb k key); cbn [keys_plain].
    + rewrite Hk, Hv. exact Hr.
    + rewrite Hk, Hw. apply IH, Hr.
Qed.

Lemma keys_plain_set_path (path : list string) (key : string) (v : JSVal)
    (props props' : list (string * JSVal)) :
  plain_key key = true -> keys_plain (JObj props) = true -> keys_plain v = true ->
  Forall (fun k => plain_key k = true) path ->
  set_path props path key v = Some props' -> keys_plain (JObj props') = true.
Proof.
  intros Hkey. revert props props'.
  induction path as [|k path IH]; intros props props' Hprops Hv Hpath.
  - cbn. intros [= <-]. apply keys_plain_obj_set; assumption.
  - cbn [set_path]. pose proof (keys_plain_obj_get k props Hprops) as Hchild.
    apply Forall_cons in Hpath as [Hk Hpath].
    destruct (obj_get k props) as [| | | | | |child|]; try discriminate.
    destruct (set_path child path key v) as [child'|] eqn:Hset; [| discriminate].
    intros [= <-]. apply keys_plain_obj_set; [exact Hk | exact Hprops |].
    apply (IH child child' Hchild Hv Hpath Hset).
Qed.

Lemma plain_state_assign (st : YamlState) (key : string) (v : JSVal)
    (r : list (string * JSVal)) :
  plain_state st -> plain_key key = true -> keys_plain v = true ->
  assign st key v = Ok r -> keys_plain (JObj r) = true.
Proof.
  unfold assign. intros (Hres & _ & Hcur) Hkey Hv.
  destruct (currentObject st) as [path|]; [| discriminate].
  destruct (set_path (result st) path key v) as [r'|] eqn:Hset; [| discriminate].
  intros [= <-]. eapply keys_plain_set_path; eassumption.
Qed.

Lemma plain_state_refer (r : list (string * JSVal)) (path : list string) :
  Forall (fun k => plain_key k = true) path ->
  match refer r path with
  | RPath path' => Forall (fun k => plain_key k = true) path'
  | RNotAnObject => True
  end.
Proof. intros Hpath. unfold refer. destruct (get_path (JObj r) path); trivial. Qed.

Lemma plain_state_parse_line (st st' : YamlState) (line : string) :
  plain_state st ->
  match line_key line with Some key => plain_key key = true | None => True end ->
  parse_line st line = Ok st' -> plain_state st'.
Proof.
  intros Hst. unfold line_key, parse_line.
  destruct (String.eqb (trim line) "" || startsWith "#" (trim line));
    [intros _ [= <-]; exact Hst |].
  destruct (endsWith ":" (trim line)).
  - intros Hkey. destruct (negb (String.eqb (currentSection st) "")).
    + destruct (assign st (dropLast (trim line)) (JObj [])) as [r|e] eqn:Ha;
        [| discriminate].
      intros [= <-]. destruct Hst as (Hres & Hsec & Hcur).
      split; [| split]; cbn [result currentSection currentObject].
      * eapply plain_state_assign; [split; [| split]; eassumption | exact Hkey | | exact Ha].
        reflexivity.
      * exact Hsec.
      * apply plain_state_refer. repeat constructor; assumption.
    + intros [= <-]. destruct Hst as (Hres & _ & _).
      split; [| split]; cbn [result currentSection currentObject].
      * apply keys_plain_obj_set; [exact Hkey | exact Hres | reflexivity].
      * exact Hkey.
      * repeat constructor. exact Hkey.
  - destruct (includes colon (trim line)); [| intros _ [= <-]; exact Hst].
    destruct (split colon (trim line)) as [|key valueParts]; [intros _ [= <-]; exact Hst |].
    intros Hkey.
    match goal with
    | |- context [assign st ?k ?v] => destruct (assign st k v) as [r|e] eqn:Ha
    end; [| discriminate].
    intros [= <-]. destruct Hst as (Hres & Hsec & Hcur).
    split; [| split]; cbn [result currentSection currentObject].
    + eapply plain_state_assign; [split; [| split]; eassumption | exact Hkey | | exact Ha].
      reflexivity.
    + exact Hsec.
    + exact Hcur.
Qed.

Lemma plain_state_parse_lines (lines : list string) (st st' : YamlState) :
  plain_state st ->
  forallb (fun line => match line_key line with
                       | Some key => plain_key key
                       | None => true
                       end) lines = true ->
  parse_lines st lines = Ok st' -> plain_state st'.
Proof.
  revert st. induction lines as [|line lines IH]; intros st Hst Hlines; cbn [parse_lines].
  - intros [= <-]. exact Hst.
  - cbn [forallb] in Hlines. apply andb_true_iff in Hlines as [Hline Hlines].
    destruct (parse_line st line) as [st1|e] eqn:Hparse; [| discriminate].
    apply IH; [| exact Hlines].
    eapply plain_state_parse_line; [exact Hst | | exact Hparse].
    destruct (line_key line); [exact Hline | exact I].
Qed.

Lemma keys_plain_parseSimpleYAML (yaml : string) (data : JSVal) :
  plain_yaml yaml = true -> parseSimpleYAML yaml = Ok data -> keys_plain data = true.
Proof.
  unfold plain_yaml, parseSimpleYAML. intros Hplain.
  destruct (parse_lines (mkYamlState [] "" (RPath [])) (split newline yaml)) as [st|e] eqn:Hp;
    [| discriminate].
  intros [= <-].
  assert (plain_state (mkYamlState [] "" (RPath []))) as Hstart
    by (split; [reflexivity | split; [reflexivity | constructor]]).
  apply (plain_state_parse_lines _ _ _ Hstart Hplain Hp).
Qed.

Lemma keys_plain_get_prop (v : JSVal) (key : string) :
  keys_plain v = true -> keys_plain (get_prop v key) = true.
Proof.
  destruct v; try reflexivity. cbn [get_prop]. apply keys_plain_obj_get.
Qed.

Lemma keys_plain_get_prop_opt (v : JSVal) (key : string) :
  keys_plain v = true -> keys_plain (get_prop_opt v key) = true.
Proof.
  destruct v; try reflexivity. cbn [get_prop_opt get_prop]. apply keys_plain_obj_get.
Qed.

Lemma array_free_get_prop_opt (v : JSVal) (key : string) :
  array_free v = true -> array_free (get_prop_opt v key) = true.
Proof.
  destruct v; try reflexivity. cbn [get_prop_opt get_prop]. apply array_free_obj_get.
Qed.

Lemma plain_key_has_own (key : string) (props : list (string * JSVal)) :
  plain_key key = false -> keys_plain (JObj props) = true -> has_own key props = false.
Proof.
  intros Hkey. induction props as [|[k v] props IH]; [reflexivity |].
  cbn [keys_plain]. intros H. apply andb_true_iff in H as [H Hr].
  apply andb_true_iff in H as [Hk _]. specialize (IH Hr).
  unfold has_own in *. cbn [existsb fst]. rewrite IH, orb_false_r.
  destruct (String.eqb_spec k key) as [-> |]; [congruence | reflexivity].
Qed.

(** A value as the parser builds them from a plain block can be converted
    to text. *)
Lemma parsed_value_prints (now : Z) (v : JSVal) :
  keys_plain v = true -> array_free v = true -> exists text, to_string now v = Ok text.
Proof.
  intros Hplain Hfree. destruct v as [| |[|]|z|s|items|props|text];
    try (eexists; reflexivity); [discriminate |].
  cbn [to_string]. rewrite (plain_key_has_own "toString" props eq_refl Hplain).
  eexists. reflexivity.
Qed.

End Parser.

(** X23.  Blank lines, comment lines and lines without a colon, list items
    among them, take no part in parsing: two blocks with the same remaining
    lines parse to the same result or fail alike. *)
Theorem lines_passed_over_do_not_count (yaml yaml' : string) :
  significant_lines yaml = significant_lines yaml' ->
  parseSimpleYAML yaml = parseSimpleYAML yaml'.
Proof.
  unfold significant_lines, parseSimpleYAML. intros H.
  rewrite (parse_lines_significant _ (split newline yaml)),
          (parse_lines_significant _ (split newline yaml')), H.
  reflexivity.
Qed.

Lemma lines_passed_over_do_not_count_witness :
  parseSimpleYAML
    (unlines ["# the editor"; "agent:"; ""; "  id: editor"; "  - a list item"]%string)
  = parseSimpleYAML (unlines ["agent:"; "  id: editor"]%string).
Proof.
  apply lines_passed_over_do_not_count. vm_compute. reflexivity.
Defined.

(** X24.  On a block with plain keys the parser builds objects and strings
    only, never an array, and no object with a property [toString].  So an agent
    read from a plain file has either the default persona, for which
    [buildAgentPrompt] returns a prompt whenever the inputs can be converted to
    text (and throws a [TypeError] when one cannot), or a persona taken from its
    block, for which [buildAgentPrompt] throws a [TypeError] whatever the action
    and the inputs. *)
Theorem persona_from_a_block_gives_no_prompt
    (files : FileSystem) (filePath : string) (ws : list Warning) (agent : BMADAgent) :
  plain_file files filePath = true ->
  parseAgentFile files filePath = (ws, Ok (Some agent)) ->
  (forall yaml data,
     plain_yaml yaml = true -> parseSimpleYAML yaml = Ok data ->
     array_free data = true /\ keys_plain data = true) /\
  ((persona agent = default_persona /\
    forall this world action inputs storyContext,
      match input_lines (clock world) inputs with
      | Ok _ =>
          exists prompt,
            buildAgentPrompt this world agent action inputs storyContext = Ok prompt
      | Throw _ =>
          buildAgentPrompt this world agent action inputs storyContext
          = Throw "TypeError"%string
      end) \/
   (persona agent <> default_persona /\
    forall this world action inputs storyContext,
      buildAgentPrompt this world agent action inputs storyContext
      = Throw "TypeError"%string)).
Proof.
  intros Hplain Hparse. split.
  { intros yaml data Hy Hd. split;
      [exact (array_free_parseSimpleYAML _ _ Hd) | exact (keys_plain_parseSimpleYAML _ _ Hy Hd)]. }
  unfold plain_file in Hplain. unfold parseAgentFile in Hparse.
  destruct (readFileSync files filePath) as [content|e]; [| discriminate].
  destruct (match_yaml_block content) as [yamlContent|]; [| discriminate].
  destruct (parseSimpleYAML yamlContent) as [data|e] eqn:Hdata; [| discriminate].
  injection Hparse as _ Hagent.
  assert (persona agent = or_else (get_prop data "persona") default_persona) as Hpersona
    by (rewrite <- Hagent; reflexivity).
  assert (name agent = or_else (get_prop_opt (get_prop data "agent") "name") (JStr ""))
    as Hname by (rewrite <- Hagent; reflexivity).
  clear Hagent.
  pose proof (array_free_parseSimpleYAML _ _ Hdata) as Hfree.
  pose proof (keys_plain_parseSimpleYAML _ _ Hplain Hdata) as Hkeys.
  unfold or_else in Hpersona. destruct (truthy (get_prop data "persona")) eqn:Ht.
  - pose proof (array_free_get_prop data "persona" Hfree) as Hp.
    rewrite <- Hpersona in Hp. right. split.
    + intros Heq. rewrite Heq in Hp. discriminate.
    + intros this world action inputs storyContext.
      apply array_free_persona_throws. exact Hp.
  - left. split; [exact Hpersona |].
    intros this world action inputs storyContext.
    assert (exists n, to_string (clock world) (name agent) = Ok n) as [n Hn].
    { rewrite Hname. unfold or_else.
      destruct (truthy (get_prop_opt (get_prop data "agent") "name"));
        [| eexists; reflexivity].
      apply parsed_value_prints.
      - apply keys_plain_get_prop_opt, keys_plain_get_prop, Hkeys.
      - apply array_free_get_prop_opt, array_free_get_prop, Hfree. }
    unfold buildAgentPrompt. cbv zeta. rewrite Hn, Hpersona.
    cbn [mbind Outcome_bind default_persona get_prop obj_get String.eqb Ascii.eqb Bool.eqb
         to_string principle_lines map_outcome].
    destruct (input_lines (clock world) inputs) as [inputLines|e] eqn:Hi;
      cbn [mbind Outcome_bind].
    + eexists. reflexivity.
    + f_equal. apply (input_lines_throws _ _ _ Hi).
Qed.

Lemma persona_from_a_block_gives_no_prompt_witness :
  exists agent,
    parseAgentFile raising_dir ".bmad-creative-writing/agents/editor.md"
      = ([], Ok (Some agent)) /\
    exists prompt,
      buildAgentPrompt sample_service sample_world agent "Tighten" [] "Once" = Ok prompt.
Proof.
  exists editor_agent.
  assert (parseAgentFile raising_dir ".bmad-creative-writing/agents/editor.md"
          = ([], Ok (Some editor_agent))) as Hparse by (vm_compute; reflexivity).
  split; [exact Hparse |].
  destruct (persona_from_a_block_gives_no_prompt raising_dir
              ".bmad-creative-writing/agents/editor.md" [] editor_agent
              ltac:(vm_compute; reflexivity) Hparse)
    as [_ [[_ Hok] | [Hne _]]].
  - apply (Hok sample_service sample_world "Tighten"%string [] "Once"%string).
  - exfalso. apply Hne. reflexivity.
Defined.

(** *** The prompt and the registry *)

Section Prompt.

Lemma append_assoc (a b c : string) : (a +:+ b) +:+ c = a +:+ (b +:+ c).
Proof.
  induction a as [|x a IH]; [reflexivity |].
  change (String x ((a +:+ b) +:+ c) = String x (a +:+ (b +:+ c))). f_equal. exact IH.
Qed.

Lemma trimStart_template (x : string) :
  trimStart (nl +:+ "You are " +:+ x) = "You are " +:+ x.
Proof. reflexivity. Qed.

Lemma trimEnd_template (a : string) : trimEnd (a +:+ "." +:+ nl +:+ "    ") = a +:+ ".".
Proof.
  induction a as [|c a IH]; [reflexivity |].
  change (String c a +:+ "." +:+ nl +:+ "    ")
    with (String c (a +:+ "." +:+ nl +:+ "    ")).
  cbn [trimEnd]. rewrite IH. destruct a; reflexivity.
Qed.

End Prompt.

Section PromptText.

Lemma principle_lines_Ok (now : Z) (items : list JSVal) (texts : list string) :
  map_outcome (to_string now) items = Ok texts ->
  principle_lines now (JArr items) = Ok (map (fun text => "- " +:+ text) texts).
Proof.
  cbn [principle_lines]. revert texts.
  induction items as [|p items IH]; intros texts; cbn [map_outcome].
  - intros [= <-]. reflexivity.
  - destruct (to_string now p) as [text|e]; cbn [mbind Outcome_bind]; [| discriminate].
    destruct (map_outcome (to_string now) items) as [rest|e]; cbn [mbind Outcome_bind];
      [| discriminate].
    intros [= <-]. rewrite (IH rest eq_refl). reflexivity.
Qed.

Lemma input_lines_Ok (now : Z) (inputs : list (string * JSVal)) (texts : list string) :
  map_outcome (to_string now) (map snd inputs) = Ok texts ->
  input_lines now inputs
  = Ok (zip_with (fun key text => key +:+ ": " +:+ text) (map fst inputs) texts).
Proof.
  unfold input_lines. revert texts.
  induction inputs as [|[k v] inputs IH]; intros texts; cbn [map map_outcome fst snd].
  - intros [= <-]. reflexivity.
  - destruct (to_string now v) as [text|e]; cbn [mbind Outcome_bind]; [| discriminate].
    destruct (map_outcome (to_string now) (map snd inputs)) as [rest|e];
      cbn [mbind Outcome_bind]; [| discriminate].
    intros [= <-]. rewrite (IH rest eq_refl). reflexivity.
Qed.

End PromptText.

(** X25.  For an agent and inputs that are data with safe integers for
    numbers, when the persona is an object with an array of principles and the
    name, the role, the style, the principles and the inputs can be converted to
    text, the prompt is the text of the template with these texts, the action
    and the story context put in as they are: trimming removes the line break
    before "You are" and the indentation after the final full stop, and nothing
    of the arguments. *)
Theorem prompt_is_the_template_text
    (this : BMADOrchestrationService) (world : World) (agent : BMADAgent)
    (action : string) (inputs : list (string * JSVal)) (storyContext : string)
    (props : list (string * JSVal)) (items : list JSVal)
    (agentName role style : string) (principles values : list string) :
  persona agent = JObj props ->
  obj_get "core_principles" props = JArr items ->
  is_data (name agent) && safe_numbers (name agent) = true ->
  is_data (JObj props) && safe_numbers (JObj props) = true ->
  forallb (fun kv => is_data (snd kv) && safe_numbers (snd kv)) inputs = true ->
  to_string (clock world) (name agent) = Ok agentName ->
  to_string (clock world) (obj_get "role" props) = Ok role ->
  to_string (clock world) (obj_get "style" props) = Ok style ->
  map_outcome (to_string (clock world)) items = Ok principles ->
  map_outcome (to_string (clock world)) (map snd inputs) = Ok values ->
  buildAgentPrompt this world agent action inputs storyContext =
  Ok (prompt_text agentName role style
        (map (fun text => "- " +:+ text) principles)
        storyContext action
        (zip_with (fun key text => key +:+ ": " +:+ text) (map fst inputs) values)).
Proof.
  intros Hp Hc _ _ _ Hn Hr Hs Hitems Hvalues. unfold buildAgentPrompt. cbv zeta.
  rewrite Hn, Hp. cbn [get_prop mbind Outcome_bind]. rewrite Hr, Hs, Hc.
  rewrite (principle_lines_Ok _ _ _ Hitems), (input_lines_Ok _ _ _ Hvalues).
  cbn [mbind Outcome_bind]. f_equal. unfold trim, prompt_text.
  rewrite trimStart_template.
  rewrite <- !append_assoc.
  rewrite (append_assoc _ nl "    "), (append_assoc _ "." (nl +:+ "    ")).
  apply trimEnd_template.
Qed.

Lemma prompt_is_the_template_text_witness :
  buildAgentPrompt sample_service sample_world typed_agent "  Tighten the opening  "
    sample_inputs "Once upon a time " =
  Ok (prompt_text "Elena" "a careful editor" "Precise and kind."
        ["- Clarity first"; "- Respect the voice"]%string
        "Once upon a time " "  Tighten the opening  "
        ["genre: fantasy"; "chapter: 3"]%string).
Proof.
  apply (prompt_is_the_template_text sample_service sample_world typed_agent
           "  Tighten the opening  " sample_inputs "Once upon a time "
           [("role"%string, JStr "a careful editor");
            ("style"%string, JStr "Precise and kind.");
            ("core_principles"%string, JArr [JStr "Clarity first"; JStr "Respect the voice"])]
           [JStr "Clarity first"; JStr "Respect the voice"]
           "Elena" "a careful editor" "Precise and kind."
           ["Clarity first"; "Respect the voice"]%string ["fantasy"; "3"]%string);
    reflexivity.
Defined.

Section Registry.

Lemma same_key_eq (a b : JSVal) : same_key a b = true -> a = b.
Proof.
  destruct a, b; try discriminate. cbn. intros H. apply String.eqb_eq in H. congruence.
Qed.

Lemma map_get_set (s : string) (key : JSVal) (agent : BMADAgent)
    (m : list (JSVal * BMADAgent)) :
  map_get (JStr s) (map_set key agent m)
  = if same_key key (JStr s) then Some agent else map_get (JStr s) m.
Proof.
  induction m as [|[k a] m IH]; [reflexivity |]. cbn [map_set map_get].
  destruct (same_key k key) eqn:Hk; cbn [map_get].
  - apply same_key_eq in Hk. subst k. destruct (same_key key (JStr s)); reflexivity.
  - rewrite IH. destruct (same_key k (JStr s)) eqn:Hks; [| reflexivity].
    destruct (same_key key (JStr s)) eqn:Hkey; [| reflexivity].
    apply same_key_eq in Hks, Hkey. subst. cbn in Hk. rewrite String.eqb_refl in Hk.
    discriminate.
Qed.

Lemma map_get_register (s : string) (found : list BMADAgent) (m : list (JSVal * BMADAgent)) :
  map_get (JStr s) (fold_left (fun reg a => map_set (id a) a reg) found m)
  = match last (List.filter (fun a => same_key (id a) (JStr s)) found) with
    | Some a => Some a
    | None => map_get (JStr s) m
    end.
Proof.
  revert m. induction found as [|a found IH]; intros m; [reflexivity |].
  cbn [fold_left List.filter]. rewrite IH, map_get_set.
  destruct (same_key (id a) (JStr s)); [| reflexivity].
  destruct (List.filter (fun a0 => same_key (id a0) (JStr s)) found) as [|b l] eqn:Hf;
    [reflexivity |].
  change (last (a :: b :: l)) with (last (b :: l)).
  destruct (last (b :: l)) eqn:Hl; [reflexivity |].
  apply last_None in Hl. discriminate.
Qed.

Lemma map_set_keys (key : JSVal) (agent : BMADAgent) (m : list (JSVal * BMADAgent)) :
  key = id agent ->
  Forall (fun e => fst e = id (snd e)) m ->
  Forall (fun e => fst e = id (snd e)) (map_set key agent m).
Proof.
  intros Hkey. induction m as [|[k a] m IH]; intros Hm; cbn [map_set].
  - constructor; [exact Hkey | constructor].
  - apply Forall_cons in Hm as [Hk Hm]. destruct (same_key k key) eqn:Hs.
    + apply same_key_eq in Hs. constructor; [cbn; congruence | exact Hm].
    + constructor; [exact Hk | apply IH, Hm].
Qed.

Lemma register_keys (found : list BMADAgent) (m : list (JSVal * BMADAgent)) :
  Forall (fun e => fst e = id (snd e)) m ->
  Forall (fun e => fst e = id (snd e)) (fold_left (fun reg a => map_set (id a) a reg) found m).
Proof.
  revert m. induction found as [|a found IH]; intros m Hm; [exact Hm |].
  cbn [fold_left]. apply IH, map_set_keys; [reflexivity | exact Hm].
Qed.

Lemma map_get_member (key : JSVal) (agent : BMADAgent) (m : list (JSVal * BMADAgent)) :
  map_get key m = Some agent -> exists k, (k, agent) ∈ m /\ same_key k key = true.
Proof.
  induction m as [|[k a] m IH]; [discriminate |]. cbn [map_get].
  destruct (same_key k key) eqn:Hs.
  - intros [= <-]. exists k. split; [left | exact Hs].
  - intros H. destruct (IH H) as (k' & Hin & Hk'). exists k'. split; [right; exact Hin | exact Hk'].
Qed.

End Registry.

(** X26.  When the agent files of the directory are plain, the registry
    the constructor fills files every agent under its own id; [getAgent] for an
    id returns the agent of the last file that loaded with that id, an agent
    with that id and one of [getAvailableAgents], or nothing when no file loaded
    with it. *)
Theorem getAgent_returns_the_last_loaded
    (files : FileSystem) (path : option string) (entries : list string)
    (ws : list Warning) (this : BMADOrchestrationService) (s : string) :
  readdirSync files (path_join (default ".bmad-creative-writing"%string path) "agents")
    = Ok entries ->
  plain_directory files
    (path_join (default ".bmad-creative-writing"%string path) "agents") entries = true ->
  new_BMADOrchestrationService files path = Ok (ws, this) ->
  getAgent this s =
    last (List.filter (fun a => same_key (id a) (JStr s))
            (omap (accepted files
                     (path_join (default ".bmad-creative-writing"%string path) "agents"))
                  (List.filter (endsWith ".md") entries))) /\
  (forall a, getAgent this s = Some a -> id a = JStr s /\ a ∈ getAvailableAgents this) /\
  (forall k a, (k, a) ∈ agents this -> k = id a).
Proof.
  intros Hdir _ Hnew. unfold new_BMADOrchestrationService, loadAgents in Hnew.
  rewrite Hdir, loadAgentFiles_spec in Hnew. injection Hnew as _ <-.
  unfold getAgent, getAvailableAgents. cbn [agents].
  set (found := omap _ _).
  assert (Forall (fun e => fst e = id (snd e))
            (fold_left (fun reg a => map_set (id a) a reg) found [])) as Hkeys
    by (apply register_keys; constructor).
  split_and!.
  - rewrite map_get_register. destruct (last _); reflexivity.
  - intros a Hget. apply map_get_member in Hget as (k & Hin & Hk).
    apply same_key_eq in Hk. subst k.
    pose proof (proj1 (Forall_forall _ _) Hkeys _ Hin) as Hid. cbn in Hid. split.
    + symmetry. exact Hid.
    + apply list_elem_of_fmap. exists (JStr s, a). split; [reflexivity | exact Hin].
  - intros k a Hin. apply (proj1 (Forall_forall _ _) Hkeys _ Hin).
Qed.

Lemma getAgent_returns_the_last_loaded_witness :
  exists ws this,
    new_BMADOrchestrationService raising_dir None = Ok (ws, this) /\
    getAgent this "editor" = Some editor_agent /\
    getAgent this "plot-architect" = None.
Proof.
  destruct (new_BMADOrchestrationService raising_dir None) as [[ws this]|e] eqn:Hnew;
    [| vm_compute in Hnew; discriminate].
  exists ws, this. split; [reflexivity |].
  destruct (getAgent_returns_the_last_loaded raising_dir None
              ["editor.md"; "nested.md"]%string ws this "editor" eq_refl
              ltac:(vm_compute; reflexivity) Hnew) as (H1 & _).
  destruct (getAgent_returns_the_last_loaded raising_dir None
              ["editor.md"; "nested.md"]%string ws this "plot-architect" eq_refl
              ltac:(vm_compute; reflexivity) Hnew)
    as (H2 & _).
  rewrite H1, H2. split; vm_compute; reflexivity.
Defined.

End OrchestrationProofs.

(** ** Accounts and sign-in sessions *)

Module AuthProofs.
Import Auth.

Section Users.

Lemma users_get_set (key key' : string) (u : User) (m : list (string * User)) :
  users_get key' (users_set key u m)
  = if String.eqb key key' then Some u else users_get key' m.
Proof.
  induction m as [|[k u0] m IH]; cbn [users_set users_get]; [reflexivity |].
  destruct (String.eqb k key) eqn:Hk; cbn [users_get].
  - apply String.eqb_eq in Hk. subst k. destruct (String.eqb key key'); reflexivity.
  - rewrite IH. destruct (String.eqb k key') eqn:Hk'; [| reflexivity].
    destruct (String.eqb key key') eqn:Hkk; [| reflexivity].
    apply String.eqb_eq in Hk', Hkk. subst. rewrite String.eqb_refl in Hk. discriminate.
Qed.

Lemma users_get_elem (key : string) (u : User) (m : list (string * User)) :
  users_get key m = Some u -> (key, u) ∈ m.
Proof.
  induction m as [|[k u0] m IH]; cbn [users_get]; [discriminate |].
  destruct (String.eqb k key) eqn:Hk.
  - apply String.eqb_eq in Hk. intros [= ->]. subst. left.
  - intros H. right. apply IH, H.
Qed.

Lemma users_get_of_elem (key : string) (u : User) (m : list (string * User)) :
  NoDup (map fst m) -> (key, u) ∈ m -> users_get key m = Some u.
Proof.
  induction m as [|[k u0] m IH]; intros Hnd Hin; [inversion Hin |].
  cbn [users_get]. cbn in Hnd. apply NoDup_cons in Hnd as [Hk Hnd].
  apply elem_of_cons in Hin as [[= -> ->] | Hin].
  - rewrite String.eqb_refl. reflexivity.
  - destruct (String.eqb k key) eqn:Heq; [| apply IH; assumption].
    apply String.eqb_eq in Heq. subst k. exfalso. apply Hk.
    apply list_elem_of_fmap. exists (key, u). split; [reflexivity | exact Hin].
Qed.

Lemma users_set_keys (k key : string) (u : User) (m : list (string * User)) :
  k ∈ map fst (users_set key u m) -> k = key \/ k ∈ map fst m.
Proof.
  induction m as [|[k0 u0] m IH]; cbn [users_set].
  - cbn. intros H. apply elem_of_cons in H as [-> | H]; [left; reflexivity | inversion H].
  - destruct (String.eqb k0 key); cbn; intros H.
    + right. exact H.
    + apply elem_of_cons in H as [-> | H]; [right; left |].
      destruct (IH H) as [-> | H']; [left; reflexivity | right; right; exact H'].
Qed.

Lemma users_set_NoDup (key : string) (u : User) (m : list (string * User)) :
  NoDup (map fst m) -> NoDup (map fst (users_set key u m)).
Proof.
  induction m as [|[k0 u0] m IH]; cbn [users_set]; intros Hnd.
  - cbn. apply NoDup_singleton.
  - cbn in Hnd. apply NoDup_cons in Hnd as [Hk Hnd].
    destruct (String.eqb k0 key) eqn:Heq; cbn.
    + apply NoDup_cons. split; assumption.
    + apply NoDup_cons. split; [| apply IH, Hnd].
      intros Hin. destruct (users_set_keys _ _ _ _ Hin) as [-> | Hin']; [| exact (Hk Hin')].
      rewrite String.eqb_refl in Heq. discriminate.
Qed.

Lemma users_set_emails (e : string) (key : string) (u : User) (m : list (string * User)) :
  e ∈ map email (values (users_set key u m)) -> e = email u \/ e ∈ map email (values m).
Proof.
  unfold values. induction m as [|[k0 u0] m IH]; cbn [users_set].
  - cbn. intros H. apply elem_of_cons in H as [-> | H]; [left; reflexivity | inversion H].
  - destruct (String.eqb k0 key); cbn; intros H.
    + apply elem_of_cons in H as [-> | H]; [left; reflexivity | right; right; exact H].
    + apply elem_of_cons in H as [-> | H]; [right; left |].
      destruct (IH H) as [-> | H']; [left; reflexivity | right; right; exact H'].
Qed.

(** A user with an address nobody has, filed under its id. *)
Lemma set_new_keyed (u : User) (m : list (string * User)) :
  well_keyed m -> email u ∉ map email (values m) -> well_keyed (users_set (id u) u m).
Proof.
  intros (Hkeys & Hemails & Hids) Hnew. split; [apply users_set_NoDup, Hkeys |]. split.
  - clear Hkeys Hids. unfold values in *.
    induction m as [|[k0 u0] m IH]; cbn [users_set].
    + cbn. apply NoDup_singleton.
    + cbn in Hemails, Hnew. apply NoDup_cons in Hemails as [Hu0 Hemails].
      apply not_elem_of_cons in Hnew as [Hne Hnew].
      destruct (String.eqb k0 (id u)); cbn.
      * apply NoDup_cons. split; assumption.
      * apply NoDup_cons. split; [| apply IH; assumption].
        intros Hin. destruct (users_set_emails _ _ _ _ Hin) as [Heq | Hin'];
          [exact (Hne (eq_sym Heq)) | exact (Hu0 Hin')].
  - clear Hkeys Hemails Hnew.
    induction m as [|[k0 u0] m IH]; cbn [users_set].
    + constructor; [reflexivity | constructor].
    + apply Forall_cons in Hids as [H0 Hids].
      destruct (String.eqb k0 (id u)) eqn:Heq.
      * apply String.eqb_eq in Heq. constructor; [exact Heq | exact Hids].
      * constructor; [exact H0 | apply IH, Hids].
Qed.

(** A new state of a user that is there, with the id and the address it had. *)
Lemma set_same_keyed (key : string) (u0 u : User) (m : list (string * User)) :
  well_keyed m -> users_get key m = Some u0 -> id u = id u0 -> email u = email u0 ->
  well_keyed (users_set key u m).
Proof.
  intros (Hkeys & Hemails & Hids) Hget Hid Hemail.
  assert (key = id u0) as Hkey.
  { apply users_get_elem in Hget.
    exact (proj1 (Forall_forall _ _) Hids _ Hget). }
  assert (map fst (users_set key u m) = map fst m /\
          map email (values (users_set key u m)) = map email (values m) /\
          Forall (fun e => fst e = id (snd e)) (users_set key u m)) as (H1 & H2 & H3).
  { clear Hkeys Hemails. unfold values. revert Hget Hids.
    induction m as [|[k0 v0] m IH]; cbn [users_get users_set]; [discriminate |].
    intros Hget Hids. apply Forall_cons in Hids as [H0 Hids].
    destruct (String.eqb k0 key) eqn:Heq.
    - injection Hget as ->. apply String.eqb_eq in Heq. cbn. split; [reflexivity |].
      split; [f_equal; exact Hemail |]. constructor; [cbn; congruence | exact Hids].
    - destruct (IH Hget Hids) as (I1 & I2 & I3). cbn. split; [f_equal; exact I1 |].
      split; [f_equal; exact I2 |]. constructor; [exact H0 | exact I3]. }
  split; [rewrite H1; exact Hkeys |]. split; [rewrite H2; exact Hemails | exact H3].
Qed.

Lemma find_email_elem (e : string) (u : User) (vs : list User) :
  find (fun v => String.eqb (email v) e) vs = Some u -> u ∈ vs /\ email u = e.
Proof.
  intros H. apply find_some in H as [Hin He]. apply String.eqb_eq in He.
  split; [apply list_elem_of_In, Hin | exact He].
Qed.

Lemma find_email_None (e : string) (vs : list User) :
  find (fun v => String.eqb (email v) e) vs = None -> e ∉ map email vs.
Proof.
  intros H Hin. apply list_elem_of_fmap in Hin as (v & -> & Hv).
  apply list_elem_of_In in Hv. pose proof (find_none _ _ H _ Hv) as Hf. cbn in Hf.
  rewrite String.eqb_refl in Hf. discriminate.
Qed.

Lemma one_user_per_email (vs : list User) (u v : User) :
  NoDup (map email vs) -> u ∈ vs -> v ∈ vs -> email v = email u -> v = u.
Proof.
  induction vs as [|w vs IH]; intros Hnd Hu Hv He; [inversion Hu |].
  cbn in Hnd. apply NoDup_cons in Hnd as [Hw Hnd].
  apply elem_of_cons in Hu as [-> | Hu]; apply elem_of_cons in Hv as [-> | Hv].
  - reflexivity.
  - exfalso. apply Hw. rewrite <- He. apply list_elem_of_fmap. exists v. split; [reflexivity | exact Hv].
  - exfalso. apply Hw. rewrite He. apply list_elem_of_fmap. exists u. split; [reflexivity | exact Hu].
  - apply IH; assumption.
Qed.

Lemma find_by_email (vs : list User) (u : User) :
  NoDup (map email vs) -> u ∈ vs ->
  find (fun v => String.eqb (email v) (email u)) vs = Some u.
Proof.
  intros Hnd Hu. destruct (find _ vs) as [v|] eqn:Hf.
  - apply find_email_elem in Hf as [Hv He]. f_equal. eapply one_user_per_email; eassumption.
  - apply find_email_None in Hf. exfalso. apply Hf.
    apply list_elem_of_fmap. exists u. split; [reflexivity | exact Hu].
Qed.

Lemma values_elem (u : User) (m : list (string * User)) :
  u ∈ values m -> exists k, (k, u) ∈ m.
Proof.
  intros H. apply list_elem_of_fmap in H as ([k v] & -> & Hin). exists k. exact Hin.
Qed.

Lemma apply_call_keyed (c : AuthCall) (this : AuthService) :
  well_keyed (users this) -> well_keyed (users (apply_call c this)).
Proof.
  intros Hk. destruct c; cbn [apply_call].
  - unfold register. destruct (find _ _) as [v|] eqn:Hf; [exact Hk |].
    cbn [fst users id]. apply (set_new_keyed (mkUser _ _ _ _ _ _ _ _)); [exact Hk |].
    apply find_email_None in Hf. exact Hf.
  - unfold login. destruct (find _ _) as [v|] eqn:Hf; [| exact Hk].
    cbn [fst users id]. apply find_email_elem in Hf as [Hv _].
    apply values_elem in Hv as [k Hin].
    destruct Hk as (Hkeys & Hemails & Hids).
    pose proof (proj1 (Forall_forall _ _) Hids _ Hin) as Hkv. cbn in Hkv. subst k.
    apply (set_same_keyed _ v);
      [exact (conj Hkeys (conj Hemails Hids)) | | reflexivity | reflexivity].
    apply users_get_of_elem; [exact Hkeys | exact Hin].
  - unfold validateToken. destruct (sessions this !! token_); [| exact Hk].
    destruct (_ <? _); exact Hk.
  - exact Hk.
  - unfold updateUserPlan. destruct (users_get _ _) as [v|] eqn:Hg; [| exact Hk].
    cbn [fst users]. apply (set_same_keyed _ v); [exact Hk | exact Hg | reflexivity | reflexivity].
  - unfold updateTokenUsage. destruct (users_get _ _) as [v|] eqn:Hg; [| exact Hk].
    cbn [fst users]. apply (set_same_keyed _ v); [exact Hk | exact Hg | reflexivity | reflexivity].
  - exact Hk.
Qed.

Lemma run_calls_keyed (cs : list AuthCall) : well_keyed (users (run_calls cs)).
Proof.
  unfold run_calls.
  assert (well_keyed (users new_AuthService)) as H0
    by (repeat split; constructor).
  revert H0. generalize new_AuthService.
  induction cs as [|c cs IH]; intros this Hk; [exact Hk |].
  cbn [fold_left]. apply IH, apply_call_keyed, Hk.
Qed.

End Users.

(** X27.  Whatever calls the service has served, an email address names one
    account: no two users it keeps share an address, every user is found
    under its id, and a login with the address of a user succeeds for that
    user, with any password. *)
Theorem emails_identify_accounts (calls : list AuthCall) (u : User) :
  u ∈ values (users (run_calls calls)) ->
  getUser (run_calls calls) (id u) = Some u /\
  (forall v, v ∈ values (users (run_calls calls)) -> email v = email u -> v = u) /\
  (forall (password : string) (lastLoginNow : Z) (tok1 tok2 : string) (expiryNow : Z),
     snd (login (run_calls calls) (email u) password lastLoginNow tok1 tok2 expiryNow)
     = mkAuthResult true
         (Some (mkUser (id u) (email u) (name u) (plan u) (tokenLimit u) (tokensUsed u)
                  (createdAt u) lastLoginNow))
         (Some (tok1 +:+ tok2)%string) None).
Proof.
  intros Hu. destruct (run_calls_keyed calls) as (Hkeys & Hemails & Hids).
  split_and!.
  - destruct (values_elem _ _ Hu) as [k Hin].
    pose proof (proj1 (Forall_forall _ _) Hids _ Hin) as Hk. cbn in Hk. subst k.
    apply users_get_of_elem; assumption.
  - intros v Hv He. eapply one_user_per_email; eassumption.
  - intros password lastLoginNow tok1 tok2 expiryNow. unfold login.
    rewrite (find_by_email _ _ Hemails Hu). reflexivity.
Qed.

Lemma emails_identify_accounts_witness :
  getUser (run_calls sample_calls) "u1" = Some ann /\
  snd (login (run_calls sample_calls) "ann@example.com" "anything" 400 "t4" "d" 400)
  = mkAuthResult true
      (Some (mkUser "u1" "ann@example.com" "Ann" free 1000%float 0%float 100 400))
      (Some "t4d"%string) None.
Proof.
  destruct (emails_identify_accounts sample_calls ann) as (H1 & _ & H3).
  - apply list_elem_of_In. vm_compute. left. reflexivity.
  - split; [exact H1 | exact (H3 "anything"%string 400 "t4"%string "d"%string 400)].
Defined.

(** X28.  A registration or a login that succeeds hands out the token made
    of the two identifiers drawn, and [validateToken] answers that token with
    the user of the result up to and including 86400000 milliseconds after the
    clock reading of the sign-in; called later, it answers null and deletes
    the session. *)
Theorem a_token_is_good_for_a_day
    (this : AuthService) (email_ password name_ newId : string)
    (createdNow lastLoginNow : Z) (tok1 tok2 : string) (expiryNow now : Z)
    (out : AuthService * AuthResult) :
  out = register this email_ password name_ newId createdNow lastLoginNow tok1 tok2 expiryNow
  \/ out = login this email_ password lastLoginNow tok1 tok2 expiryNow ->
  success (snd out) = true ->
  exists u,
    user (snd out) = Some u /\ token (snd out) = Some (tok1 +:+ tok2)%string /\
    validateToken (fst out) (tok1 +:+ tok2) now =
      if now <=? expiryNow + 86400000
      then (fst out, Some u)
      else (mkAuthService (users (fst out))
              (base.delete (tok1 +:+ tok2)%string (sessions (fst out))), None).
Proof.
  assert (forall u m,
            validateToken
              (mkAuthService (users_set (id u) u m)
                 (<[(tok1 +:+ tok2)%string :=
                      mkSignIn (id u) (expiryNow + 24 * 60 * 60 * 1000)]> (sessions this)))
              (tok1 +:+ tok2) now
            = if now <=? expiryNow + 86400000
              then (mkAuthService (users_set (id u) u m)
                      (<[(tok1 +:+ tok2)%string :=
                           mkSignIn (id u) (expiryNow + 24 * 60 * 60 * 1000)]> (sessions this)),
                    Some u)
              else (mkAuthService (users_set (id u) u m)
                      (base.delete (tok1 +:+ tok2)%string
                         (<[(tok1 +:+ tok2)%string :=
                              mkSignIn (id u) (expiryNow + 24 * 60 * 60 * 1000)]>
                            (sessions this))), None)) as Hvalid.
  { intros u m. unfold validateToken. cbn [sessions users].
    rewrite lookup_insert_eq. cbn [expiresAt userId].
    rewrite users_get_set, String.eqb_refl.
    change (24 * 60 * 60 * 1000) with 86400000.
    destruct (Z.ltb_spec (expiryNow + 86400000) now) as [Hlt | Hge];
      destruct (Z.leb_spec now (expiryNow + 86400000)) as [Hle | Hgt];
      try lia; reflexivity. }
  intros [-> | ->].
  - unfold register. destruct (find _ _); [discriminate |]. intros _.
    eexists. split; [reflexivity |]. split; [reflexivity |]. apply Hvalid.
  - unfold login. destruct (find _ _); [| discriminate]. intros _.
    eexists. split; [reflexivity |]. split; [reflexivity |]. apply Hvalid.
Qed.

Lemma a_token_is_good_for_a_day_witness :
  exists u,
    user (snd (login (run_calls sample_calls) "ann@example.com" "x" 400 "t4" "d" 400)) = Some u /\
    validateToken (fst (login (run_calls sample_calls) "ann@example.com" "x" 400 "t4" "d" 400))
      "t4d" 86400400
    = (fst (login (run_calls sample_calls) "ann@example.com" "x" 400 "t4" "d" 400), Some u).
Proof.
  destruct (a_token_is_good_for_a_day (run_calls sample_calls)
              "ann@example.com" "x" "Ann" "u9" 400 400 "t4" "d" 400 86400400
              (login (run_calls sample_calls) "ann@example.com" "x" 400 "t4" "d" 400)
              (or_intror eq_refl) ltac:(vm_compute; reflexivity)) as (u & H1 & _ & H3).
  exists u. split; [exact H1 | exact H3].
Defined.

(** X29.  Cleaning up does not show in [validateToken]: after
    [cleanupExpiredSessions] at an earlier or the same time, a token is
    answered as it is without the cleanup.  The cleanup keeps the users and
    exactly the sessions that had not expired before its clock reading. *)
Theorem cleanup_does_not_show_in_validation
    (this : AuthService) (cleanedAt : Z) (token_ : string) (now : Z) :
  cleanedAt <= now ->
  snd (validateToken (cleanupExpiredSessions this cleanedAt) token_ now)
  = snd (validateToken this token_ now) /\
  users (cleanupExpiredSessions this cleanedAt) = users this /\
  (forall t session,
     sessions (cleanupExpiredSessions this cleanedAt) !! t = Some session <->
     sessions this !! t = Some session /\ cleanedAt <= expiresAt session).
Proof.
  intros Hle. split; [| split; [reflexivity |]].
  - unfold validateToken, cleanupExpiredSessions. cbn [sessions users].
    destruct (sessions this !! token_) as [session|] eqn:Hs.
    + destruct (decide (expiresAt session < cleanedAt)) as [Hex | Hlive].
      * rewrite (map_lookup_filter_None_2 _ (sessions this) token_).
        -- destruct (Z.ltb_spec (expiresAt session) now); [reflexivity | lia].
        -- right. intros x Hx. rewrite Hs in Hx. injection Hx as <-. cbn. lia.
      * rewrite (map_lookup_filter_Some_2 _ (sessions this) token_ session Hs);
          [| cbn; lia].
        destruct (expiresAt session <? now); reflexivity.
    + rewrite (map_lookup_filter_None_2 _ (sessions this) token_); [reflexivity |].
      left. exact Hs.
  - intros t session. unfold cleanupExpiredSessions. cbn [sessions].
    rewrite map_lookup_filter_Some. cbn. split; intros [H1 H2]; (split; [exact H1 | lia]).
Qed.

Lemma cleanup_does_not_show_in_validation_witness :
  snd (validateToken (cleanupExpiredSessions (run_calls sample_calls) 86400150) "t1a" 86400200)
  = None /\
  snd (validateToken (cleanupExpiredSessions (run_calls sample_calls) 86400150) "t2b" 86400200)
  = snd (validateToken (run_calls sample_calls) "t2b" 86400200).
Proof.
  destruct (cleanup_does_not_show_in_validation (run_calls sample_calls) 86400150
              "t1a" 86400200 ltac:(lia)) as (H1 & _).
  destruct (cleanup_does_not_show_in_validation (run_calls sample_calls) 86400150
              "t2b" 86400200 ltac:(lia)) as (H2 & _).
  split; [rewrite H1; vm_compute; reflexivity | exact H2].
Defined.

(** X30.  A change of plan that succeeds gives the user the plan and the
    token limit the billing service lists for it, leaves the rest of the user
    (the tokens used among it) and every other user as they were. *)
Theorem a_plan_brings_the_limit_billing_lists
    (this : AuthService) (userId_ : string) (plan_ : Plan) (this' : AuthService) :
  updateUserPlan this userId_ plan_ = (this', true) ->
  exists u0 listed,
    getUser this userId_ = Some u0 /\
    Billing.getPlan (Billing.plan_id plan_) = Some listed /\
    Billing.id listed = Billing.plan_id plan_ /\
    getUser this' userId_ =
      Some (mkUser (id u0) (email u0) (name u0) plan_ (Billing.tokenLimit listed)
              (tokensUsed u0) (createdAt u0) (lastLoginAt u0)) /\
    sessions this' = sessions this /\
    (forall other, other <> userId_ -> getUser this' other = getUser this other).
Proof.
  unfold updateUserPlan, getUser. destruct (users_get userId_ (users this)) as [u0|] eqn:Hg;
    [| discriminate].
  intros [= <-]. cbn [users sessions].
  exists u0. destruct plan_; eexists; (split; [reflexivity |]);
    (split; [reflexivity |]); (split; [reflexivity |]);
    (split; [rewrite users_get_set, String.eqb_refl; reflexivity |]);
    (split; [reflexivity |]); intros other Hne; rewrite users_get_set;
    destruct (String.eqb_spec userId_ other); congruence.
Qed.

Lemma a_plan_brings_the_limit_billing_lists_witness :
  exists this',
    updateUserPlan (run_calls sample_calls) "u1" team = (this', true) /\
    option_map tokenLimit (getUser this' "u1") = Some 50000%float.
Proof.
  destruct (updateUserPlan (run_calls sample_calls) "u1" team) as [this' b] eqn:Hup.
  assert (b = true) as -> by (vm_compute in Hup; congruence).
  exists this'. split; [reflexivity |].
  destruct (a_plan_brings_the_limit_billing_lists _ _ _ _ Hup)
    as (u0 & listed & _ & Hl & _ & Hu & _).
  rewrite Hu. cbn [option_map tokenLimit]. vm_compute in Hl. injection Hl as <-. reflexivity.
Defined.

End AuthProofs.
